(** * Client runtime of the site: state store, module loader, event bus

  A shallow embedding of three classes of the repository,

    - [StateManager]  (utils/stateManager.js),
    - [LazyLoader]    (js/utils/lazyLoader.js),
    - [EventManager]  (js/utils/events.js),

  together with the properties their specification states about them.

  JavaScript objects that the classes keep in a [Map] or a plain object are
  finite maps ([gmap]); a [Set] whose members are compared by identity is
  the list of its members in insertion order.  Code that can throw is
  written in a state-and-exception monad in which the mutations made before
  a throw stay visible afterwards, as they do in JavaScript. *)

From stdpp Require Import gmap strings list pretty.

Local Open Scope string_scope.
Local Open Scope list_scope.

(* ===================================================================== *)
(** * Part I: definitions                                                 *)
(* ===================================================================== *)

(** ** JavaScript values *)

Module JS.

(** Primitive values carry their contents; every object (plain object,
    [Set], [Map], function) is a reference, compared by identity.  Numbers
    are integers plus the one number that differs from itself. *)
Inductive Value : Type :=
| VUndefined
| VNull
| VBool (b : bool)
| VNum (z : Z)
| VNaN
| VStr (s : string)
| VRef (r : nat).

#[global] Instance Value_eq_dec : EqDecision Value.
Proof. solve_decision. Defined.

(** [a === b] *)
Definition strict_eq (a b : Value) : bool :=
  match a, b with
  | VNaN, _ | _, VNaN => false
  | _, _ => bool_decide (a = b)
  end.

(** [a !== b] *)
Definition strict_neq (a b : Value) : bool := negb (strict_eq a b).

(** [o[k]] on a plain object: a missing property reads as [undefined]. *)
Definition prop (o : gmap string Value) (k : string) : Value :=
  default VUndefined (o !! k).

(** [xs.slice(0, end)] for an integer [end]: a negative [end] counts from
    the end of the array. *)
Definition slice0 {A} (xs : list A) (end_ : Z) : list A :=
  if (end_ <? 0)%Z
  then take (Z.to_nat (Z.max (Z.of_nat (length xs) + end_) 0)) xs
  else take (Z.to_nat end_) xs.

End JS.
Export JS.

(** ** Effects: state, exceptions, try/catch *)

Module Eff.

(** How a statement ends: normally with a value, or by throwing one. *)
Inductive Completion (A : Type) : Type :=
| Normal (a : A)
| Throw (e : Value).
Arguments Normal {A} a.
Arguments Throw {A} e.

(** A computation over a mutable world [S]. The world is returned in both
    cases: what was written before a throw is not rolled back. *)
Definition M (S A : Type) : Type := S → Completion A * S.

Definition ret {S A} (a : A) : M S A := λ s, (Normal a, s).

Definition bind {S A B} (c : M S A) (k : A → M S B) : M S B :=
  λ s, match c s with
       | (Normal a, s') => k a s'
       | (Throw e, s') => (Throw e, s')
       end.

Definition throw {S A} (e : Value) : M S A := λ s, (Throw e, s).

(** [try { body } catch (error) { handler(error) }] *)
Definition try_catch {S A} (body : M S A) (handler : Value → M S A) : M S A :=
  λ s, match body s with
       | (Normal a, s') => (Normal a, s')
       | (Throw e, s') => handler e s'
       end.

Definition get {S} : M S S := λ s, (Normal s, s).
Definition gets {S A} (f : S → A) : M S A := λ s, (Normal (f s), s).
Definition modify {S} (f : S → S) : M S unit := λ s, (Normal tt, f s).

(** Run a computation on a part [T] of the world [S]. *)
Definition zoom {S T A} (proj : S → T) (inj : T → S → S) (c : M T A) : M S A :=
  λ s, let '(r, t) := c (proj s) in (r, inj t s).

(** [xs.forEach(x => body(x))] *)
Fixpoint for_each {S A} (xs : list A) (body : A → M S unit) : M S unit :=
  match xs with
  | [] => ret tt
  | x :: xs' => bind (body x) (λ _, for_each xs' body)
  end.

Definition is_throw {A} (c : Completion A) : bool :=
  match c with Throw _ => true | Normal _ => false end.

End Eff.
Export Eff.

Declare Scope eff_scope.
Delimit Scope eff_scope with eff.
Notation "x <- c ;; k" := (Eff.bind c (λ x, k))
(at level 100, c at next level, right associativity) : eff_scope.
Notation "c ;; k" := (Eff.bind c (λ _, k))
(at level 100, right associativity) : eff_scope.
Local Open Scope eff_scope.

(** ** The logger ([Logger], utils/logger.js) *)

Module Logger.

Inductive LogLevel : Type := DEBUG | INFO | WARN | ERROR.

#[global] Instance LogLevel_eq_dec : EqDecision LogLevel.
Proof. solve_decision. Defined.

(** Position of a level in the array [levels] of [shouldLog]. *)
Definition level_index (l : LogLevel) : nat :=
  match l with DEBUG => 0 | INFO => 1 | WARN => 2 | ERROR => 3 end.

Record LogRecord : Type := { log_level : LogLevel; log_message : string }.

#[global] Instance LogRecord_eq_dec : EqDecision LogRecord.
Proof. solve_decision. Defined.

(** What a logger owns of the world: its threshold ([this.logLevel], fixed
    when the logger is built) and the lines it has printed on the console,
    oldest first. *)
Record Console : Type := {
  logLevel : LogLevel;
  printed : list LogRecord
}.

Definition shouldLog (level : LogLevel) (c : Console) : bool :=
  bool_decide (level_index (logLevel c) <= level_index level)%nat.

Definition print (level : LogLevel) (message : string) (c : Console) : Console :=
  {| logLevel := logLevel c;
     printed := printed c ++ [{| log_level := level; log_message := message |}] |}.

Definition debug (message : string) (c : Console) : Console :=
  if shouldLog DEBUG c then print DEBUG message c else c.

Definition info (message : string) (c : Console) : Console :=
  if shouldLog INFO c then print INFO message c else c.

Definition warn (message : string) (c : Console) : Console :=
  if shouldLog WARN c then print WARN message c else c.

(** [error] prints whatever the threshold is.  Its report to the monitoring
    store runs inside its own try/catch and writes one storage key that
    nothing else here reads, so it is left out. *)
Definition error (message : string) (c : Console) : Console :=
  print ERROR message c.

(** The error lines printed so far. *)
Definition errors (c : Console) : list string :=
  log_message <$> filter (λ r, log_level r = ERROR) (printed c).

End Logger.

(** ** A [Map] whose iteration order is observed *)

Module JsMap.

(** Entries in insertion order, one per key. *)
Definition t (V : Type) : Type := list (string * V).

Definition get {V} (m : t V) (k : string) : option V :=
  snd <$> List.find (λ e, bool_decide (fst e = k)) m.

Definition has {V} (m : t V) (k : string) : bool :=
  bool_decide (is_Some (get m k)).

(** [m.set(k, v)]: an existing key keeps its place, a new one goes last. *)
Fixpoint set {V} (m : t V) (k : string) (v : V) : t V :=
  match m with
  | [] => [(k, v)]
  | (k', v') :: m' => if bool_decide (k' = k) then (k, v) :: m' else (k', v') :: set m' k v
  end.

Definition delete {V} (m : t V) (k : string) : t V :=
  filter (λ e, fst e ≠ k) m.

Definition keys {V} (m : t V) : list string := fst <$> m.

End JsMap.

(** ** The event bus ([EventManager], js/utils/events.js) *)

Module Events.

(** Anything can be passed as a target; the host decides what it accepts. *)
Definition Target : Type := Value.
Definition window : Target := VRef 0.

(** The object built by [new CustomEvent(type, {detail, bubbles, cancelable})]. *)
Record CustomEvent : Type := {
  type : string;
  detail : Value;
  bubbles : bool;
  cancelable : bool
}.

(** A handler is a function of the caller, or the closure [wrappedHandler]
    that [once] builds around one. *)
Inductive Handler : Type :=
| Fn (f : nat)
| WrappedHandler (closure : nat) (handler : Handler) (eventName : string) (target : Target).

(** The host page: the document with its event targets and its clock.  The
    bus only relies on the four calls below, each of which may throw; the
    handlers the host runs during a dispatch do not call back into the bus. *)
Class Host : Type := {
  Dom : Type;
  new_CustomEvent : string → Value → bool → bool → M Dom CustomEvent;
  dispatchEvent : Target → CustomEvent → M Dom bool;
  addEventListener : Target → string → Handler → M Dom unit;
  removeEventListener : Target → string → Handler → M Dom unit;
  Date_now : Dom → Z;
  Date_toISOString : Dom → string
}.

(** An entry of [eventHistory]. *)
Record Entry : Type := {
  name : string;
  data : Value;
  timestamp : Z;
  time : string
}.

(** The object [listenerData]; [ld_id] is its identity (each call of [on]
    builds a new one). *)
Record ListenerData : Type := {
  ld_id : nat;
  handler : Handler;
  target : Target
}.

Record EventManager : Type := {
  listeners : JsMap.t (list ListenerData);
  eventHistory : list Entry;
  maxHistorySize : nat;
  allocated : nat  (* objects built so far; gives the next identity *)
}.

Section WithHost.
Context `{Host}.

(** The bus, the page it runs in, and the console of [mainLogger]. *)
Record State : Type := {
  this : EventManager;
  dom : Dom;
  console : Logger.Console
}.

Definition set_this (f : EventManager → EventManager) (s : State) : State :=
  {| this := f (this s); dom := dom s; console := console s |}.

Definition set_listeners (f : JsMap.t (list ListenerData) → JsMap.t (list ListenerData))
  (em : EventManager) : EventManager :=
  {| listeners := f (listeners em); eventHistory := eventHistory em;
     maxHistorySize := maxHistorySize em; allocated := allocated em |}.

Definition set_eventHistory (h : list Entry) (em : EventManager) : EventManager :=
  {| listeners := listeners em; eventHistory := h;
     maxHistorySize := maxHistorySize em; allocated := allocated em |}.

Definition host {A} (c : M Dom A) : M State A :=
  zoom dom (λ d s, {| this := this s; dom := d; console := console s |}) c.

Definition mainLogger (f : Logger.Console → Logger.Console) : M State unit :=
  modify (λ s, {| this := this s; dom := dom s; console := f (console s) |}).

(** [new EventManager()] *)
Definition constructor : M State unit :=
  modify (set_this (λ _, {| listeners := []; eventHistory := [];
                            maxHistorySize := 100; allocated := 0 |}));;
  mainLogger (Logger.debug "EventManager created").

(** [addToHistory(eventName, data)] *)
Definition addToHistory (eventName : string) (data : Value) : M State unit :=
  now <- gets (λ s, Date_now (dom s));;
  iso <- gets (λ s, Date_toISOString (dom s));;
  let entry := {| name := eventName; data := data; timestamp := now; time := iso |} in
  (* this.eventHistory.unshift(entry) *)
  modify (set_this (λ em, set_eventHistory (entry :: eventHistory em) em));;
  em <- gets this;;
  if bool_decide (maxHistorySize em < length (eventHistory em))%nat
  then modify (set_this (set_eventHistory
                 (slice0 (eventHistory em) (Z.of_nat (maxHistorySize em)))))
  else ret tt.

(** [emit(eventName, data = null, target = window)]; [None] is [null]. *)
Definition emit (eventName : string) (data : Value) (target : Target)
  : M State (option CustomEvent) :=
  try_catch
    (event <- host (new_CustomEvent eventName data true true);;
     addToHistory eventName data;;
     host (dispatchEvent target event);;
     mainLogger (Logger.debug ("Event emitted: " +:+ eventName));;
     ret (Some event))
    (λ error,
     mainLogger (Logger.error ("Failed to emit event: " +:+ eventName));;
     ret None).

(** What [on] returns: the closure that undoes the registration. *)
Record Unsubscribe : Type := {
  u_eventName : string;
  u_listenerData : ListenerData
}.

Definition set_add (ld : ListenerData) (set : list ListenerData) : list ListenerData :=
  if bool_decide (ld_id ld ∈ ld_id <$> set) then set else set ++ [ld].

Definition set_delete (ld : ListenerData) (set : list ListenerData) : list ListenerData :=
  filter (λ x, ld_id x ≠ ld_id ld) set.

(** [on(eventName, handler, target = window)] *)
Definition on (eventName : string) (handler : Handler) (target : Target)
  : M State Unsubscribe :=
  em <- gets this;;
  (if JsMap.has (listeners em) eventName then ret tt
   else modify (set_this (set_listeners (λ l, JsMap.set l eventName []))));;
  em <- gets this;;
  let listenerData := {| ld_id := allocated em; handler := handler; target := target |} in
  modify (set_this (λ em,
    {| listeners := JsMap.set (listeners em) eventName
                      (set_add listenerData (default [] (JsMap.get (listeners em) eventName)));
       eventHistory := eventHistory em; maxHistorySize := maxHistorySize em;
       allocated := S (allocated em) |}));;
  host (addEventListener target eventName handler);;
  mainLogger (Logger.debug ("Event listener added: " +:+ eventName));;
  ret {| u_eventName := eventName; u_listenerData := listenerData |}.

(** Calling the function returned by [on]. *)
Definition unsubscribe (u : Unsubscribe) : M State unit :=
  let eventName := u_eventName u in
  let ld := u_listenerData u in
  host (removeEventListener (target ld) eventName (handler ld));;
  (* this.listeners.get(eventName)?.delete(listenerData) *)
  modify (set_this (set_listeners (λ l,
    match JsMap.get l eventName with
    | Some set => JsMap.set l eventName (set_delete ld set)
    | None => l
    end)));;
  mainLogger (Logger.debug ("Event listener removed: " +:+ eventName)).

(** [once(eventName, handler, target = window)] *)
Definition once (eventName : string) (handler : Handler) (target : Target)
  : M State Unsubscribe :=
  em <- gets this;;
  let wrappedHandler := WrappedHandler (allocated em) handler eventName target in
  modify (set_this (λ em,
    {| listeners := listeners em; eventHistory := eventHistory em;
       maxHistorySize := maxHistorySize em; allocated := S (allocated em) |}));;
  on eventName wrappedHandler target.

(** [off(eventName)] *)
Definition off (eventName : string) : M State unit :=
  em <- gets this;;
  match JsMap.get (listeners em) eventName with
  | Some eventListeners =>
      for_each eventListeners (λ ld,
        host (removeEventListener (target ld) eventName (handler ld)));;
      modify (set_this (set_listeners (λ l, JsMap.delete l eventName)));;
      mainLogger (Logger.debug ("All listeners removed for: " +:+ eventName))
  | None => ret tt
  end.

(** [getHistory(limit = 10)] *)
Definition getHistory (limit : Z) : M State (list Entry) :=
  em <- gets this;;
  ret (slice0 (eventHistory em) limit).

(** [getHistoryFor(eventName, limit = 10)] *)
Definition getHistoryFor (eventName : string) (limit : Z) : M State (list Entry) :=
  em <- gets this;;
  ret (slice0 (filter (λ entry, name entry = eventName) (eventHistory em)) limit).

(** [clearHistory()] *)
Definition clearHistory : M State unit :=
  modify (set_this (set_eventHistory []));;
  mainLogger (Logger.debug "Event history cleared").

(** [destroy()] *)
Definition destroy : M State unit :=
  em <- gets this;;
  for_each (JsMap.keys (listeners em)) (λ eventName, off eventName);;
  modify (set_this (set_listeners (λ _, [])));;
  clearHistory;;
  mainLogger (Logger.debug "EventManager destroyed").

(** The object returned by [createChannel(namespace)]: four methods that
    call the bus with the name prefixed. *)
Record Channel : Type := {
  channel_emit : string → Value → Target → M State (option CustomEvent);
  channel_on : string → Handler → Target → M State Unsubscribe;
  channel_once : string → Handler → Target → M State Unsubscribe;
  channel_off : string → M State unit
}.

(** [`${namespace}:${eventName}`] *)
Definition channel_name (namespace eventName : string) : string :=
  namespace +:+ ":" +:+ eventName.

(** [createChannel(namespace)] *)
Definition createChannel (namespace : string) : Channel :=
  {| channel_emit := λ eventName data target,
       emit (channel_name namespace eventName) data target;
     channel_on := λ eventName handler target,
       on (channel_name namespace eventName) handler target;
     channel_once := λ eventName handler target,
       once (channel_name namespace eventName) handler target;
     channel_off := λ eventName,
       off (channel_name namespace eventName) |}.

(** The calls a client of the bus can make, and what the page does between
    two of them ([PageStep]: time passes, the document changes). *)
Inductive Call : Type :=
| CEmit (eventName : string) (data : Value) (target : Target)
| COn (eventName : string) (handler : Handler) (target : Target)
| COnce (eventName : string) (handler : Handler) (target : Target)
| CUnsubscribe (u : Unsubscribe)
| COff (eventName : string)
| CGetHistory (limit : Z)
| CGetHistoryFor (eventName : string) (limit : Z)
| CAddToHistory (eventName : string) (data : Value)
| CClearHistory
| CDestroy
| CChannelEmit (namespace eventName : string) (data : Value) (target : Target)
| CChannelOn (namespace eventName : string) (handler : Handler) (target : Target)
| CChannelOnce (namespace eventName : string) (handler : Handler) (target : Target)
| CChannelOff (namespace eventName : string)
| PageStep (f : Dom → Dom).

Definition forget {A} (c : M State A) (s : State) : State := snd (c s).

(** The state a call leaves behind, whether it returns or throws. *)
Definition exec (c : Call) : State → State :=
  match c with
  | CEmit n d t => forget (emit n d t)
  | COn n h t => forget (on n h t)
  | COnce n h t => forget (once n h t)
  | CUnsubscribe u => forget (unsubscribe u)
  | COff n => forget (off n)
  | CGetHistory l => forget (getHistory l)
  | CGetHistoryFor n l => forget (getHistoryFor n l)
  | CAddToHistory n d => forget (addToHistory n d)
  | CClearHistory => forget clearHistory
  | CDestroy => forget destroy
  | CChannelEmit ns n d t => forget (channel_emit (createChannel ns) n d t)
  | CChannelOn ns n h t => forget (channel_on (createChannel ns) n h t)
  | CChannelOnce ns n h t => forget (channel_once (createChannel ns) n h t)
  | CChannelOff ns n => forget (channel_off (createChannel ns) n)
  | PageStep f => λ s, {| this := this s; dom := f (dom s); console := console s |}
  end.

Definition run (cs : list Call) (s : State) : State := foldl (λ s c, exec c s) s cs.

(** The entry [addToHistory] builds in state [s]. *)
Definition entry_at (eventName : string) (data : Value) (d : Dom) : Entry :=
  {| name := eventName; data := data; timestamp := Date_now d;
     time := Date_toISOString d |}.

(** The bus after [addToHistory], in a page that has moved on to [d]. *)
Definition recorded (eventName : string) (data : Value) (d : Dom) (s : State)
  : EventManager :=
  set_eventHistory
    (take (maxHistorySize (this s)) (entry_at eventName data d :: eventHistory (this s)))
    (this s).

Definition failed_line (eventName : string) : Logger.LogRecord :=
  {| Logger.log_level := Logger.ERROR;
     Logger.log_message := "Failed to emit event: " +:+ eventName |}.

(** A computation that leaves the history and its capacity alone, however
    it ends. *)
Definition keeps_history {A} (c : M State A) : Prop :=
  ∀ s, eventHistory (this (c s).2) = eventHistory (this s)
       ∧ maxHistorySize (this (c s).2) = maxHistorySize (this s).

(** The object [listenerData] that [on] builds in state [s]. *)
Definition listenerData_at (handler : Handler) (target : Target) (s : State)
  : ListenerData :=
  {| ld_id := allocated (this s); handler := handler; target := target |}.

(** Every registered [listenerData] was built before now. *)
Definition ids_fresh (em : EventManager) : Prop :=
  ∀ n set ld, JsMap.get (listeners em) n = Some set → ld ∈ set →
              (ld_id ld < allocated em)%nat.

(** The targets let go of every listener registered under [eventName]. *)
Definition releases (eventName : string) (em : EventManager) : Prop :=
  ∀ set ld d, JsMap.get (listeners em) eventName = Some set → ld ∈ set →
    is_throw (removeEventListener (target ld) eventName (handler ld) d).1 = false.

(** What every bus operation keeps true of the history. *)
Definition history_ok (s : State) : Prop :=
  maxHistorySize (this s) = 100%nat ∧ (length (eventHistory (this s)) <= 100)%nat.

End WithHost.

End Events.

(** ** The page's [localStorage] *)

Module Storage.

(** The stored items and the room the browser grants, counted in
    characters of keys and values. *)
Record t : Type := {
  items : gmap string string;
  quota : nat
}.

Definition used (m : gmap string string) : nat :=
  map_fold (λ k v acc, String.length k + String.length v + acc)%nat 0%nat m.

(** [localStorage.setItem(key, value)] throws when the quota is exceeded,
    and then stores nothing. *)
Definition setItem (key value : string) : M t unit :=
  st <- get;;
  let items' := <[key := value]> (items st) in
  if bool_decide (used items' <= quota st)%nat
  then modify (λ st, {| items := items'; quota := quota st |})
  else throw (VStr "QuotaExceededError").

(** [localStorage.getItem(key)]; [None] is [null]. *)
Definition getItem (key : string) (st : t) : option string := items st !! key.

End Storage.

(** ** The state store ([StateManager], utils/stateManager.js) *)

Module Store.

(** In the memory of the store, reference [0] names [Object.prototype], the
    prototype of an object literal such as [this.state]. *)
Definition Object_prototype : Value := VRef 0.

(** What a subscriber can read and write while it runs: the store's [state]
    object, given by its own properties and its prototype, and the page's
    [localStorage]. *)
Record Memory : Type := {
  state : gmap string Value;
  prototype : Value;
  localStorage : Storage.t
}.

(** A middleware [(key, value, oldValue) => value]: a function of its three
    arguments, which may throw. *)
Definition Middleware : Type := string → Value → Value → Completion Value.

(** The code the store calls but does not contain: the bodies of the
    functions registered as subscribers (a function object is named by a
    number, its identity), and [JSON].  A subscriber may read and write the
    state object and the storage, which is what a call of [setState] from
    inside it does to them; it does not change who is subscribed, or the
    middleware chain, while it is being notified.

    A reference names an object of the page other than the state object
    (which the store keeps to itself: [getAllState] hands out a copy).
    These objects are known by what a property read finds on the prototype
    chain that starts at them ([inherited]) and by whether that chain
    reaches [Object.prototype] ([inherits_Object_prototype]).  They hold
    writable data properties only, the accessor [__proto__] of
    [Object.prototype] apart; none of them has the state object on its
    chain, and the state object is extensible. *)
Class Program : Type := {
  callback : nat → Value → Value → string → M Memory unit;
  JSON_stringify : Value → Completion string;
  JSON_stringify_object : list (string * Value) → Completion string;
  JSON_parse : string → Completion (list (string * Value));
  inherited : Value → string → Value;
  inherits_Object_prototype : Value → bool
}.

Record StateManager : Type := {
  subscribers : gmap string (list nat);
  middleware : list Middleware
}.

(** Observations kept for the proofs: each assignment [this.state[key] = v]
    and each call of a subscriber, with the state object as it was when the
    subscriber was entered. Oldest first. *)
Inductive Event : Type :=
| Assigned (key : string) (value : Value)
| Called (callback : nat) (newValue oldValue : Value) (key : string)
         (seen : gmap string Value).

Record State : Type := {
  this : StateManager;
  memory : Memory;
  console : Logger.Console;
  trace : list Event
}.

(** An element of the array [changes] of [setMultipleStates]. *)
Record Change : Type := {
  key : string;
  oldValue : Value;
  newValue : Value
}.

Definition autoSaveKeys : list string :=
  ["currentLanguage"; "darkMode"; "cookiePreferences"].

Section WithProgram.
Context `{Program}.

Definition set_this (f : StateManager → StateManager) (s : State) : State :=
  {| this := f (this s); memory := memory s; console := console s; trace := trace s |}.

Definition set_memory (m : Memory) (s : State) : State :=
  {| this := this s; memory := m; console := console s; trace := trace s |}.

Definition observe (e : Event) : M State unit :=
  modify (λ s, {| this := this s; memory := memory s; console := console s;
                  trace := trace s ++ [e] |}).

Definition mainLogger (f : Logger.Console → Logger.Console) : M State unit :=
  modify (λ s, {| this := this s; memory := memory s; console := f (console s);
                  trace := trace s |}).

Definition lift {A} (c : Completion A) : M State A := λ s, (c, s).

Definition with_localStorage {A} (c : M Storage.t A) : M State A :=
  zoom (λ s, localStorage (memory s))
       (λ st s, set_memory {| state := state (memory s);
                              prototype := prototype (memory s);
                              localStorage := st |} s) c.

(** Whether an object whose prototype is [p] inherits the accessor
    [__proto__] of [Object.prototype]. *)
Definition proto_accessor_on (p : Value) : bool :=
  bool_decide (p = Object_prototype)
  || match p with VRef _ => inherits_Object_prototype p | _ => false end.

(** [this.state[key]]: an own property first; then [__proto__], which the
    inherited getter answers with the prototype; then what the prototype
    chain holds. *)
Definition read (m : Memory) (key : string) : Value :=
  match state m !! key with
  | Some v => v
  | None =>
      if bool_decide (key = "__proto__") && proto_accessor_on (prototype m)
      then prototype m
      else match prototype m with
           | VRef _ => inherited (prototype m) key
           | _ => VUndefined
           end
  end.

(** [this.state[key] = value] on the memory.  An own property is
    overwritten and a new name becomes an own property; but the name
    [__proto__], as long as it is not an own property and the accessor of
    [Object.prototype] is inherited, goes to the inherited setter: an object
    or [null] becomes the prototype, anything else is dropped. *)
Definition put (key : string) (value : Value) (m : Memory) : Memory :=
  if bool_decide (key = "__proto__") && bool_decide (state m !! key = None)
     && proto_accessor_on (prototype m)
  then match value with
       | VRef _ | VNull =>
           {| state := state m; prototype := value; localStorage := localStorage m |}
       | _ => m
       end
  else {| state := <[key := value]> (state m); prototype := prototype m;
          localStorage := localStorage m |}.

(** [this.state[key] = value] *)
Definition assign (key : string) (value : Value) : M State unit :=
  modify (λ s, set_memory (put key value (memory s)) s);;
  observe (Assigned key value).

(** [getState(key)] *)
Definition getState (key : string) (s : State) : Value := read (memory s) key.

(** [getAllState()]: a copy of the state object. *)
Definition getAllState (s : State) : gmap string Value := state (memory s).

(** [this.middleware.reduce((processedValue, middleware) =>
       middleware(key, processedValue, oldValue), value)] *)
Fixpoint reduce (ms : list Middleware) (key : string) (processedValue oldValue : Value)
  : Completion Value :=
  match ms with
  | [] => Normal processedValue
  | middleware :: ms' =>
      match middleware key processedValue oldValue with
      | Normal v => reduce ms' key v oldValue
      | Throw e => Throw e
      end
  end.

(** [applyMiddleware(key, value, oldValue)] *)
Definition applyMiddleware (key : string) (value oldValue : Value) : M State Value :=
  sm <- gets this;;
  lift (reduce (middleware sm) key value oldValue).

(** [callback(newValue, oldValue, key)] *)
Definition call (cb : nat) (newValue oldValue : Value) (key : string) : M State unit :=
  seen <- gets (λ s, state (memory s));;
  observe (Called cb newValue oldValue key seen);;
  zoom memory set_memory (callback cb newValue oldValue key).

(** [notifySubscribers(key, newValue, oldValue)] *)
Definition notifySubscribers (key : string) (newValue oldValue : Value) : M State unit :=
  sm <- gets this;;
  match subscribers sm !! key with
  | Some keySubscribers =>
      if bool_decide (0 < length keySubscribers)%nat
      then for_each keySubscribers (λ cb,
             try_catch
               (call cb newValue oldValue key)
               (λ error,
                mainLogger (Logger.error ("Error in state subscriber for " +:+ key))))
      else ret tt
  | None => ret tt
  end.

(** [autoSave(key, value)] *)
Definition autoSave (key : string) (value : Value) : M State unit :=
  if bool_decide (key ∈ autoSaveKeys)
  then try_catch
         (json <- lift (JSON_stringify value);;
          with_localStorage (Storage.setItem ("oudar-" +:+ key) json))
         (λ e, mainLogger (Logger.warn ("Failed to auto-save " +:+ key)))
  else ret tt.

(** [setState(key, value, notify = true)] *)
Definition setState (key : string) (value : Value) (notify : bool) : M State unit :=
  oldValue <- gets (getState key);;
  processedValue <- applyMiddleware key value oldValue;;
  assign key processedValue;;
  mainLogger (Logger.debug ("State updated: " +:+ key));;
  (if notify && strict_neq oldValue processedValue
   then notifySubscribers key processedValue oldValue
   else ret tt);;
  autoSave key processedValue.

(** The first loop of [setMultipleStates], over [Object.entries(updates)];
    [changes] is the array filled so far. *)
Fixpoint update_each (entries : list (string * Value)) (changes : list Change)
  : M State (list Change) :=
  match entries with
  | [] => ret changes
  | (key, value) :: entries' =>
      oldValue <- gets (getState key);;
      processedValue <- applyMiddleware key value oldValue;;
      assign key processedValue;;
      update_each entries'
        (if strict_neq oldValue processedValue
         then changes ++ [{| key := key; oldValue := oldValue; newValue := processedValue |}]
         else changes)
  end.

(** [setMultipleStates(updates, notify = true)]; [updates] is given by its
    entries, in the order [Object.entries] lists them. *)
Definition setMultipleStates (updates : list (string * Value)) (notify : bool)
  : M State unit :=
  changes <- update_each updates [];;
  mainLogger (Logger.debug "Multiple state updates");;
  if notify
  then for_each changes (λ c, notifySubscribers (key c) (newValue c) (oldValue c))
  else ret tt.

(** [subscribe(key, callback)]; the function it returns is [unsubscribe key
    callback]. *)
Definition subscribe (key : string) (cb : nat) : M State unit :=
  modify (set_this (λ sm,
    let set := default [] (subscribers sm !! key) in
    {| subscribers := <[key := if bool_decide (cb ∈ set) then set else set ++ [cb]]>
                        (subscribers sm);
       middleware := middleware sm |}));;
  mainLogger (Logger.debug ("Subscription added for: " +:+ key)).

Definition unsubscribe (key : string) (cb : nat) : M State unit :=
  modify (set_this (λ sm,
    match subscribers sm !! key with
    | Some keySubscribers =>
        let rest := filter (λ c, c ≠ cb) keySubscribers in
        {| subscribers := if bool_decide (length rest = 0)%nat
                          then delete key (subscribers sm)
                          else <[key := rest]> (subscribers sm);
           middleware := middleware sm |}
    | None => sm
    end));;
  mainLogger (Logger.debug ("Subscription removed for: " +:+ key)).

(** [subscribeToMultiple(keys, callback)] and the function it returns. *)
Definition subscribeToMultiple (keys : list string) (cb : nat) : M State unit :=
  for_each keys (λ key, subscribe key cb).

Definition unsubscribeFromMultiple (keys : list string) (cb : nat) : M State unit :=
  for_each keys (λ key, unsubscribe key cb).

(** [addMiddleware(middleware)] *)
Definition addMiddleware (m : Middleware) : M State unit :=
  modify (set_this (λ sm,
    {| subscribers := subscribers sm; middleware := middleware sm ++ [m] |}));;
  mainLogger (Logger.debug "Middleware added").

(** [saveStateToStorage()] *)
Definition saveStateToStorage : M State unit :=
  try_catch
    (s <- get;;
     let stateToSave :=
       [("currentLanguage", getState "currentLanguage" s);
        ("darkMode", getState "darkMode" s);
        ("cookiePreferences", getState "cookiePreferences" s)] in
     json <- lift (JSON_stringify_object stateToSave);;
     with_localStorage (Storage.setItem "oudar-app-state" json);;
     mainLogger (Logger.debug "State saved to storage"))
    (λ e, mainLogger (Logger.warn "Failed to save state to storage")).

(** [restoreStateFromStorage()] *)
Definition restoreStateFromStorage : M State unit :=
  try_catch
    (s <- get;;
     match Storage.getItem "oudar-app-state" (localStorage (memory s)) with
     | Some savedState =>
         if bool_decide (savedState = "") then ret tt
         else
           parsed <- lift (JSON_parse savedState);;
           setMultipleStates parsed true;;
           mainLogger (Logger.debug "State restored from storage")
     | None => ret tt
     end)
    (λ e, mainLogger (Logger.warn "Failed to restore state from storage")).

(** The subscriber calls among the observations. *)
Definition is_call (e : Event) : bool :=
  match e with Called _ _ _ _ _ => true | Assigned _ _ => false end.

Definition calls (t : list Event) : list Event := filter (λ e, is_call e) t.

(** One subscriber called under [try]/[catch]: the body of the [forEach] of
    [notifySubscribers]. *)
Definition deliver (key : string) (newValue oldValue : Value) (cb : nat) : M State unit :=
  try_catch (call cb newValue oldValue key)
    (λ error, mainLogger (Logger.error ("Error in state subscriber for " +:+ key))).

(** Who was called, and with what. *)
Definition invocation (e : Event) : option (nat * Value * Value * string) :=
  match e with
  | Called cb newValue oldValue key _ => Some (cb, newValue, oldValue, key)
  | Assigned _ _ => None
  end.

Definition invocations (t : list Event) : list (nat * Value * Value * string) :=
  omap invocation t.

(** The state object a call event was entered with. *)
Definition seen_by (e : Event) : option (gmap string Value) :=
  match e with
  | Called _ _ _ _ seen => Some seen
  | Assigned _ _ => None
  end.

(** The members of [this.subscribers.get(key)], in the order [forEach]
    visits them; none if the key has no entry. *)
Definition subscribers_of (key : string) (sm : StateManager) : list nat :=
  default [] (subscribers sm !! key).

(** The calls [notifySubscribers] owes for one change, and for a list. *)
Definition owed (sm : StateManager) (c : Change) : list (nat * Value * Value * string) :=
  (λ cb, (cb, newValue c, oldValue c, key c)) <$> subscribers_of (key c) sm.

Definition owed_all (sm : StateManager) (cs : list Change)
  : list (nat * Value * Value * string) :=
  concat (owed sm <$> cs).

(** Subscribers that only read the state object: they leave its own
    properties and its prototype as they are. *)
Definition readers : Prop :=
  ∀ cb newValue oldValue key m,
    state (callback cb newValue oldValue key m).2 = state m
    ∧ prototype (callback cb newValue oldValue key m).2 = prototype m.

(** The line [notifySubscribers] prints for a subscriber that threw. *)
Definition subscriber_error (key : string) : Logger.LogRecord :=
  {| Logger.log_level := Logger.ERROR;
     Logger.log_message := "Error in state subscriber for " +:+ key |}.


(** [s'] is [s] after the calls [es], and after nothing else: the store
    object is the same, the observations added are these calls, the first
    of them was entered with the state object of [s] (all of them, and the
    state object is still that of [s], when subscribers only read), and the
    console has only grown. *)
Definition notified (es : list (nat * Value * Value * string)) (s s' : State) : Prop :=
  this s' = this s
  ∧ (∃ events,
       trace s' = trace s ++ events
       ∧ Forall (λ e, is_call e) events
       ∧ invocations events = es
       ∧ (∀ e, head events = Some e → seen_by e = Some (state (memory s)))
       ∧ (readers → Forall (λ e, seen_by e = Some (state (memory s))) events))
  ∧ (es = [] → memory s' = memory s)
  ∧ (readers → state (memory s') = state (memory s)
               ∧ prototype (memory s') = prototype (memory s))
  ∧ Logger.logLevel (console s') = Logger.logLevel (console s)
  ∧ Logger.printed (console s) `prefix_of` Logger.printed (console s').

(** The store right after [setState] has assigned [value] to [key] and
    logged it, before anybody is notified. *)
Definition stored (key : string) (value : Value) (s : State) : State :=
  {| this := this s;
     memory := put key value (memory s);
     console := Logger.debug ("State updated: " +:+ key) (console s);
     trace := trace s ++ [Assigned key value] |}.

(** The own properties after the first loop of [setMultipleStates], when the
    middleware chain turns each [(key, value)] into [post key value] and no
    key is [__proto__]. *)
Definition written (post : string → Value → Value) (st : gmap string Value)
  (updates : list (string * Value)) : gmap string Value :=
  foldl (λ st u, <[u.1 := post u.1 u.2]> st) st updates.

(** The store after that loop. *)
Definition updated (post : string → Value → Value) (updates : list (string * Value))
  (s : State) : State :=
  {| this := this s;
     memory := {| state := written post (state (memory s)) updates;
                  prototype := prototype (memory s);
                  localStorage := localStorage (memory s) |};
     console := console s;
     trace := trace s ++ ((λ u, Assigned u.1 (post u.1 u.2)) <$> updates) |}.

(** The array [changes] that the first loop of [setMultipleStates] builds
    from the memory [m] when the middleware chain turns each [(key, value)]
    into [post key value]. *)
Definition changes_of (post : string → Value → Value) (m : Memory)
  (updates : list (string * Value)) : list Change :=
  omap (λ u, if strict_neq (read m u.1) (post u.1 u.2)
             then Some {| key := u.1; oldValue := read m u.1; newValue := post u.1 u.2 |}
             else None) updates.



Fixpoint entered (calls : list (nat * Value * Value * string)) (m : Memory)
  : list Event :=
  match calls with
  | [] => []
  | (cb, newValue, oldValue, key) :: rest =>
      Called cb newValue oldValue key (state m)
      :: entered rest (callback cb newValue oldValue key m).2
  end.


(** [getStoredDarkMode()], with the [JSON.parse] of the page: [false] when
    nothing is stored, when what is stored is empty, and when it does not
    parse. *)
Definition getStoredDarkMode (JSON_parse_value : string → Completion Value)
  (st : Storage.t) : Value :=
  match Storage.getItem "oudar-darkMode" st with
  | Some stored =>
      if bool_decide (stored = "") then VBool false
      else match JSON_parse_value stored with
           | Normal v => v
           | Throw _ => VBool false
           end
  | None => VBool false
  end.

(** [CONFIG.COOKIES.PREFERENCES_KEY] (config/settings.js) *)
Definition PREFERENCES_KEY : string := "cookie-preferences".

(** What [getStoredCookiePreferences()] returns: what is stored, or the
    object [{necessary: true, analytics: false, marketing: false}]. *)
Inductive Preferences : Type :=
| Stored (preferences : Value)
| Defaults.

(** [getStoredCookiePreferences()], with the [JSON.parse] of the page. *)
Definition getStoredCookiePreferences (JSON_parse_value : string → Completion Value)
  (st : Storage.t) : Preferences :=
  match Storage.getItem PREFERENCES_KEY st with
  | Some stored =>
      if bool_decide (stored = "") then Defaults
      else match JSON_parse_value stored with
           | Normal v => Stored v
           | Throw _ => Defaults
           end
  | None => Defaults
  end.

(** The calls a client of the store can make. *)
Inductive Call : Type :=
| CSetState (key : string) (value : Value) (notify : bool)
| CSetMultipleStates (updates : list (string * Value)) (notify : bool)
| CSubscribe (key : string) (cb : nat)
| CUnsubscribe (key : string) (cb : nat)
| CSubscribeToMultiple (keys : list string) (cb : nat)
| CUnsubscribeFromMultiple (keys : list string) (cb : nat)
| CAddMiddleware (m : Middleware)
| CSaveStateToStorage
| CRestoreStateFromStorage.

(** The store a call leaves behind, whether it returns or throws. *)
Definition exec (c : Call) (s : State) : State :=
  match c with
  | CSetState k v n => (setState k v n s).2
  | CSetMultipleStates us n => (setMultipleStates us n s).2
  | CSubscribe k cb => (subscribe k cb s).2
  | CUnsubscribe k cb => (unsubscribe k cb s).2
  | CSubscribeToMultiple ks cb => (subscribeToMultiple ks cb s).2
  | CUnsubscribeFromMultiple ks cb => (unsubscribeFromMultiple ks cb s).2
  | CAddMiddleware m => (addMiddleware m s).2
  | CSaveStateToStorage => (saveStateToStorage s).2
  | CRestoreStateFromStorage => (restoreStateFromStorage s).2
  end.

Definition run (cs : list Call) (s : State) : State := foldl (λ s c, exec c s) s cs.

(** The registry of subscribers is tidy: no key is left with an empty set,
    and no set holds a function twice. *)
Definition tidy (sm : StateManager) : Prop :=
  ∀ k l, subscribers sm !! k = Some l → l ≠ [] ∧ NoDup l.

(** A call that subscribes [cb] to [key] (again). *)
Definition resubscribes (key : string) (cb : nat) (c : Call) : Prop :=
  match c with
  | CSubscribe k c' => k = key ∧ c' = cb
  | CSubscribeToMultiple ks c' => key ∈ ks ∧ c' = cb
  | _ => False
  end.

(** Calls owed to functions that are subscribed to the key they are called
    for. *)
Definition to_subscribers (sm : StateManager)
  (calls : list (nat * Value * Value * string)) : Prop :=
  ∀ cb newValue oldValue key,
    (cb, newValue, oldValue, key) ∈ calls → cb ∈ subscribers_of key sm.

(** Subscribers that leave [localStorage] alone. *)
Definition no_storage_writers : Prop :=
  ∀ cb newValue oldValue key m,
    localStorage (callback cb newValue oldValue key m).2 = localStorage m.

(** [setState(key, value, notify)] files no error report: nobody is
    notified, or the logger has the threshold of development, or no
    subscriber of the key throws.  ([Logger.error] keeps a report of the
    error in [localStorage] unless its threshold is [DEBUG]; the logger
    above prints the line and leaves the report out.) *)
Definition files_no_report (key : string) (notify : bool) (s : State) : Prop :=
  notify = false
  ∨ Logger.logLevel (console s) = Logger.DEBUG
  ∨ ∀ cb newValue oldValue m,
      cb ∈ subscribers_of key (this s) →
      is_throw (callback cb newValue oldValue key m).1 = false.

(** The three fields [saveStateToStorage] puts in the snapshot. *)
Definition snapshot (s : State) : list (string * Value) :=
  [("currentLanguage", getState "currentLanguage" s);
   ("darkMode", getState "darkMode" s);
   ("cookiePreferences", getState "cookiePreferences" s)].

End WithProgram.

End Store.

(** ** The module loader ([LazyLoader], js/utils/lazyLoader.js) *)

Module Loader.

(** [CONFIG.PERFORMANCE.MAX_RETRIES] (config/settings.js) *)
Definition MAX_RETRIES : nat := 3.

(** The keys of [moduleMap] in [dynamicImport]: the registry. *)
Definition moduleMap : list string :=
  ["carousel"; "darkMode"; "drawer"; "header"; "loader"; "animations";
   "language"; "blog"; "cookies"; "forms"; "navigation"; "expertiseNav";
   "home"; "contact"; "expertises"; "team"].

(** A promise is named by its number of creation. *)
Definition Promise : Type := nat.

Record LazyLoader : Type := {
  loadedModules : gmap string Value;
  pendingLoads : gmap string Promise;
  failedLoads : gset string;
  retryCount : gmap string nat
}.

(** A call of [loadModule] suspended at [await modulePromise].  [fate] is
    set when the promise settles without the page: the name is not in the
    registry, and [dynamicImport] has thrown or returned already. *)
Record Frame : Type := {
  moduleName : string;
  modulePromise : Promise;
  fate : option (Completion Value)
}.

(** The loader, the promises numbered so far, the suspended calls, the names
    whose registry function has been invoked (oldest first), and the console
    of [performanceLogger]. *)
Record State : Type := {
  this : LazyLoader;
  promises : nat;
  frames : list Frame;
  imported : list string;
  console : Logger.Console
}.

(** How far a call of the async function [loadModule] gets before it gives
    control back: it returns a value, returns a promise (which the caller's
    promise then follows), or is suspended at its [await]. *)
Inductive Returned : Type :=
| Val (v : Value)
| Fut (p : Promise)
| Await (p : Promise).

#[global] Instance Returned_eq_dec : EqDecision Returned.
Proof. solve_decision. Defined.

(** The argument [condition] of [loadModule]; its result is read for
    truthiness. *)
Definition Condition : Type := unit → Completion bool.

(** [() => true], the default. *)
Definition always : Condition := λ _, Normal true.

Definition set_this (f : LazyLoader → LazyLoader) (s : State) : State :=
  {| this := f (this s); promises := promises s; frames := frames s;
     imported := imported s; console := console s |}.

Definition performanceLogger (f : Logger.Console → Logger.Console) : M State unit :=
  modify (λ s, {| this := this s; promises := promises s; frames := frames s;
                  imported := imported s; console := f (console s) |}).

(** [new LazyLoader()] *)
Definition constructor : LazyLoader :=
  {| loadedModules := ∅; pendingLoads := ∅; failedLoads := ∅; retryCount := ∅ |}.

Definition initial (c : Logger.Console) : State :=
  {| this := constructor; promises := 0; frames := []; imported := []; console := c |}.

(** The methods that an object literal, such as [moduleMap], inherits from
    [Object.prototype], each with its [length]. *)
Definition Object_prototype_functions : list (string * nat) :=
  [("constructor", 1%nat); ("toString", 0%nat); ("toLocaleString", 0%nat);
   ("valueOf", 0%nat); ("hasOwnProperty", 1%nat); ("isPrototypeOf", 1%nat);
   ("propertyIsEnumerable", 1%nat); ("__defineGetter__", 2%nat);
   ("__defineSetter__", 2%nat); ("__lookupGetter__", 1%nat); ("__lookupSetter__", 1%nat)].

Definition Object_prototype_methods : list string := Object_prototype_functions.*1.

(** What [table[name] || []] is, for [table] an object literal of arrays:
    the array of an own key; else what the object inherits, which is one of
    the functions above or, under [__proto__], the prototype; else the empty
    array. *)
Inductive Entry : Type :=
| Modules (modules : list string)
| Method (length : nat)
| Prototype.

Definition entry (table : list (string * list string)) (name : string) : Entry :=
  match JsMap.get table name with
  | Some modules => Modules modules
  | None =>
      match JsMap.get Object_prototype_functions name with
      | Some n => Method n
      | None => if bool_decide (name = "__proto__") then Prototype else Modules []
      end
  end.

(** The error of the language for a call that cannot be made (engines word
    its message differently). *)
Definition TypeError : Value := VStr "TypeError".

(** [dynamicImport(moduleName)] for a name that is no key of the registry,
    in the call numbered [p].  [moduleMap[moduleName]] then finds what the
    object inherits:
    - a method of [Object.prototype], which passes the test [!importer] and
      is called as [importer()], with [this] undefined and no argument:
      [constructor] (that is [Object]) returns a new object, written
      [VRef p]; [toString] returns the string below; [isPrototypeOf] returns
      [false]; the others throw, having no object to work on;
    - for [__proto__], the prototype itself, which passes the test and is
      not a function;
    - nothing for any other name, and the function throws its own error. *)
Definition unregistered (moduleName : string) (p : Promise) : Completion Value :=
  if bool_decide (moduleName = "constructor") then Normal (VRef p)
  else if bool_decide (moduleName = "toString") then Normal (VStr "[object Undefined]")
  else if bool_decide (moduleName = "isPrototypeOf") then Normal (VBool false)
  else if bool_decide (moduleName ∈ Object_prototype_methods) then Throw TypeError
  else if bool_decide (moduleName = "__proto__") then Throw TypeError
  else Throw (VStr ("Unknown module: " +:+ moduleName)).

(** [dynamicImport(moduleName)]: the promise of the call, and how it is
    settled already when the page has no say.  The registry function is
    invoked for a key of the registry only, and the page settles the
    promise of its [import()]. *)
Definition dynamicImport (moduleName : string)
  : M State (Promise * option (Completion Value)) :=
  s <- get;;
  let p := promises s in
  if bool_decide (moduleName ∈ moduleMap)
  then
    modify (λ s, {| this := this s; promises := S (promises s); frames := frames s;
                    imported := imported s ++ [moduleName]; console := console s |});;
    ret (p, None)
  else
    modify (λ s, {| this := this s; promises := S (promises s); frames := frames s;
                    imported := imported s; console := console s |});;
    ret (p, Some (unregistered moduleName p)).

Definition suspend (f : Frame) : M State unit :=
  modify (λ s, {| this := this s; promises := promises s; frames := frames s ++ [f];
                  imported := imported s; console := console s |}).

(** [this.retryCount.get(moduleName) || 0] *)
Definition retries_of (l : LazyLoader) (moduleName : string) : nat :=
  default 0%nat (retryCount l !! moduleName).

(** [loadModule(moduleName, condition = () => true)], up to its [await]. *)
Definition loadModule (moduleName : string) (condition : Condition) : M State Returned :=
  l <- gets this;;
  match loadedModules l !! moduleName with
  | Some module =>
      performanceLogger (Logger.debug ("Module already loaded: " +:+ moduleName));;
      ret (Val module)
  | None =>
  match pendingLoads l !! moduleName with
  | Some pending =>
      performanceLogger (Logger.debug ("Module loading in progress: " +:+ moduleName));;
      ret (Fut pending)
  | None =>
  met <- (λ s, (condition tt, s));;
  if negb met then
    performanceLogger (Logger.debug ("Condition not met for module: " +:+ moduleName));;
    ret (Val VNull)
  else
  if bool_decide (moduleName ∈ failedLoads l)
     && bool_decide (MAX_RETRIES <= retries_of l moduleName)%nat
  then
    performanceLogger
      (Logger.warn ("Module " +:+ moduleName +:+ " failed too many times, skipping"));;
    ret (Val VNull)
  else
    started <- dynamicImport moduleName;;
    let modulePromise := fst started in
    let fate := snd started in
    modify (set_this (λ l,
      {| loadedModules := loadedModules l;
         pendingLoads := <[moduleName := modulePromise]> (pendingLoads l);
         failedLoads := failedLoads l; retryCount := retryCount l |}));;
    suspend {| moduleName := moduleName; modulePromise := modulePromise; fate := fate |};;
    ret (Await modulePromise)
  end end.

(** The rest of [loadModule], run when [modulePromise] is settled: the end
    of the [try] block if it is fulfilled, the [catch] block if it is
    rejected.  The result is what the call finally returns.  (The two timer
    calls of the logger, [time] and [timeEnd], only start and stop a console
    timer and are left out.) *)
Definition loadModule_settled (moduleName : string) (outcome : Completion Value)
  : M State Value :=
  match outcome with
  | Normal module =>
      modify (set_this (λ l,
        {| loadedModules := <[moduleName := module]> (loadedModules l);
           pendingLoads := delete moduleName (pendingLoads l);
           failedLoads := failedLoads l ∖ {[moduleName]};
           retryCount := delete moduleName (retryCount l) |}));;
      performanceLogger (Logger.debug ("Module loaded successfully: " +:+ moduleName));;
      ret module
  | Throw error =>
      modify (set_this (λ l,
        {| loadedModules := loadedModules l;
           pendingLoads := delete moduleName (pendingLoads l);
           failedLoads := failedLoads l ∪ {[moduleName]};
           retryCount := <[moduleName := (retries_of l moduleName + 1)%nat]> (retryCount l) |}));;
      performanceLogger (Logger.error ("Failed to load module " +:+ moduleName));;
      ret VNull
  end.

(** Promise [p] is settled, by the page with [outcome] or, when the page has
    no say, as [dynamicImport] has left it, and the call suspended on it
    runs to its end.  Nothing happens if no call is suspended on [p]. *)
Definition settle (p : Promise) (outcome : Completion Value) : M State unit :=
  s <- get;;
  match List.find (λ f, bool_decide (modulePromise f = p)) (frames s) with
  | Some f =>
      modify (λ s, {| this := this s; promises := promises s;
                      frames := filter (λ g, modulePromise g ≠ p) (frames s);
                      imported := imported s; console := console s |});;
      loadModule_settled (moduleName f)
        (match fate f with Some settled => settled | None => outcome end);;
      ret tt
  | None => ret tt
  end.




(** [retryModule(moduleName)], up to the [await] of the [loadModule] it calls. *)
Definition retryModule (moduleName : string) : M State Returned :=
  l <- gets this;;
  if negb (bool_decide (moduleName ∈ failedLoads l))
  then loadModule moduleName always
  else
    if bool_decide (MAX_RETRIES <= retries_of l moduleName)%nat
    then
      performanceLogger (Logger.warn ("Module " +:+ moduleName +:+ " exceeded max retries"));;
      ret (Val VNull)
    else
      modify (set_this (λ l,
        {| loadedModules := loadedModules l; pendingLoads := pendingLoads l;
           failedLoads := failedLoads l ∖ {[moduleName]}; retryCount := retryCount l |}));;
      loadModule moduleName always.

(** [cleanup()] *)
Definition cleanup : M State unit :=
  modify (set_this (λ l,
    {| loadedModules := loadedModules l; pendingLoads := ∅;
       failedLoads := failedLoads l; retryCount := retryCount l |}));;
  performanceLogger (Logger.debug "LazyLoader cleanup completed").

(** [modules.map(module => this.loadModule(module))]: the calls are made one
    after the other, each up to its [await]. *)
Fixpoint loadModules (modules : list string) : M State (list Returned) :=
  match modules with
  | [] => ret []
  | module :: rest =>
      r <- loadModule module always;;
      rs <- loadModules rest;;
      ret (r :: rs)
  end.

(** [preloadCriticalModules()], up to [await Promise.all(loadPromises)] *)
Definition criticalModules : list string := ["darkMode"; "language"; "header"; "loader"].

Definition preloadCriticalModules : M State (list Returned) :=
  performanceLogger (Logger.info "Preloading critical modules...");;
  loadModules criticalModules.

(** [loadPageSpecificModules()] for the page the browser shows. *)
Definition pageModules : list (string * list string) :=
  [("index.html", ["carousel"; "animations"; "home"]);
   ("blog.html", ["blog"]);
   ("contact.html", ["forms"; "contact"]);
   ("expertises.html", ["expertises"]);
   ("cabinet.html", ["animations"]);
   ("consultation.html", ["forms"]);
   ("honoraires.html", ["forms"]);
   ("team-svetlana.html", ["team"]);
   ("team-sharon.html", ["team"]);
   ("team-leonie.html", ["team"]);
   ("expertise-droit-immobilier.html", ["expertiseNav"]);
   ("expertise-droit-de-la-construction.html", ["expertiseNav"]);
   ("expertise-droit-de-la-copropriete.html", ["expertiseNav"]);
   ("expertise-contentieux-civil-commercial.html", ["expertiseNav"]);
   ("expertise-vente-forcee.html", ["expertiseNav"]);
   ("expertise-droit-famille.html", ["expertiseNav"]);
   ("mentions-legales.html", []);
   ("plan-du-site.html", []);
   ("gestion-cookies.html", ["cookies"])].

(** For a page named like a method of [Object.prototype], [modules] is that
    function: [modules.length] is its length, and [modules.map] is not a
    function.  For [__proto__] it is the prototype, which has no
    [length]. *)
Definition loadPageSpecificModules (currentPage : string) : M State (list Returned) :=
  match entry pageModules currentPage with
  | Modules modules =>
      if bool_decide (0 < length modules)%nat
      then
        performanceLogger (Logger.info ("Loading page-specific modules for " +:+ currentPage));;
        loadModules modules
      else ret []
  | Method n =>
      if bool_decide (0 < n)%nat
      then
        performanceLogger (Logger.info ("Loading page-specific modules for " +:+ currentPage));;
        throw TypeError
      else ret []
  | Prototype => ret []
  end.

(** [loadViewportSpecificModules()] *)
Definition loadViewportSpecificModules (isMobile : bool) : M State (list Returned) :=
  if isMobile then loadModules ["drawer"] else ret [].

(** [loadOnInteraction(interaction)]; for a name that the table only
    inherits, [modules.map] is not a function. *)
Definition interactionModules : list (string * list string) :=
  [("scroll", ["animations"]);
   ("drawer-open", ["drawer"]);
   ("carousel-init", ["carousel"]);
   ("form-focus", ["forms"]);
   ("cookie-banner", ["cookies"]);
   ("dark-mode-toggle", ["darkMode"]);
   ("language-switch", ["language"])].

Definition loadOnInteraction (interaction : string) : M State (list Returned) :=
  match entry interactionModules interaction with
  | Modules modules => loadModules modules
  | Method _ | Prototype => throw TypeError
  end.

(** What happens to a loader: the calls of its clients, and the page
    settling a promise.  The promise that a call hands to its caller is not
    given a number here, where nobody looks at it; [loadModule_call] gives
    it one. *)
Inductive Call : Type :=
| CLoadModule (moduleName : string) (condition : Condition)
| CRetryModule (moduleName : string)
| CPreloadCriticalModules
| CLoadPageSpecificModules (currentPage : string)
| CLoadViewportSpecificModules (isMobile : bool)
| CLoadOnInteraction (interaction : string)
| CCleanup
| Settle (p : Promise) (outcome : Completion Value).

Definition forget {A} (c : M State A) (s : State) : State := snd (c s).

Definition exec (c : Call) : State → State :=
  match c with
  | CLoadModule n cond => forget (loadModule n cond)
  | CRetryModule n => forget (retryModule n)
  | CPreloadCriticalModules => forget preloadCriticalModules
  | CLoadPageSpecificModules p => forget (loadPageSpecificModules p)
  | CLoadViewportSpecificModules m => forget (loadViewportSpecificModules m)
  | CLoadOnInteraction i => forget (loadOnInteraction i)
  | CCleanup => forget cleanup
  | Settle p o => forget (settle p o)
  end.

Definition run (cs : list Call) (s : State) : State := foldl (λ s c, exec c s) s cs.

(** How many times the registry function of [moduleName] has been invoked. *)
Definition fetches (moduleName : string) (s : State) : nat :=
  length (filter (λ n, n = moduleName) (imported s)).

(** The state with one more line on the console, if the logger prints it. *)
Definition logged (f : Logger.Console → Logger.Console) (s : State) : State :=
  {| this := this s; promises := promises s; frames := frames s;
     imported := imported s; console := f (console s) |}.

(** What the loader holds about one module: its entries in the four
    collections, the promises of the calls suspended on it, and how many
    times its registry function has been invoked. *)
Record Status : Type := {
  is_loaded : option Value;
  is_pending : option Promise;
  is_failed : bool;
  retried : option nat;
  awaited : list Promise;
  fetched : nat
}.

Definition status (name : string) (s : State) : Status :=
  {| is_loaded := loadedModules (this s) !! name;
     is_pending := pendingLoads (this s) !! name;
     is_failed := bool_decide (name ∈ failedLoads (this s));
     retried := retryCount (this s) !! name;
     awaited := modulePromise <$> filter (λ f, moduleName f = name) (frames s);
     fetched := fetches name s |}.

(** A load of [name] is in flight on promise [p]: the name is pending on
    [p], not loaded, and no call is suspended for it on another promise. *)
Definition in_flight (name : string) (p : Promise) (s : State) : Prop :=
  loadedModules (this s) !! name = None
  ∧ pendingLoads (this s) !! name = Some p
  ∧ Forall (λ q, q = p) (awaited (status name s)).

(** Nothing is going on for [name]: neither loaded nor pending, and no call
    is suspended for it. *)
Definition idle (name : string) (s : State) : Prop :=
  loadedModules (this s) !! name = None
  ∧ pendingLoads (this s) !! name = None
  ∧ awaited (status name s) = [].

(** [name] has failed as often as is allowed. *)
Definition exhausted (name : string) (s : State) : Prop :=
  name ∈ failedLoads (this s) ∧ (MAX_RETRIES <= retries_of (this s) name)%nat.

(** [name] is in the failed state with its retries used up: in the failed
    set with the maximal count, neither loaded nor pending. *)
Definition given_up (name : string) (s : State) : Prop :=
  exhausted name s
  ∧ loadedModules (this s) !! name = None
  ∧ pendingLoads (this s) !! name = None.

(** The automatic load attempts: a plain call of [loadModule], and the
    paths triggered by the page shown, the viewport and the interactions. *)
Definition automatic (c : Call) : Prop :=
  match c with
  | CLoadModule _ _ | CPreloadCriticalModules | CLoadPageSpecificModules _
  | CLoadViewportSpecificModules _ | CLoadOnInteraction _ => True
  | CRetryModule _ | CCleanup | Settle _ _ => False
  end.

(** The loader once [retryModule] has cleared the failed flag of [name]. *)
Definition flag_cleared (name : string) (s : State) : State :=
  set_this (λ l, {| loadedModules := loadedModules l; pendingLoads := pendingLoads l;
                    failedLoads := failedLoads l ∖ {[name]};
                    retryCount := retryCount l |}) s.

(** The call that [Settle p] resumes, if any, and how its promise ends. *)
Definition resumed (p : Promise) (s : State) : option Frame :=
  List.find (λ f, bool_decide (modulePromise f = p)) (frames s).

Definition ending (f : Frame) (outcome : Completion Value) : Completion Value :=
  match fate f with Some settled => settled | None => outcome end.

(** The steps that are not the settling of a promise. *)
Definition requested (c : Call) : Prop :=
  match c with Settle _ _ => False | _ => True end.

(** The loader after [loadModule] has started a load of [name]: a new
    promise, the name pending on it, the call suspended on it, and the
    registry function invoked if the name is a key of the registry. *)
Definition begun (name : string) (s : State) : State :=
  {| this := {| loadedModules := loadedModules (this s);
                pendingLoads := <[name := promises s]> (pendingLoads (this s));
                failedLoads := failedLoads (this s);
                retryCount := retryCount (this s) |};
     promises := S (promises s);
     frames := frames s ++
       [{| moduleName := name; modulePromise := promises s;
           fate := if bool_decide (name ∈ moduleMap) then None
                   else Some (unregistered name (promises s)) |}];
     imported := if bool_decide (name ∈ moduleMap) then imported s ++ [name]
                 else imported s;
     console := console s |}.

(** How the four collections and the suspended calls hang together as long
    as [pendingLoads] is not emptied under running loads: a suspended call
    is the pending load of its module; a loaded module is not pending; a
    failed module is not loaded; a module that has used up its retries is
    not pending. *)
Definition consistent (s : State) : Prop :=
  (∀ f, f ∈ frames s → pendingLoads (this s) !! moduleName f = Some (modulePromise f))
  ∧ (∀ n, is_Some (loadedModules (this s) !! n) → pendingLoads (this s) !! n = None)
  ∧ (∀ n, n ∈ failedLoads (this s) → loadedModules (this s) !! n = None)
  ∧ (∀ n, exhausted n s → pendingLoads (this s) !! n = None).

(** The promises of the suspended calls were all created before now. *)
Definition promises_fresh (s : State) : Prop :=
  ∀ f, f ∈ frames s → (modulePromise f < promises s)%nat.

(** How the import of [name] on promise [p] ends when the page answers
    [outcome]: for a name outside the registry the page has no say. *)
Definition answer (name : string) (p : Promise) (outcome : Completion Value)
  : Completion Value :=
  if bool_decide (name ∈ moduleMap) then outcome else unregistered name p.

(** No count is above the allowance, and only failed modules reach it. *)
Definition bounded (s : State) : Prop :=
  ∀ n, (retries_of (this s) n <= MAX_RETRIES)%nat
       ∧ (n ∉ failedLoads (this s) → (retries_of (this s) n < MAX_RETRIES)%nat).

(** The line [loadModule] prints when a load fails. *)
Definition load_failure (r : Logger.LogRecord) : Prop :=
  Logger.log_level r = Logger.ERROR
  ∧ ∃ n, Logger.log_message r = "Failed to load module " +:+ n.

(** A console with the threshold of production, on which only failed loads
    have been printed. *)
Definition production (c : Logger.Console) : Prop :=
  Logger.logLevel c = Logger.ERROR ∧ Forall load_failure (Logger.printed c).

(** Every step but [cleanup]. *)
Definition keeps_pending (c : Call) : Prop :=
  match c with CCleanup => False | _ => True end.

(** The steps that can happen while the load on [p] is unresolved: anything
    but the settling of [p] and the emptying of [pendingLoads]. *)
Definition before_resolution (p : Promise) (c : Call) : Prop :=
  match c with
  | Settle q _ => q ≠ p
  | CCleanup => False
  | _ => True
  end.

End Loader.

(** ** Test doubles: a page, and the code around a store *)

Module TestPage.

Import Events.

(** A page with a clock, the listeners its targets hold, and a switch for
    browsers without [CustomEvent].  Only object references are event
    targets: a call on anything else throws a [TypeError]. *)
Record Document : Type := {
  clock : Z;
  listening : list (Target * string * Handler);
  has_CustomEvent : bool
}.

Definition is_target (t : Target) : bool :=
  match t with VRef _ => true | _ => false end.

Definition tick (d : Document) : Document :=
  {| clock := clock d + 1; listening := listening d; has_CustomEvent := has_CustomEvent d |}.

#[global] Instance page : Host := {|
  Dom := Document;
  new_CustomEvent type detail bubbles cancelable := λ d,
    if has_CustomEvent d
    then (Normal {| type := type; detail := detail; bubbles := bubbles;
                    cancelable := cancelable |}, d)
    else (Throw (VStr "ReferenceError: CustomEvent is not defined"), d);
  dispatchEvent target event := λ d,
    if is_target target then (Normal true, tick d)
    else (Throw (VStr "TypeError: target.dispatchEvent is not a function"), d);
  addEventListener target eventName handler := λ d,
    if is_target target
    then (Normal tt, {| clock := clock d;
                        listening := listening d ++ [(target, eventName, handler)];
                        has_CustomEvent := has_CustomEvent d |})
    else (Throw (VStr "TypeError: target.addEventListener is not a function"), d);
  removeEventListener target eventName handler := λ d,
    if is_target target then (Normal tt, d)
    else (Throw (VStr "TypeError: target.removeEventListener is not a function"), d);
  Date_now := clock;
  Date_toISOString := λ _, "1970-01-01T00:00:00.000Z"
|}.

Definition quiet : Logger.Console := {| Logger.logLevel := Logger.ERROR; Logger.printed := [] |}.

(** A bus just built, at time [1000]. *)
Definition fresh : State :=
  {| this := {| listeners := []; eventHistory := []; maxHistorySize := 100; allocated := 0 |};
     dom := {| clock := 1000; listening := []; has_CustomEvent := true |};
     console := quiet |}.

End TestPage.

Module TestApp.

Import Store.

(** The subscribers of the examples, by number:
    - [1] always throws;
    - [2] reads [state.b] and keeps what it saw in [state.seen];
    - [3] writes [state.count] back to zero;
    - [4] reads [state.__proto__] and keeps what it saw in [state.seen];
    - [5] reads [state.count] and keeps what it saw in [state.seen];
    - any other returns at once.
    The state object of the examples inherits from [Object.prototype], which
    has nothing called [b]: to read [state.b] is to look among its own
    properties, and to read [state.__proto__], without such a property, is
    to get its prototype. *)
Definition run_callback (cb : nat) (newValue oldValue : Value) (key : string)
  : M Memory unit :=
  match cb with
  | 1%nat => throw (VStr "boom")
  | 2%nat => modify (λ m, {| state := <["seen" := prop (state m) "b"]> (state m);
                             prototype := prototype m;
                             localStorage := localStorage m |})
  | 3%nat => modify (λ m, {| state := <["count" := VNum 0]> (state m);
                             prototype := prototype m;
                             localStorage := localStorage m |})
  | 4%nat => modify (λ m, {| state := <["seen" := default (prototype m) (state m !! "__proto__")]>
                                        (state m);
                             prototype := prototype m;
                             localStorage := localStorage m |})
  | 5%nat => modify (λ m, {| state := <["seen" := prop (state m) "count"]> (state m);
                             prototype := prototype m;
                             localStorage := localStorage m |})
  | _ => ret tt
  end.

(** What a read finds on [Object.prototype], the one object that the state
    object of the examples inherits from: its methods, numbered from [1],
    and nothing else. *)
Definition Object_prototype_members : list string :=
  ["constructor"; "toString"; "toLocaleString"; "valueOf"; "hasOwnProperty";
   "isPrototypeOf"; "propertyIsEnumerable"; "__defineGetter__"; "__defineSetter__";
   "__lookupGetter__"; "__lookupSetter__"].

Definition on_Object_prototype (object : Value) (key : string) : Value :=
  match list_find (λ name, name = key) Object_prototype_members with
  | Some (i, _) => VRef (S i)
  | None => VUndefined
  end.

(** [JSON.stringify] on the primitive values met in the examples; an object
    is taken to be cyclic, on which [JSON.stringify] throws. *)
Definition stringify (v : Value) : Completion string :=
  match v with
  | VUndefined => Normal "undefined"
  | VNull | VNaN => Normal "null"
  | VBool true => Normal "true"
  | VBool false => Normal "false"
  | VNum z => Normal (pretty z)
  | VStr s => Normal s
  | VRef _ => Throw (VStr "TypeError: Converting circular structure to JSON")
  end.

#[global] Instance app : Program := {|
  callback := run_callback;
  JSON_stringify := stringify;
  JSON_stringify_object := λ _, Normal "{}";
  JSON_parse := λ _, Throw (VStr "SyntaxError");
  inherited := on_Object_prototype;
  inherits_Object_prototype := λ _, true
|}.

(** The same code, with subscribers that leave the state object alone:
    [1] throws, the others return at once. *)
Definition bystanders : Program := {|
  callback := λ cb newValue oldValue key,
    match cb with 1%nat => throw (VStr "boom") | _ => ret tt end;
  JSON_stringify := stringify;
  JSON_stringify_object := λ _, Normal "{}";
  JSON_parse := λ _, Throw (VStr "SyntaxError");
  inherited := on_Object_prototype;
  inherits_Object_prototype := λ _, true
|}.

(** [JSON.parse] on the two booleans. *)
Definition parse_bool (str : string) : Completion Value :=
  if bool_decide (str = "true") then Normal (VBool true)
  else if bool_decide (str = "false") then Normal (VBool false)
  else Throw (VStr "SyntaxError").

(** The three saved fields of a page in French, in dark mode, with no
    cookie preferences yet. *)
Definition french_dark : list (string * Value) :=
  [("currentLanguage", VStr "fr"); ("darkMode", VBool true); ("cookiePreferences", VNull)].

(** A page on which [JSON] prints these three fields and reads them back,
    and whose subscribers return at once. *)
Definition archive : Program := {|
  callback := λ cb newValue oldValue key, ret tt;
  JSON_stringify := stringify;
  JSON_stringify_object := λ fields,
    if bool_decide (fields = french_dark) then Normal "fr,true,null" else Normal "{}";
  JSON_parse := λ str,
    if bool_decide (str = "fr,true,null") then Normal french_dark
    else Throw (VStr "SyntaxError");
  inherited := on_Object_prototype;
  inherits_Object_prototype := λ _, true
|}.

(** A middleware that refuses negative numbers. *)
Definition no_negative : Middleware :=
  λ key value oldValue,
    match value with
    | VNum z => if bool_decide (z < 0)%Z then Throw (VStr "negative") else Normal value
    | _ => Normal value
    end.

(** A middleware that adds a number to the number already stored. *)
Definition accumulate : Middleware :=
  λ key value oldValue,
    match value, oldValue with
    | VNum a, VNum b => Normal (VNum (a + b))
    | _, _ => Normal value
    end.

Definition quiet : Logger.Console := {| Logger.logLevel := Logger.ERROR; Logger.printed := [] |}.

Definition store (st : gmap string Value) (subs : gmap string (list nat))
  (ms : list Middleware) : State :=
  {| this := {| subscribers := subs; middleware := ms |};
     memory := {| state := st;
                  prototype := Object_prototype;
                  localStorage := {| Storage.items := ∅; Storage.quota := 1000 |} |};
     console := quiet;
     trace := [] |}.

End TestApp.

Module TestLoader.

Import Loader.

Definition quiet : Logger.Console := {| Logger.logLevel := Logger.ERROR; Logger.printed := [] |}.

(** A loader just built. *)
Definition fresh : State := initial quiet.

Definition network_error : Completion Value := Throw (VStr "TypeError: Failed to fetch").

(** Three loads of [blog] in a row, each failing. *)
Definition blog_failed_three_times : State :=
  run [CLoadModule "blog" always; Settle 0 network_error;
       CLoadModule "blog" always; Settle 1 network_error;
       CLoadModule "blog" always; Settle 2 network_error] fresh.

End TestLoader.

(* ===================================================================== *)
(** * Part II: properties                                                 *)
(* ===================================================================== *)

(** Unfold the monad down to pairs. *)
Ltac eff :=
  repeat (cbv beta delta [Eff.bind Eff.ret Eff.throw Eff.try_catch Eff.get Eff.gets
                          Eff.modify Eff.zoom] iota; cbn beta iota zeta).

(** ** The insertion-ordered map *)

Module JsMapFacts.

Lemma get_set_eq {V} (m : JsMap.t V) k v : JsMap.get (JsMap.set m k v) k = Some v.
Proof.
  unfold JsMap.get. induction m as [|[k' v'] m IH]; cbn.
  - by rewrite bool_decide_eq_true_2.
  - case_bool_decide as Hk; cbn.
    + by rewrite bool_decide_eq_true_2.
    + by rewrite bool_decide_eq_false_2.
Qed.

Lemma get_set_ne {V} (m : JsMap.t V) k k' v :
  k' ≠ k → JsMap.get (JsMap.set m k v) k' = JsMap.get m k'.
Proof.
  intros Hne. unfold JsMap.get. induction m as [|[k0 v0] m IH]; cbn.
  - by rewrite bool_decide_eq_false_2.
  - case_bool_decide as Hk; cbn.
    + subst k0. by rewrite !bool_decide_eq_false_2 by done.
    + by destruct (bool_decide (k0 = k')).
Qed.

Lemma set_set {V} (m : JsMap.t V) k v w :
  JsMap.set (JsMap.set m k v) k w = JsMap.set m k w.
Proof.
  induction m as [|[k' v'] m IH]; cbn.
  - by rewrite bool_decide_eq_true_2.
  - case_bool_decide as Hk; cbn.
    + by rewrite bool_decide_eq_true_2.
    + rewrite bool_decide_eq_false_2 by done. by rewrite IH.
Qed.

Lemma set_get_id {V} (m : JsMap.t V) k v :
  JsMap.get m k = Some v → JsMap.set m k v = m.
Proof.
  unfold JsMap.get. induction m as [|[k' v'] m IH]; cbn; [done|].
  case_bool_decide as Hk; cbn.
  - by intros [= ->]; subst.
  - intros Hget. by rewrite IH.
Qed.

Lemma set_get_None {V} (m : JsMap.t V) k v :
  JsMap.get m k = None → JsMap.set m k v = m ++ [(k, v)].
Proof.
  unfold JsMap.get. induction m as [|[k' v'] m IH]; cbn; [done|].
  case_bool_decide as Hk; cbn; [done|].
  intros Hget. by rewrite IH.
Qed.

Lemma get_delete_eq {V} (m : JsMap.t V) k : JsMap.get (JsMap.delete m k) k = None.
Proof.
  unfold JsMap.get, JsMap.delete, JsMap.t. induction m as [|[k' v'] m IH]; [done|].
  destruct (decide (k' = k)) as [->|Hk].
  - by rewrite filter_cons_False by (cbn; intros Hn; by apply Hn).
  - rewrite filter_cons_True by done. cbn. by rewrite bool_decide_eq_false_2.
Qed.

Lemma get_delete_ne {V} (m : JsMap.t V) k k' :
  k' ≠ k → JsMap.get (JsMap.delete m k) k' = JsMap.get m k'.
Proof.
  intros Hne. unfold JsMap.get, JsMap.delete, JsMap.t.
  induction m as [|[k0 v0] m IH]; [done|].
  destruct (decide (k0 = k)) as [->|Hk].
  - rewrite filter_cons_False by (cbn; intros Hn; by apply Hn).
    cbn. by rewrite bool_decide_eq_false_2 by done.
  - rewrite filter_cons_True by done. cbn. by destruct (bool_decide (k0 = k')).
Qed.

Lemma get_Some_keys {V} (m : JsMap.t V) k v :
  JsMap.get m k = Some v → k ∈ JsMap.keys m.
Proof.
  unfold JsMap.get, JsMap.keys. induction m as [|[k' v'] m IH]; cbn; [done|].
  case_bool_decide as Hk; cbn.
  - intros _. subst. left.
  - intros Hget. right. by apply IH.
Qed.

End JsMapFacts.

(** ** The event bus *)

Module EventsFacts.

Import Events.

Section WithHost.
Context `{Host}.

Lemma slice0_of_nat {A} (xs : list A) (n : nat) : slice0 xs (Z.of_nat n) = take n xs.
Proof.
  unfold slice0. destruct (Z.ltb_spec (Z.of_nat n) 0); [lia|].
  by rewrite Nat2Z.id.
Qed.

(** [addToHistory] never throws and leaves the new entry in front of what
    fits of the previous history. *)
Lemma addToHistory_run (eventName : string) (data : Value) (s : State) :
  addToHistory eventName data s =
  (Normal tt,
   set_this (set_eventHistory
     (take (maxHistorySize (this s))
           (entry_at eventName data (dom s) :: eventHistory (this s)))) s).
Proof.
  unfold addToHistory. eff. unfold set_this, set_eventHistory; cbn.
  case_bool_decide as Hlen; cbn.
  - by rewrite slice0_of_nat.
  - rewrite take_ge; [done|]. cbn in *. lia.
Qed.

(** The three ways through [emit]. *)
Lemma emit_run (eventName : string) (data : Value) (target : Target) (s : State) :
  emit eventName data target s =
  match new_CustomEvent eventName data true true (dom s) with
  | (Throw e, d1) =>
      (Normal None,
       {| this := this s; dom := d1;
          console := Logger.error ("Failed to emit event: " +:+ eventName) (console s) |})
  | (Normal event, d1) =>
      match dispatchEvent target event d1 with
      | (Throw e, d2) =>
          (Normal None,
           {| this := recorded eventName data d1 s; dom := d2;
              console := Logger.error ("Failed to emit event: " +:+ eventName) (console s) |})
      | (Normal _, d2) =>
          (Normal (Some event),
           {| this := recorded eventName data d1 s; dom := d2;
              console := Logger.debug ("Event emitted: " +:+ eventName) (console s) |})
      end
  end.
Proof.
  unfold emit, try_catch, bind at 1, host at 1, zoom.
  destruct (new_CustomEvent eventName data true true (dom s)) as [[event|e] d1]; [|done].
  unfold bind at 1. rewrite addToHistory_run. cbn.
  unfold bind at 1, host, zoom. cbn.
  destruct (dispatchEvent target event d1) as [[b|e] d2]; done.
Qed.

Lemma last_printed_error (msg : string) (c : Logger.Console) :
  last (Logger.printed (Logger.error msg c))
  = Some {| Logger.log_level := Logger.ERROR; Logger.log_message := msg |}.
Proof. unfold Logger.error, Logger.print; cbn. by rewrite last_snoc. Qed.

(** *** Operations that do not touch the history *)

Lemma keeps_ret {A} (a : A) : keeps_history (ret a).
Proof. by intros s. Qed.

Lemma keeps_bind {A B} (c : M State A) (k : A → M State B) :
  keeps_history c → (∀ a, keeps_history (k a)) → keeps_history (bind c k).
Proof.
  intros Hc Hk s. unfold bind. specialize (Hc s).
  destruct (c s) as [[a|e] s1]; cbn in *; [|done].
  destruct (Hk a s1) as [-> ->]. done.
Qed.

Lemma keeps_host {A} (c : M Dom A) : keeps_history (host c).
Proof. intros s. unfold host, zoom. by destruct (c (dom s)). Qed.

Lemma keeps_mainLogger f : keeps_history (mainLogger f).
Proof. by intros s. Qed.

Lemma keeps_gets {A} (f : State → A) : keeps_history (gets f).
Proof. by intros s. Qed.

Lemma keeps_for_each {A} (xs : list A) (body : A → M State unit) :
  (∀ x, keeps_history (body x)) → keeps_history (for_each xs body).
Proof.
  intros Hb. induction xs as [|x xs IH]; cbn.
  - apply keeps_ret.
  - apply keeps_bind; auto.
Qed.

Lemma keeps_set_listeners f : keeps_history (modify (set_this (set_listeners f))).
Proof. by intros s. Qed.

Create HintDb keeps.
#[local] Hint Resolve keeps_ret keeps_host keeps_mainLogger keeps_gets
  keeps_set_listeners : keeps.

Ltac keeps :=
  repeat first
    [ apply keeps_bind; [|intros ?]
    | apply keeps_for_each; intros ?
    | progress eauto with keeps
    | match goal with |- keeps_history (if ?b then _ else _) => destruct b end
    | match goal with |- keeps_history (match ?o with Some _ => _ | None => _ end) =>
        destruct o end ].

Lemma keeps_on n h t : keeps_history (on n h t).
Proof. unfold on. keeps. by intros s. Qed.

Lemma keeps_once n h t : keeps_history (once n h t).
Proof.
  unfold once. apply keeps_bind; [apply keeps_gets|intros em].
  apply keeps_bind; [by intros s|intros _; apply keeps_on].
Qed.

Lemma keeps_unsubscribe u : keeps_history (unsubscribe u).
Proof. unfold unsubscribe. keeps. Qed.

Lemma keeps_off n : keeps_history (off n).
Proof. unfold off. keeps. Qed.

Lemma keeps_getHistory l : keeps_history (getHistory l).
Proof. unfold getHistory. keeps. Qed.

Lemma keeps_getHistoryFor n l : keeps_history (getHistoryFor n l).
Proof. unfold getHistoryFor. keeps. Qed.

(** [clearHistory] empties the history. *)
Lemma clearHistory_run (s : State) :
  eventHistory (this (clearHistory s).2) = []
  ∧ maxHistorySize (this (clearHistory s).2) = maxHistorySize (this s).
Proof. done. Qed.

(** [destroy] empties the history, unless a target refuses to let go of a
    listener: then it throws before it gets there. *)
Lemma destroy_run (s : State) :
  (eventHistory (this (destroy s).2) = [] ∨
   eventHistory (this (destroy s).2) = eventHistory (this s))
  ∧ maxHistorySize (this (destroy s).2) = maxHistorySize (this s).
Proof.
  pose proof (keeps_for_each (JsMap.keys (listeners (this s))) off keeps_off s) as [Hh Hm].
  unfold destroy, bind, gets. cbn.
  destruct (for_each _ _ s) as [[[]|e] s1]; cbn in *.
  - by split; [left|].
  - by split; [right|].
Qed.

(** What [emit] does to the history. *)
Lemma emit_history n d t (s : State) :
  (eventHistory (this (emit n d t s).2) = eventHistory (this s) ∨
   ∃ d1, eventHistory (this (emit n d t s).2)
         = take (maxHistorySize (this s)) (entry_at n d d1 :: eventHistory (this s)))
  ∧ maxHistorySize (this (emit n d t s).2) = maxHistorySize (this s).
Proof.
  rewrite emit_run.
  destruct (new_CustomEvent _ _ _ _ _) as [[event|e] d1]; [|by split; [left|]].
  destruct (dispatchEvent _ _ _) as [[b|e] d2]; (split; [right; by exists d1|done]).
Qed.

(** One call, seen from the history: nothing, a reset, or one more entry in
    front with the rest cut to what fits. *)
Lemma exec_history (c : Call) (s : State) :
  let h := eventHistory (this s) in
  let h' := eventHistory (this (exec c s)) in
  (h' = h ∨ h' = [] ∨
   ∃ eventName data d, h' = take (maxHistorySize (this s)) (entry_at eventName data d :: h))
  ∧ maxHistorySize (this (exec c s)) = maxHistorySize (this s).
Proof.
  destruct c as [n d t|n h0 t|n h0 t|u|n|l|n l|n d| | |ns n d t|ns n h0 t|ns n h0 t|ns n|f];
    cbn -[emit on once unsubscribe off getHistory getHistoryFor
          addToHistory clearHistory destroy]; unfold forget.
  - destruct (emit_history n d t s) as [[->|[d1 ->]] ->];
      (split; [|done]); [by left|right; right; eauto].
  - destruct (keeps_on n h0 t s) as [-> ->]. by split; [left|].
  - destruct (keeps_once n h0 t s) as [-> ->]. by split; [left|].
  - destruct (keeps_unsubscribe u s) as [-> ->]. by split; [left|].
  - destruct (keeps_off n s) as [-> ->]. by split; [left|].
  - destruct (keeps_getHistory l s) as [-> ->]. by split; [left|].
  - destruct (keeps_getHistoryFor n l s) as [-> ->]. by split; [left|].
  - rewrite addToHistory_run. cbn. split; [|done]. right; right; eauto.
  - destruct (clearHistory_run s) as [-> ->]. by split; [right; left|].
  - destruct (destroy_run s) as [[->| ->] ->]; (split; [|done]); [right|]; by left.
  - cbn [createChannel channel_emit].
    destruct (emit_history (channel_name ns n) d t s)
      as [[->|[d1 ->]] ->]; (split; [|done]); [by left|right; right; eauto].
  - cbn [createChannel channel_on].
    destruct (keeps_on (channel_name ns n) h0 t s) as [-> ->]. by split; [left|].
  - cbn [createChannel channel_once].
    destruct (keeps_once (channel_name ns n) h0 t s) as [-> ->]. by split; [left|].
  - cbn [createChannel channel_off].
    destruct (keeps_off (channel_name ns n) s) as [-> ->]. by split; [left|].
  - by split; [left|].
Qed.

Lemma exec_history_ok (c : Call) (s : State) : history_ok s → history_ok (exec c s).
Proof.
  intros [Hmax Hlen]. destruct (exec_history c s) as [Hh Hm]. cbn zeta in Hh.
  split; [congruence|].
  destruct Hh as [->|[->|(n & d & d1 & ->)]]; [done|cbn; lia|].
  rewrite length_take. lia.
Qed.

Lemma run_history_ok (cs : list Call) (s : State) : history_ok s → history_ok (run cs s).
Proof.
  revert s. induction cs as [|c cs IH]; intros s Hs; [done|].
  cbn. apply IH. by apply exec_history_ok.
Qed.

(** Cutting [entry :: h] to a hundred drops nothing while [h] has fewer than
    a hundred entries, and drops exactly the last entry of [h] otherwise. *)
Lemma take_100_cons {A} (x : A) (h : list A) :
  (length h <= 100)%nat →
  take 100 (x :: h) = x :: (if bool_decide (length h < 100)%nat then h else removelast h).
Proof.
  intros Hlen. cbn. f_equal. case_bool_decide.
  - apply take_ge. lia.
  - assert (length h = 100%nat) as Hl by lia.
    destruct (decide (h = [])) as [->|Hne]; [done|].
    destruct (exists_last Hne) as (h0 & y & ->).
    rewrite removelast_last. rewrite length_app in Hl. cbn in Hl.
    rewrite take_app_le; [|lia]. apply take_ge. lia.
Qed.

(** The constructor leaves a history that is in order. *)
Lemma constructor_history_ok (s : State) : history_ok (constructor s).2.
Proof. split; cbn; [done|lia]. Qed.

(** ** C9 *)

(** C9. Whatever the event name, the data, the target and the page, [emit]
    ends normally: it never throws.  When building the event throws, or when
    dispatching it throws, the error is caught: [emit] returns [null] and
    the last line on the console is the error line of its [catch] block. *)
Theorem emit_catches_and_returns_null
  (eventName : string) (data : Value) (target : Target) (s : State) :
  is_throw (emit eventName data target s).1 = false ∧
  (∀ e d1, new_CustomEvent eventName data true true (dom s) = (Throw e, d1) →
     ∃ s', emit eventName data target s = (Normal None, s') ∧
           last (Logger.printed (console s')) = Some (failed_line eventName)) ∧
  (∀ event d1 e d2,
     new_CustomEvent eventName data true true (dom s) = (Normal event, d1) →
     dispatchEvent target event d1 = (Throw e, d2) →
     ∃ s', emit eventName data target s = (Normal None, s') ∧
           last (Logger.printed (console s')) = Some (failed_line eventName)).
Proof.
  rewrite emit_run. split; [|split].
  - destruct (new_CustomEvent _ _ _ _ _) as [[event|e] d1]; [|done].
    by destruct (dispatchEvent _ _ _) as [[b|e] d2].
  - intros e d1 ->. eexists; split; [done|]. apply last_printed_error.
  - intros event d1 e d2 -> ->. eexists; split; [done|]. apply last_printed_error.
Qed.

(** ** C6 *)

Lemma take_app_take {A} (n : nat) (l m : list A) :
  take n (l ++ take n m) = take n (l ++ m).
Proof.
  rewrite !take_app. f_equal. rewrite take_take. f_equal. lia.
Qed.

Lemma exec_addToHistory_dom n d (s : State) : dom (exec (CAddToHistory n d) s) = dom s.
Proof. cbn -[addToHistory]. unfold forget. by rewrite addToHistory_run. Qed.

Lemma run_cons (c : Call) (cs : list Call) (s : State) : run (c :: cs) s = run cs (exec c s).
Proof. done. Qed.

(** After a series of recordings the history is the most recent ones, the
    latest first, cut to the capacity. *)
Lemma run_recordings (es : list (string * Value)) (s : State) :
  (length (eventHistory (this s)) <= maxHistorySize (this s))%nat →
  eventHistory (this (run ((λ e, CAddToHistory e.1 e.2) <$> es) s))
  = take (maxHistorySize (this s))
      (reverse ((λ e, entry_at e.1 e.2 (dom s)) <$> es) ++ eventHistory (this s))
  ∧ maxHistorySize (this (run ((λ e, CAddToHistory e.1 e.2) <$> es) s))
    = maxHistorySize (this s).
Proof.
  revert s. induction es as [|[n d] es IH]; intros s Hlen.
  - cbn. split; [|done]. by rewrite take_ge.
  - rewrite !fmap_cons, run_cons. cbn [fst snd].
    assert (exec (CAddToHistory n d) s
            = set_this (set_eventHistory
                (take (maxHistorySize (this s))
                   (entry_at n d (dom s) :: eventHistory (this s)))) s) as ->.
    { cbn -[addToHistory]. unfold forget. by rewrite addToHistory_run. }
    destruct (IH (set_this (set_eventHistory
                (take (maxHistorySize (this s))
                   (entry_at n d (dom s) :: eventHistory (this s)))) s)) as [-> ->].
    { cbn. rewrite length_take. lia. }
    cbn [this set_this set_eventHistory eventHistory maxHistorySize dom].
    split; [|done].
    rewrite reverse_cons, <- app_assoc. cbn [app].
    apply take_app_take.
Qed.

(** C6. Starting from a bus whose history holds at most a hundred entries
    (as the constructor leaves it), after any series of calls: the history
    still holds at most a hundred; the next call leaves it as it is, empties
    it, or puts one new entry in front of it, and in that case everything
    older keeps its order and the only entry that can go is the last, the
    oldest, which goes exactly when the history was full; a series of
    recordings leaves the most recent hundred, the latest first. *)
Theorem history_bounded_most_recent_first
  (cs : list Call) (c : Call) (es : list (string * Value)) (s0 : State) :
  history_ok s0 →
  let s := run cs s0 in
  let h := eventHistory (this s) in
  let h' := eventHistory (this (exec c s)) in
  (length h <= 100)%nat ∧ (length h' <= 100)%nat ∧
  (h' = h ∨ h' = [] ∨
   ∃ eventName data d,
     h' = entry_at eventName data d
          :: (if bool_decide (length h < 100)%nat then h else removelast h)) ∧
  eventHistory (this (run ((λ e, CAddToHistory e.1 e.2) <$> es) s))
  = take 100 (reverse ((λ e, entry_at e.1 e.2 (dom s)) <$> es) ++ h).
Proof.
  intros H0 s h h'.
  pose proof (run_history_ok cs s0 H0) as [Hmax Hlen]. fold s in Hmax, Hlen. fold h in Hlen.
  pose proof (exec_history_ok c s (conj Hmax Hlen)) as [_ Hlen'].
  split; [done|]. split; [done|]. split.
  - destruct (exec_history c s) as [Hh _]. cbn zeta in Hh. fold h h' in Hh.
    destruct Hh as [->|[->|(n & d & d1 & Hh)]]; [by left|by right; left|].
    right; right. exists n, d, d1. rewrite Hh, Hmax. by apply take_100_cons.
  - destruct (run_recordings es s) as [-> _]; [fold h; lia|]. by rewrite Hmax.
Qed.

(** ** C10 *)

Lemma slice0_cons {A} (x : A) (xs : list A) (limit : Z) :
  (1 <= limit)%Z → ∃ rest, slice0 (x :: xs) limit = x :: rest.
Proof.
  intros Hl. unfold slice0. destruct (Z.ltb_spec limit 0); [lia|].
  destruct (Z.to_nat limit) as [|k] eqn:Hk; [lia|]. cbn. eauto.
Qed.

(** C10. [emit] records the event before it dispatches it.  When the event
    can be built but dispatching it throws, [emit] returns [null] and the
    record of the event is nevertheless at the head of the history left
    behind, where [getHistory] and [getHistoryFor] (asked for at least one
    entry) return it first. *)
Theorem emit_records_even_if_dispatch_throws
  (eventName : string) (data : Value) (target : Target) (s : State)
  (event : CustomEvent) (d1 d2 : Dom) (e : Value) :
  maxHistorySize (this s) = 100%nat →
  new_CustomEvent eventName data true true (dom s) = (Normal event, d1) →
  dispatchEvent target event d1 = (Throw e, d2) →
  let entry := entry_at eventName data d1 in
  ∃ s', emit eventName data target s = (Normal None, s') ∧
        eventHistory (this s') = entry :: take 99 (eventHistory (this s)) ∧
        (∀ limit, (1 <= limit)%Z →
           ∃ rest, getHistory limit s' = (Normal (entry :: rest), s')) ∧
        (∀ limit, (1 <= limit)%Z →
           ∃ rest, getHistoryFor eventName limit s' = (Normal (entry :: rest), s')).
Proof.
  intros Hmax Hnew Hdisp entry. rewrite emit_run, Hnew, Hdisp.
  eexists. split; [done|]. unfold recorded. cbn. rewrite Hmax. cbn [take].
  split; [done|]. subst entry. split; intros limit Hl.
  - unfold getHistory. eff.
    destruct (slice0_cons (entry_at eventName data d1)
                (take 99 (eventHistory (this s))) limit Hl) as [rest ->].
    eauto.
  - unfold getHistoryFor. eff.
    rewrite filter_cons_True by done.
    destruct (slice0_cons (entry_at eventName data d1)
      (filter (λ en, name en = eventName) (take 99 (eventHistory (this s)))) limit Hl)
      as [rest ->].
    eauto.
Qed.

(** *** The registry of listeners *)

(** X13. [emit] touches nothing of the bus but the history, and not even
    the history when [new CustomEvent] throws (the entry is added after the
    event is built); when the event is built and dispatched, the event
    built is what [emit] returns. *)
Theorem emit_touches_only_the_history
  (eventName : string) (data : Value) (target : Target) (s : State) :
  listeners (this (emit eventName data target s).2) = listeners (this s)
  ∧ allocated (this (emit eventName data target s).2) = allocated (this s)
  ∧ maxHistorySize (this (emit eventName data target s).2) = maxHistorySize (this s)
  ∧ (is_throw (new_CustomEvent eventName data true true (dom s)).1 = true →
     this (emit eventName data target s).2 = this s)
  ∧ (∀ event d1 b d2,
       new_CustomEvent eventName data true true (dom s) = (Normal event, d1) →
       dispatchEvent target event d1 = (Normal b, d2) →
       (emit eventName data target s).1 = Normal (Some event)).
Proof.
  rewrite emit_run.
  destruct (new_CustomEvent eventName data true true (dom s)) as [[event|e] d1]; cbn.
  - split_and!.
    + by destruct (dispatchEvent target event d1) as [[b|e] d2].
    + by destruct (dispatchEvent target event d1) as [[b|e] d2].
    + by destruct (dispatchEvent target event d1) as [[b|e] d2].
    + done.
    + intros event' d1' b d2 [= <- <-] ->. done.
  - by split_and!.
Qed.

Lemma set_add_fresh (ld : ListenerData) (set : list ListenerData) :
  (∀ x, x ∈ set → (ld_id x < ld_id ld)%nat) → set_add ld set = set ++ [ld].
Proof.
  intros Hfresh. unfold set_add. rewrite bool_decide_eq_false_2; [done|].
  intros Hin. apply list_elem_of_fmap in Hin as (x & Hid & Hx).
  specialize (Hfresh x Hx). lia.
Qed.

Lemma set_delete_fresh (ld : ListenerData) (set : list ListenerData) :
  (∀ x, x ∈ set → (ld_id x < ld_id ld)%nat) → set_delete ld (set ++ [ld]) = set.
Proof.
  intros Hfresh. unfold set_delete. rewrite filter_app.
  rewrite filter_cons_False by (intros Hn; by apply Hn). rewrite filter_nil, app_nil_r.
  induction set as [|x set IH]; [done|].
  rewrite filter_cons_True.
  - f_equal. apply IH. intros y Hy. apply Hfresh. by right.
  - pose proof (Hfresh x ltac:(left)). lia.
Qed.

(** What [on] leaves behind, whether [addEventListener] throws or not. *)
Lemma on_run n h t (s : State) :
  let ld := listenerData_at h t s in
  this (on n h t s).2
  = {| listeners := JsMap.set (listeners (this s)) n
                      (set_add ld (default [] (JsMap.get (listeners (this s)) n)));
       eventHistory := eventHistory (this s);
       maxHistorySize := maxHistorySize (this s);
       allocated := S (allocated (this s)) |}
  ∧ dom (on n h t s).2 = (addEventListener t n h (dom s)).2
  ∧ (on n h t s).1
    = match (addEventListener t n h (dom s)).1 with
      | Normal _ => Normal {| u_eventName := n; u_listenerData := ld |}
      | Throw e => Throw e
      end.
Proof.
  intros ld. subst ld. unfold on, listenerData_at, host, mainLogger, JsMap.has. eff.
  destruct (JsMap.get (listeners (this s)) n) as [set|] eqn:Hget; cbn.
  - rewrite Hget. cbn. by destruct (addEventListener t n h (dom s)) as [[[]|e] d].
  - repeat match goal with |- context [snd <$> find ?f ?m] =>
      change (snd <$> find f m) with (JsMap.get m n) end.
    rewrite JsMapFacts.get_set_eq, JsMapFacts.set_set. cbn.
    by destruct (addEventListener t n h (dom s)) as [[[]|e] d].
Qed.

(** X14. Each call of [on] registers one more listener under the name,
    after those already there, even for a handler and target registered
    before (the object put in the [Set] is new each time), and changes no
    other name; the registration is made before the page is asked, so it
    stays when [addEventListener] throws, and the error reaches the
    caller. *)
Theorem on_registers_one_more
  (eventName : string) (handler : Handler) (target : Target) (s : State) :
  ids_fresh (this s) →
  let s' := (on eventName handler target s).2 in
  JsMap.get (listeners (this s')) eventName
  = Some (default [] (JsMap.get (listeners (this s)) eventName)
          ++ [listenerData_at handler target s])
  ∧ (∀ n', n' ≠ eventName →
       JsMap.get (listeners (this s')) n' = JsMap.get (listeners (this s)) n')
  ∧ ids_fresh (this s')
  ∧ (∀ e, (addEventListener target eventName handler (dom s)).1 = Throw e →
       (on eventName handler target s).1 = Throw e).
Proof.
  intros Hfresh s'. subst s'.
  destruct (on_run eventName handler target s) as (Hthis & _ & Hret).
  assert (set_add (listenerData_at handler target s)
            (default [] (JsMap.get (listeners (this s)) eventName))
          = default [] (JsMap.get (listeners (this s)) eventName)
            ++ [listenerData_at handler target s]) as Hadd.
  { apply set_add_fresh. intros x Hx. cbn.
    destruct (JsMap.get (listeners (this s)) eventName) as [set|] eqn:Hget; cbn in Hx.
    - by apply (Hfresh eventName set).
    - by apply elem_of_nil in Hx. }
  rewrite Hadd in Hthis. rewrite Hthis. cbn [listeners allocated]. split_and!.
  - apply JsMapFacts.get_set_eq.
  - intros n' Hne. by apply JsMapFacts.get_set_ne.
  - intros n' set ld Hget Hld. cbn [listeners allocated] in *.
    destruct (decide (n' = eventName)) as [->|Hne].
    + rewrite JsMapFacts.get_set_eq in Hget. injection Hget as <-.
      apply elem_of_app in Hld as [Hld|Hld].
      * destruct (JsMap.get (listeners (this s)) eventName) as [set|] eqn:Hold;
          cbn in Hld; [|by apply elem_of_nil in Hld].
        pose proof (Hfresh eventName set ld Hold Hld). lia.
      * apply list_elem_of_singleton in Hld as ->. cbn. lia.
    + rewrite JsMapFacts.get_set_ne in Hget by done.
      pose proof (Hfresh n' set ld Hget Hld). lia.
  - intros e He. by rewrite Hret, He.
Qed.

(** X15. The function [on] returns undoes the registration: called right
    after, it leaves under the name the listeners that were there before,
    and every other name as it was.  The name itself stays in the [Map],
    with an empty [Set] if [on] created it.  The page is asked first: when
    [removeEventListener] throws, the registry keeps the listener. *)
Theorem unsubscribe_undoes_on
  (eventName : string) (handler : Handler) (target : Target) (s s1 : State)
  (u : Unsubscribe) :
  ids_fresh (this s) →
  on eventName handler target s = (Normal u, s1) →
  (is_throw (removeEventListener target eventName handler (dom s1)).1 = false →
   ∃ s2, unsubscribe u s1 = (Normal tt, s2)
         ∧ listeners (this s2)
           = JsMap.set (listeners (this s)) eventName
               (default [] (JsMap.get (listeners (this s)) eventName))
         ∧ JsMap.has (listeners (this s2)) eventName = true)
  ∧ (is_throw (removeEventListener target eventName handler (dom s1)).1 = true →
     is_throw (unsubscribe u s1).1 = true
     ∧ listeners (this (unsubscribe u s1).2) = listeners (this s1)).
Proof.
  intros Hfresh Hon.
  destruct (on_run eventName handler target s) as (Hthis & _ & Hret).
  rewrite Hon in Hthis, Hret. cbn [fst snd] in Hthis, Hret.
  assert (u = {| u_eventName := eventName;
                 u_listenerData := listenerData_at handler target s |}) as ->.
  { destruct (addEventListener target eventName handler (dom s)) as [[[]|e] d];
      cbn in Hret; congruence. }
  assert (∀ x, x ∈ default [] (JsMap.get (listeners (this s)) eventName) →
               (ld_id x < ld_id (listenerData_at handler target s))%nat) as Hold.
  { intros x Hx. cbn.
    destruct (JsMap.get (listeners (this s)) eventName) as [set|] eqn:Hget; cbn in Hx.
    - by apply (Hfresh eventName set).
    - by apply elem_of_nil in Hx. }
  rewrite (set_add_fresh _ _ Hold) in Hthis.
  unfold unsubscribe, host, mainLogger. eff. cbn.
  destruct (removeEventListener target eventName handler (dom s1)) as [[[]|e] d]; cbn.
  - split; [|done]. intros _. eexists. split; [done|].
    unfold set_this, set_listeners. cbn [this listeners]. rewrite Hthis. cbn [listeners].
    rewrite JsMapFacts.get_set_eq, JsMapFacts.set_set, (set_delete_fresh _ _ Hold).
    split; [done|]. unfold JsMap.has. rewrite JsMapFacts.get_set_eq.
    by apply bool_decide_eq_true_2.
  - by split.
Qed.

Lemma delete_get_None {V} (m : JsMap.t V) k :
  JsMap.get m k = None → JsMap.delete m k = m.
Proof.
  unfold JsMap.get, JsMap.delete, JsMap.t. induction m as [|[k' v'] m IH]; [done|].
  cbn [find fst]. case_bool_decide as Hk; [done|]. intros Hget.
  rewrite filter_cons_True by done. by rewrite IH.
Qed.

(** The page asked to let go of each listener of a [Set] in turn. *)
Lemma release_all n (set : list ListenerData) (s : State) :
  this (for_each set (λ ld, host (removeEventListener (target ld) n (handler ld))) s).2
  = this s
  ∧ console (for_each set (λ ld, host (removeEventListener (target ld) n (handler ld))) s).2
    = console s
  ∧ ((∀ ld d, ld ∈ set →
        is_throw (removeEventListener (target ld) n (handler ld) d).1 = false) →
     (for_each set (λ ld, host (removeEventListener (target ld) n (handler ld))) s).1
     = Normal tt).
Proof.
  revert s. induction set as [|ld set IH]; intros s; [done|].
  cbn [for_each]. unfold bind at 1 2 3, host at 1 3 5, zoom.
  destruct (removeEventListener (target ld) n (handler ld) (dom s)) as [[[]|e] d] eqn:Hd.
  - match goal with |- context [for_each set _ ?s0] =>
      destruct (IH s0) as (Ht & Hc & Hn) end.
    split_and!; [done..|]. intros Hrel. apply Hn. intros ld' d' Hin. apply Hrel. by right.
  - split_and!; [done..|]. intros Hrel.
    specialize (Hrel ld (dom s) ltac:(left)). by rewrite Hd in Hrel.
Qed.

(** [off] on the registry, when it returns and when it throws. *)
Lemma off_cases (eventName : string) (s : State) :
  match (off eventName s).1 with
  | Normal _ =>
      listeners (this (off eventName s).2) = JsMap.delete (listeners (this s)) eventName
  | Throw _ =>
      listeners (this (off eventName s).2) = listeners (this s)
      ∧ is_Some (JsMap.get (listeners (this s)) eventName)
  end
  ∧ allocated (this (off eventName s).2) = allocated (this s)
  ∧ (releases eventName (this s) → (off eventName s).1 = Normal tt).
Proof.
  pose proof (λ set, release_all eventName set s) as Hall.
  assert (∀ set, releases eventName (this s) →
            JsMap.get (listeners (this s)) eventName = Some set →
            ∀ ld d, ld ∈ set →
              is_throw (removeEventListener (target ld) eventName (handler ld) d).1
              = false) as Hsets by (intros set Hrel Hget ld d Hin; by apply (Hrel set)).
  unfold off, bind, gets, modify, mainLogger.
  destruct (JsMap.get (listeners (this s)) eventName) as [set|] eqn:Hget.
  - destruct (Hall set) as (Ht & _ & Hn). specialize (Hsets set).
    destruct (for_each set _ s) as [[[]|e] s1]; cbn in *.
    + split_and!; [by rewrite Ht|by rewrite Ht|done].
    + split; [by rewrite Ht|]. split; [by rewrite Ht|].
      intros Hrel. apply Hn. by apply Hsets.
  - split_and!; [|done..]. cbn. by rewrite delete_get_None.
Qed.

(** X16. [off] is all or nothing on the registry: when it returns, the name
    is gone from the [Map] and every other name is as it was; when a target
    throws on [removeEventListener], [off] throws, and the registry is as
    it was, the name included (though the listeners before the one that
    threw are off their targets already).  It returns when the targets let
    go of every listener of the name, and on a name that is not registered
    it does nothing at all. *)
Theorem off_all_or_nothing (eventName : string) (s : State) :
  match (off eventName s).1 with
  | Normal _ =>
      JsMap.get (listeners (this (off eventName s).2)) eventName = None
      ∧ ∀ n', n' ≠ eventName →
          JsMap.get (listeners (this (off eventName s).2)) n'
          = JsMap.get (listeners (this s)) n'
  | Throw _ =>
      listeners (this (off eventName s).2) = listeners (this s)
      ∧ is_Some (JsMap.get (listeners (this s)) eventName)
  end
  ∧ (releases eventName (this s) → (off eventName s).1 = Normal tt)
  ∧ (JsMap.get (listeners (this s)) eventName = None → off eventName s = (Normal tt, s)).
Proof.
  destruct (off_cases eventName s) as (Hoff & _ & Hret). split_and!.
  - destruct ((off eventName s).1) as [[]|e]; [|done]. rewrite Hoff. split.
    + apply JsMapFacts.get_delete_eq.
    + intros n' Hne. by apply JsMapFacts.get_delete_ne.
  - done.
  - intros Hget. unfold off, bind, gets. by rewrite Hget.
Qed.

Lemma releases_off n n' (s : State) :
  releases n' (this s) → releases n' (this (off n s).2).
Proof.
  intros Hrel set ld d Hget Hld.
  destruct (off_cases n s) as (Hoff & _).
  destruct ((off n s).1) as [[]|e].
  - rewrite Hoff in Hget. destruct (decide (n' = n)) as [->|Hne].
    + by rewrite JsMapFacts.get_delete_eq in Hget.
    + rewrite JsMapFacts.get_delete_ne in Hget by done. by apply (Hrel set).
  - destruct Hoff as [Hoff _]. rewrite Hoff in Hget. by apply (Hrel set).
Qed.

Lemma off_each_returns (ks : list string) (s : State) :
  (∀ n, releases n (this s)) → (for_each ks off s).1 = Normal tt.
Proof.
  revert s. induction ks as [|k ks IH]; intros s Hrel; [done|].
  cbn [for_each]. unfold bind.
  destruct (off_cases k s) as (_ & _ & Hret). specialize (Hret (Hrel k)).
  pose proof (λ n, releases_off k n s (Hrel n)) as Hrel'.
  destruct (off k s) as [[[]|e] s1]; cbn in *; [|done].
  by apply IH.
Qed.

Lemma off_each_throws (ks : list string) (s : State) :
  is_throw (for_each ks off s).1 = true →
  ∃ n, is_Some (JsMap.get (listeners (this (for_each ks off s).2)) n).
Proof.
  revert s. induction ks as [|k ks IH]; intros s; [done|].
  cbn [for_each]. unfold bind.
  destruct (off_cases k s) as (Hoff & _).
  destruct (off k s) as [[[]|e] s1]; cbn in *.
  - apply IH.
  - intros _. destruct Hoff as [-> Hsome]. by exists k.
Qed.

(** X17. [destroy] returns with no listener and no history left, and the
    capacity of the history as it was, when the targets let go of every
    registered listener.  When one of them throws, [destroy] throws: the
    history is then as it was, and the registry is not empty. *)
Theorem destroy_clears_or_throws (s : State) :
  ((∀ n, releases n (this s)) →
   ∃ s', destroy s = (Normal tt, s')
         ∧ listeners (this s') = []
         ∧ eventHistory (this s') = []
         ∧ maxHistorySize (this s') = maxHistorySize (this s))
  ∧ (is_throw (destroy s).1 = true →
     eventHistory (this (destroy s).2) = eventHistory (this s)
     ∧ ∃ n, is_Some (JsMap.get (listeners (this (destroy s).2)) n)).
Proof.
  pose proof (keeps_for_each (JsMap.keys (listeners (this s))) off keeps_off s) as [Hh Hm].
  pose proof (off_each_returns (JsMap.keys (listeners (this s))) s) as Hret.
  pose proof (off_each_throws (JsMap.keys (listeners (this s))) s) as Hthrow.
  unfold destroy, bind, gets. cbn.
  destruct (for_each _ _ s) as [[[]|e] s1]; cbn in *.
  - split; [|done]. intros _. eexists. by split_and!.
  - split.
    + intros Hrel. by specialize (Hret Hrel).
    + intros _. split; [done|]. by apply Hthrow.
Qed.

(** *** Every reachable bus has fresh identities *)

Lemma on_ids_fresh n h t (s : State) :
  ids_fresh (this s) → ids_fresh (this (on n h t s).2).
Proof.
  intros Hfresh. destruct (on_run n h t s) as (-> & _).
  intros n' set ld Hget Hld. cbn [listeners allocated] in *.
  destruct (decide (n' = n)) as [->|Hne].
  - rewrite JsMapFacts.get_set_eq in Hget. injection Hget as <-.
    unfold set_add in Hld.
    assert (ld ∈ default [] (JsMap.get (listeners (this s)) n)
            ∨ ld = listenerData_at h t s) as [Hold| ->].
    { case_bool_decide; [by left|].
      apply elem_of_app in Hld as [Hld|Hld]; [by left|].
      right. by apply list_elem_of_singleton in Hld. }
    + destruct (JsMap.get (listeners (this s)) n) as [set|] eqn:Hget;
        cbn in Hold; [|by apply elem_of_nil in Hold].
      pose proof (Hfresh n set ld Hget Hold). lia.
    + cbn. lia.
  - rewrite JsMapFacts.get_set_ne in Hget by done.
    pose proof (Hfresh n' set ld Hget Hld). lia.
Qed.

Lemma once_ids_fresh n h t (s : State) :
  ids_fresh (this s) → ids_fresh (this (once n h t s).2).
Proof.
  intros Hfresh. unfold once, bind at 1 2, gets, modify.
  apply on_ids_fresh. intros n' set ld Hget Hld. cbn in *.
  pose proof (Hfresh n' set ld Hget Hld). lia.
Qed.

Lemma unsubscribe_ids_fresh u (s : State) :
  ids_fresh (this s) → ids_fresh (this (unsubscribe u s).2).
Proof.
  intros Hfresh. unfold unsubscribe, host, mainLogger. eff. cbn.
  destruct (removeEventListener _ _ _ (dom s)) as [[[]|e] d]; cbn; [|done].
  unfold set_listeners. intros n' set ld. cbn [listeners allocated].
  destruct (JsMap.get (listeners (this s)) (u_eventName u)) as [old|] eqn:Hold;
    [|by apply Hfresh].
  destruct (decide (n' = u_eventName u)) as [->|Hne].
  - rewrite JsMapFacts.get_set_eq. intros [= <-] Hld.
    apply list_elem_of_filter in Hld as [_ Hld]. by apply (Hfresh (u_eventName u) old).
  - rewrite JsMapFacts.get_set_ne by done. apply Hfresh.
Qed.

Lemma off_ids_fresh n (s : State) :
  ids_fresh (this s) → ids_fresh (this (off n s).2).
Proof.
  intros Hfresh. destruct (off_cases n s) as (Hoff & Halloc & _).
  intros n' set ld. rewrite Halloc.
  destruct ((off n s).1) as [[]|e].
  - rewrite Hoff. destruct (decide (n' = n)) as [->|Hne].
    + by rewrite JsMapFacts.get_delete_eq.
    + rewrite JsMapFacts.get_delete_ne by done. apply Hfresh.
  - destruct Hoff as [-> _]. apply Hfresh.
Qed.

Lemma off_each_ids_fresh (ks : list string) (s : State) :
  ids_fresh (this s) → ids_fresh (this (for_each ks off s).2).
Proof.
  revert s. induction ks as [|k ks IH]; intros s Hfresh; [done|].
  cbn [for_each]. unfold bind.
  pose proof (off_ids_fresh k s Hfresh) as Hk.
  destruct (off k s) as [[[]|e] s1]; cbn in *; [by apply IH|done].
Qed.

Lemma destroy_ids_fresh (s : State) :
  ids_fresh (this s) → ids_fresh (this (destroy s).2).
Proof.
  intros Hfresh.
  pose proof (off_each_ids_fresh (JsMap.keys (listeners (this s))) s Hfresh) as Hoff.
  unfold destroy, bind, gets. cbn.
  destruct (for_each _ _ s) as [[[]|e] s1]; cbn in *; [|done].
  by intros n set ld.
Qed.

Lemma emit_ids_fresh n d t (s : State) :
  ids_fresh (this s) → ids_fresh (this (emit n d t s).2).
Proof.
  intros Hfresh. rewrite emit_run.
  destruct (new_CustomEvent n d true true (dom s)) as [[event|e] d1]; [|done].
  by destruct (dispatchEvent t event d1) as [[b|e] d2].
Qed.

Lemma exec_ids_fresh (c : Call) (s : State) :
  ids_fresh (this s) → ids_fresh (this (exec c s)).
Proof.
  intros Hfresh. destruct c; cbn [exec]; unfold forget; cbn [createChannel channel_emit
    channel_on channel_once channel_off];
    auto using emit_ids_fresh, on_ids_fresh, once_ids_fresh, unsubscribe_ids_fresh,
      off_ids_fresh, destroy_ids_fresh.
  by rewrite addToHistory_run.
Qed.

(** From the constructor on, every object in the registry is older than
    the next one to be built. *)
Lemma run_ids_fresh (cs : list Call) (s : State) :
  ids_fresh (this (run cs (constructor s).2)).
Proof.
  assert (ids_fresh (this (constructor s).2)) as Hfresh by (by intros n set ld).
  revert Hfresh. generalize ((constructor s).2). unfold run.
  induction cs as [|c cs IH]; intros s0 Hfresh; [done|].
  cbn [foldl]. by apply IH, exec_ids_fresh.
Qed.

End WithHost.

(** *** On a page where [null] is passed as the target *)

Lemma emit_catches_witness :
  let s := TestPage.fresh in
  is_throw (emit "ui:open" (VNum 1) VNull s).1 = false ∧
  ∃ s', emit "ui:open" (VNum 1) VNull s = (Normal None, s') ∧
        last (Logger.printed (console s')) = Some (failed_line "ui:open").
Proof.
  intros s.
  destruct (emit_catches_and_returns_null "ui:open" (VNum 1) VNull s) as (Hn & _ & Hd).
  split; [exact Hn|].
  eapply Hd; reflexivity.
Defined.

Lemma emit_records_witness :
  let s := TestPage.fresh in
  let entry := entry_at "ui:open" (VNum 1) (dom s) in
  ∃ s', emit "ui:open" (VNum 1) VNull s = (Normal None, s') ∧
        eventHistory (this s') = entry :: take 99 (eventHistory (this s)) ∧
        (∀ limit, (1 <= limit)%Z →
           ∃ rest, getHistory limit s' = (Normal (entry :: rest), s')) ∧
        (∀ limit, (1 <= limit)%Z →
           ∃ rest, getHistoryFor "ui:open" limit s' = (Normal (entry :: rest), s')).
Proof.
  intros s.
  eapply (emit_records_even_if_dispatch_throws "ui:open" (VNum 1) VNull s);
    reflexivity.
Defined.

Lemma history_bounded_witness :
  let s0 := TestPage.fresh in
  let s := run [CEmit "a" VNull window; CEmit "b" VNull VNull; COff "a"] s0 in
  let h := eventHistory (this s) in
  let h' := eventHistory (this (exec (CEmit "c" VNull window) s)) in
  history_ok s0 ∧
  (length h <= 100)%nat ∧ (length h' <= 100)%nat ∧
  (h' = h ∨ h' = [] ∨
   ∃ eventName data d,
     h' = entry_at eventName data d
          :: (if bool_decide (length h < 100)%nat then h else removelast h)) ∧
  eventHistory (this (run ((λ e, CAddToHistory e.1 e.2) <$> [("d", VNull)]) s))
  = take 100 (reverse ((λ e, entry_at e.1 e.2 (dom s)) <$> [("d", VNull)]) ++ h).
Proof.
  intros s0 s h h'.
  assert (history_ok s0) as H0 by (split; [reflexivity|cbn; lia]).
  split; [exact H0|].
  exact (history_bounded_most_recent_first
           [CEmit "a" VNull window; CEmit "b" VNull VNull; COff "a"]
           (CEmit "c" VNull window) [("d", VNull)] s0 H0).
Defined.

(** *** Examples for the registry *)

Lemma fresh_ids_fresh : ids_fresh (this TestPage.fresh).
Proof. intros n set ld Hget. discriminate Hget. Defined.

(** A page that lets go of every listener held by an object. *)
Lemma page_releases (n : string) (em : EventManager) :
  (∀ set ld, JsMap.get (listeners em) n = Some set → ld ∈ set →
             TestPage.is_target (target ld) = true) →
  releases n em.
Proof.
  intros Hrefs set ld d Hget Hld. cbn. by rewrite (Hrefs set ld Hget Hld).
Defined.

Lemma emit_touches_witness :
  let s := {| this := this TestPage.fresh;
              dom := {| TestPage.clock := 1000; TestPage.listening := [];
                        TestPage.has_CustomEvent := false |};
              console := TestPage.quiet |} in
  is_throw (new_CustomEvent "ui:open" VNull true true (dom s)).1 = true
  ∧ this (emit "ui:open" VNull window s).2 = this s.
Proof.
  intros s.
  assert (is_throw (new_CustomEvent "ui:open" VNull true true (dom s)).1 = true) as Hthrow
    by reflexivity.
  split; [exact Hthrow|].
  destruct (emit_touches_only_the_history "ui:open" VNull window s) as (_ & _ & _ & Hsame & _).
  exact (Hsame Hthrow).
Defined.

Lemma on_registers_witness :
  let s := TestPage.fresh in
  ids_fresh (this s)
  ∧ JsMap.get (listeners (this (on "click" (Fn 1) VNull s).2)) "click"
    = Some (default [] (JsMap.get (listeners (this s)) "click")
            ++ [listenerData_at (Fn 1) VNull s])
  ∧ (on "click" (Fn 1) VNull s).1
    = Throw (VStr "TypeError: target.addEventListener is not a function").
Proof.
  intros s.
  destruct (on_registers_one_more "click" (Fn 1) VNull s fresh_ids_fresh)
    as (Hget & _ & _ & Hthrow).
  split; [exact fresh_ids_fresh|]. split; [exact Hget|].
  apply Hthrow. reflexivity.
Defined.

Lemma unsubscribe_undoes_witness :
  let s := TestPage.fresh in
  let u := {| u_eventName := "click"; u_listenerData := listenerData_at (Fn 1) window s |} in
  let s1 := (on "click" (Fn 1) window s).2 in
  ids_fresh (this s)
  ∧ on "click" (Fn 1) window s = (Normal u, s1)
  ∧ is_throw (removeEventListener window "click" (Fn 1) (dom s1)).1 = false
  ∧ ∃ s2, unsubscribe u s1 = (Normal tt, s2)
          ∧ listeners (this s2) = [("click", [])]
          ∧ JsMap.has (listeners (this s2)) "click" = true.
Proof.
  intros s u s1.
  assert (on "click" (Fn 1) window s = (Normal u, s1)) as Hon by reflexivity.
  assert (is_throw (removeEventListener window "click" (Fn 1) (dom s1)).1 = false)
    as Hlets by reflexivity.
  split; [exact fresh_ids_fresh|]. split; [exact Hon|]. split; [exact Hlets|].
  exact (proj1 (unsubscribe_undoes_on "click" (Fn 1) window s s1 u fresh_ids_fresh Hon)
           Hlets).
Defined.

Lemma off_witness :
  let s := (on "click" (Fn 2) window (on "click" (Fn 1) window TestPage.fresh).2).2 in
  releases "click" (this s)
  ∧ JsMap.get (listeners (this s)) "scroll" = None
  ∧ (off "click" s).1 = Normal tt
  ∧ off "scroll" s = (Normal tt, s).
Proof.
  intros s.
  assert (releases "click" (this s)) as Hrel.
  { apply page_releases. intros set ld Hget Hld. vm_compute in Hget.
    injection Hget as <-.
    apply elem_of_cons in Hld as [->|Hld]; [reflexivity|].
    apply list_elem_of_singleton in Hld as ->. reflexivity. }
  assert (JsMap.get (listeners (this s)) "scroll" = None) as Hnone by reflexivity.
  destruct (off_all_or_nothing "click" s) as (_ & Hret & _).
  destruct (off_all_or_nothing "scroll" s) as (_ & _ & Hnop).
  exact (conj Hrel (conj Hnone (conj (Hret Hrel) (Hnop Hnone)))).
Defined.

Lemma destroy_witness :
  let s := (emit "ui:open" VNull window
              (on "click" (Fn 1) window TestPage.fresh).2).2 in
  (∀ n, releases n (this s))
  ∧ ∃ s', destroy s = (Normal tt, s')
          ∧ listeners (this s') = []
          ∧ eventHistory (this s') = []
          ∧ maxHistorySize (this s') = maxHistorySize (this s).
Proof.
  intros s.
  assert (∀ n, releases n (this s)) as Hrel.
  { intros n. apply page_releases. intros set ld Hget Hld.
    assert (listeners (this s) = [("click", [listenerData_at (Fn 1) window TestPage.fresh])])
      as Hl by reflexivity.
    rewrite Hl in Hget. unfold JsMap.get in Hget. cbn in Hget.
    destruct (bool_decide ("click" = n)); [|discriminate Hget].
    injection Hget as <-. apply list_elem_of_singleton in Hld as ->. reflexivity. }
  split; [exact Hrel|].
  exact (proj1 (destroy_clears_or_throws s) Hrel).
Defined.

End EventsFacts.

(** ** The state store *)

Module StoreFacts.

Import Store.

Section WithProgram.
Context `{Program}.

(** *** Reading and writing the state object *)

Lemma put_localStorage key value (m : Memory) :
  localStorage (put key value m) = localStorage m.
Proof.
  unfold put. destruct (_ && _); [|done]. by destruct value.
Qed.

(** A name other than [__proto__] becomes, or stays, an own property. *)
Lemma put_plain key value (m : Memory) :
  key ≠ "__proto__" →
  put key value m
  = {| state := <[key := value]> (state m); prototype := prototype m;
       localStorage := localStorage m |}.
Proof. intros Hkey. unfold put. by rewrite bool_decide_eq_false_2. Qed.

(** On an object literal, whose prototype is [Object.prototype], a primitive
    assigned to [__proto__] is dropped, and an object or [null] becomes the
    prototype: no own property is made. *)
Lemma put_proto value (m : Memory) :
  state m !! "__proto__" = None →
  proto_accessor_on (prototype m) = true →
  put "__proto__" value m
  = match value with
    | VRef _ | VNull =>
        {| state := state m; prototype := value; localStorage := localStorage m |}
    | _ => m
    end.
Proof.
  intros Hown Hacc. unfold put. rewrite Hacc.
  by rewrite !bool_decide_eq_true_2.
Qed.

Lemma read_own (m : Memory) key v : state m !! key = Some v → read m key = v.
Proof. intros Hv. unfold read. by rewrite Hv. Qed.

Lemma read_put_eq key value (m : Memory) :
  key ≠ "__proto__" → read (put key value m) key = value.
Proof.
  intros Hkey. rewrite put_plain by done. apply read_own. cbn. apply lookup_insert_eq.
Qed.

Lemma read_put_ne key key' value (m : Memory) :
  key ≠ "__proto__" → key' ≠ key → read (put key value m) key' = read m key'.
Proof.
  intros Hkey Hne. rewrite put_plain by done. unfold read. cbn.
  by rewrite lookup_insert_ne.
Qed.

(** What a read gives depends on the own properties and the prototype. *)
Lemma read_ext (m m' : Memory) key :
  state m' !! key = state m !! key → prototype m' = prototype m →
  read m' key = read m key.
Proof. intros Hs Hp. unfold read. by rewrite Hs, Hp. Qed.

(** *** Notification *)

Lemma notified_refl (s : State) : notified [] s s.
Proof.
  split; [done|]. split; [|by split_and!].
  exists []. rewrite app_nil_r. by split_and!.
Qed.

Lemma invocations_app (t1 t2 : list Event) :
  invocations (t1 ++ t2) = invocations t1 ++ invocations t2.
Proof. apply omap_app. Qed.

Lemma notified_trans es1 es2 (s s1 s2 : State) :
  notified es1 s s1 → notified es2 s1 s2 → notified (es1 ++ es2) s s2.
Proof.
  intros (Ht1 & (ev1 & Htr1 & Hc1 & Hi1 & Hh1 & Hr1) & Hm1 & Hs1 & Hl1 & Hp1)
         (Ht2 & (ev2 & Htr2 & Hc2 & Hi2 & Hh2 & Hr2) & Hm2 & Hs2 & Hl2 & Hp2).
  split; [congruence|]. split; [|split_and!].
  - exists (ev1 ++ ev2). split_and!.
    + by rewrite Htr2, Htr1, app_assoc.
    + by apply Forall_app.
    + rewrite invocations_app. congruence.
    + intros e He. destruct ev1 as [|e1 ev1].
      * cbn in Hi1. subst es1. rewrite Hm1 in Hh2 by done. by apply Hh2.
      * cbn in He. apply Hh1. cbn. done.
    + intros Hr. apply Forall_app. split; [by apply Hr1|].
      rewrite <- (proj1 (Hs1 Hr)). by apply Hr2.
  - intros Hnil. apply app_eq_nil in Hnil as [-> ->].
    rewrite Hm2, Hm1; done.
  - intros Hr. destruct (Hs2 Hr) as [-> ->]. by apply Hs1.
  - congruence.
  - by etrans.
Qed.

Lemma notified_one cb newValue oldValue key (s : State) (m : Memory) (c : Logger.Console) :
  (readers → state m = state (memory s) ∧ prototype m = prototype (memory s)) →
  Logger.logLevel c = Logger.logLevel (console s) →
  Logger.printed (console s) `prefix_of` Logger.printed c →
  notified [(cb, newValue, oldValue, key)] s
    {| this := this s; memory := m; console := c;
       trace := trace s ++ [Called cb newValue oldValue key (state (memory s))] |}.
Proof.
  intros Hm Hl Hp. split; [done|]. split; [|by split_and!].
  eexists. split; [done|]. split_and!.
  - by apply Forall_singleton.
  - done.
  - by intros e [= <-].
  - intros _. by apply Forall_singleton.
Qed.

Lemma deliver_run key newValue oldValue cb (s : State) :
  ∃ s', deliver key newValue oldValue cb s = (Normal tt, s')
        ∧ notified [(cb, newValue, oldValue, key)] s s'
        ∧ (is_throw (callback cb newValue oldValue key (memory s)).1 = true →
           last (Logger.printed (console s')) = Some (subscriber_error key)).
Proof.
  unfold deliver, call. eff. cbn.
  destruct (callback cb newValue oldValue key (memory s)) as [[[]|e] m] eqn:Hcb; cbn.
  - eexists. split; [done|]. split; [|done].
    apply (notified_one cb newValue oldValue key s m (console s)); [|done..].
    intros Hr. specialize (Hr cb newValue oldValue key (memory s)). by rewrite Hcb in Hr.
  - eexists. split; [done|]. split.
    + apply (notified_one cb newValue oldValue key s m
               (Logger.error ("Error in state subscriber for " +:+ key) (console s)));
        [|done|by apply prefix_app_r].
      intros Hr. specialize (Hr cb newValue oldValue key (memory s)). by rewrite Hcb in Hr.
    + intros _. cbn. by rewrite last_snoc.
Qed.

Lemma deliver_all key newValue oldValue (cbs : list nat) (s : State) :
  ∃ s', for_each cbs (deliver key newValue oldValue) s = (Normal tt, s')
        ∧ notified ((λ cb, (cb, newValue, oldValue, key)) <$> cbs) s s'
        ∧ (∀ bad, bad ∈ cbs →
             (∀ m, is_throw (callback bad newValue oldValue key m).1 = true) →
             subscriber_error key ∈ Logger.printed (console s')).
Proof.
  revert s. induction cbs as [|cb cbs IH]; intros s.
  - exists s. split; [done|]. split; [apply notified_refl|].
    intros bad Hbad. by apply elem_of_nil in Hbad.
  - destruct (deliver_run key newValue oldValue cb s) as (s1 & Hrun1 & Hn1 & Hthrow1).
    destruct (IH s1) as (s2 & Hrun2 & Hn2 & Hthrow2).
    exists s2. split; [|split].
    + cbn [for_each]. unfold bind. by rewrite Hrun1.
    + rewrite fmap_cons. by apply (notified_trans [_] _ s s1 s2).
    + intros bad Hbad Hthrows. apply elem_of_cons in Hbad as [->|Hbad].
      * destruct Hn2 as (_ & _ & _ & _ & _ & Hpre).
        eapply elem_of_prefix; [|exact Hpre].
        apply last_Some_elem_of. apply Hthrow1, Hthrows.
      * by apply (Hthrow2 bad).
Qed.

(** [notifySubscribers] calls every subscriber of the key, once, in order,
    and never throws. *)
Lemma notifySubscribers_run key newValue oldValue (s : State) :
  ∃ s', notifySubscribers key newValue oldValue s = (Normal tt, s')
        ∧ notified (owed (this s) {| key := key; oldValue := oldValue; newValue := newValue |})
                   s s'
        ∧ (∀ bad, bad ∈ subscribers_of key (this s) →
             (∀ m, is_throw (callback bad newValue oldValue key m).1 = true) →
             subscriber_error key ∈ Logger.printed (console s')).
Proof.
  unfold notifySubscribers, owed, subscribers_of. eff. cbn [Store.key Store.newValue Store.oldValue].
  destruct (subscribers (this s) !! key) as [cbs|]; cbn [default].
  - case_bool_decide as Hlen.
    + apply deliver_all.
    + destruct cbs; [|cbn in Hlen; lia].
      exists s. split; [done|]. split; [apply notified_refl|].
      intros bad Hbad. by apply elem_of_nil in Hbad.
  - exists s. split; [done|]. split; [apply notified_refl|].
    intros bad Hbad. by apply elem_of_nil in Hbad.
Qed.

(** The second loop of [setMultipleStates]. *)
Lemma notify_all (changes : list Change) (s : State) :
  ∃ s', for_each changes (λ c, notifySubscribers (key c) (newValue c) (oldValue c)) s
        = (Normal tt, s')
        ∧ notified (owed_all (this s) changes) s s'.
Proof.
  revert s. induction changes as [|c changes IH]; intros s.
  - exists s. split; [done|]. apply notified_refl.
  - destruct (notifySubscribers_run (key c) (newValue c) (oldValue c) s)
      as (s1 & Hrun1 & Hn1 & _).
    destruct (IH s1) as (s2 & Hrun2 & Hn2).
    exists s2. split.
    + cbn [for_each]. unfold bind. by rewrite Hrun1.
    + unfold owed_all. rewrite fmap_cons. cbn [concat].
      eapply notified_trans; [by destruct c|].
      pose proof Hn1 as (<- & _). exact Hn2.
Qed.

(** *** The calls, exactly *)






Lemma invocations_entered calls (m : Memory) : invocations (entered calls m) = calls.
Proof.
  revert m. induction calls as [|[[[cb n] o] k] calls IH]; intros m; [done|].
  cbn. by rewrite IH.
Qed.





(** *** Saving *)

(** [autoSave] never throws; it leaves the store object, the state object
    and the observations as they are, and does nothing at all for a key
    outside its list. *)
Lemma warn_grows msg (c : Logger.Console) :
  Logger.printed c `prefix_of` Logger.printed (Logger.warn msg c).
Proof.
  unfold Logger.warn. destruct (Logger.shouldLog _ _); [|done].
  by apply prefix_app_r.
Qed.

Lemma autoSave_run key value (s : State) :
  ∃ s', autoSave key value s = (Normal tt, s')
        ∧ this s' = this s ∧ trace s' = trace s
        ∧ state (memory s') = state (memory s)
        ∧ Logger.printed (console s) `prefix_of` Logger.printed (console s')
        ∧ (key ∉ autoSaveKeys → s' = s).
Proof.
  unfold autoSave. case_bool_decide as Hkey; [|by exists s].
  unfold lift, with_localStorage, Storage.setItem. eff.
  destruct (JSON_stringify value) as [json|e]; cbn.
  - case_bool_decide; cbn; eexists; split_and!; try done. apply warn_grows.
  - eexists; split_and!; try done. apply warn_grows.
Qed.

Lemma autoSave_prototype key value (s : State) :
  prototype (memory (autoSave key value s).2) = prototype (memory s).
Proof.
  unfold autoSave. case_bool_decide as Hkey; [|done].
  unfold lift, with_localStorage, Storage.setItem. eff.
  destruct (JSON_stringify value) as [json|e]; cbn; [|done].
  by case_bool_decide.
Qed.

(** For a key of its list, with a value that [JSON] can print and room in
    the storage, [autoSave] leaves the printed value under [oudar-key]. *)
Lemma autoSave_writes key value json (s : State) :
  key ∈ autoSaveKeys →
  JSON_stringify value = Normal json →
  (Storage.used (<["oudar-" +:+ key := json]> (Storage.items (localStorage (memory s))))
   <= Storage.quota (localStorage (memory s)))%nat →
  Storage.getItem ("oudar-" +:+ key) (localStorage (memory (autoSave key value s).2))
  = Some json.
Proof.
  intros Hkey Hjson Hroom. unfold autoSave. rewrite bool_decide_eq_true_2 by done.
  unfold lift, with_localStorage, Storage.setItem. eff. rewrite Hjson. cbn.
  rewrite bool_decide_eq_true_2 by done. cbn. unfold Storage.getItem. cbn.
  by rewrite lookup_insert_eq.
Qed.

(** The first loop of [setMultipleStates] never writes to the storage, and
    without notification neither does the call. *)
Lemma update_each_localStorage entries (acc : list Change) (s : State) :
  localStorage (memory (update_each entries acc s).2) = localStorage (memory s).
Proof.
  revert acc s. induction entries as [|[k v] entries IH]; intros acc s; [done|].
  cbn [update_each]. unfold applyMiddleware, lift, assign, observe. eff.
  destruct (reduce _ _ _ _) as [p|e]; cbn [fst snd]; [|done].
  rewrite IH. apply put_localStorage.
Qed.

Lemma setMultipleStates_never_saves updates (s : State) :
  localStorage (memory (setMultipleStates updates false s).2) = localStorage (memory s).
Proof.
  unfold setMultipleStates, mainLogger. eff.
  pose proof (update_each_localStorage updates [] s) as Hloop.
  by destruct (update_each updates [] s) as [[changes|e] s1].
Qed.

(** *** [setState] *)

(** A middleware that throws aborts [setState] before anything is written. *)
Lemma setState_middleware_throws key value notify (s : State) e :
  reduce (middleware (this s)) key value (getState key s) = Throw e →
  setState key value notify s = (Throw e, s).
Proof.
  intros Hred. unfold setState, applyMiddleware, lift. eff. by rewrite Hred.
Qed.

(** Otherwise [setState] returns: it assigns, notifies if asked to and if the
    value changed, then saves. *)
Lemma setState_run key value notify (s : State) p :
  reduce (middleware (this s)) key value (getState key s) = Normal p →
  ∃ s2 s',
    setState key value notify s = (Normal tt, s')
    ∧ notified (if notify && strict_neq (getState key s) p
                then owed (this s) {| key := key; oldValue := getState key s; newValue := p |}
                else [])
               (stored key p s) s2
    ∧ (notify && strict_neq (getState key s) p = true →
       ∀ bad, bad ∈ subscribers_of key (this s) →
         (∀ m, is_throw (callback bad p (getState key s) key m).1 = true) →
         subscriber_error key ∈ Logger.printed (console s2))
    ∧ autoSave key p s2 = (Normal tt, s').
Proof.
  intros Hred. unfold setState, applyMiddleware, lift, assign, observe, mainLogger. eff.
  rewrite Hred. cbn. fold (stored key p s).
  destruct (notify && strict_neq (getState key s) p) eqn:Hn.
  - destruct (notifySubscribers_run key p (getState key s) (stored key p s))
      as (s2 & -> & Hnot & Hthrow).
    destruct (autoSave_run key p s2) as (s' & Hsave & _).
    exists s2, s'. split_and!; try done.
  - destruct (autoSave_run key p (stored key p s)) as (s' & Hsave & _).
    exists (stored key p s), s'. split_and!; try done. apply notified_refl.
Qed.



(** ** C8 *)


(** *** [setMultipleStates] *)

Lemma written_cons post (st : gmap string Value) k v updates :
  written post st ((k, v) :: updates) = written post (<[k := post k v]> st) updates.
Proof. done. Qed.

Lemma written_notin post (st : gmap string Value) updates k :
  k ∉ updates.*1 → written post st updates !! k = st !! k.
Proof.
  revert st. induction updates as [|[k0 v0] updates IH]; intros st Hk; [done|].
  cbn in Hk. apply not_elem_of_cons in Hk as [Hne Hk].
  rewrite written_cons, IH by done. by rewrite lookup_insert_ne.
Qed.

Lemma written_lookup post (st : gmap string Value) updates k v :
  NoDup updates.*1 → (k, v) ∈ updates →
  written post st updates !! k = Some (post k v).
Proof.
  revert st. induction updates as [|[k0 v0] updates IH]; intros st Hnd Hin.
  - by apply elem_of_nil in Hin.
  - cbn in Hnd. apply NoDup_cons in Hnd as [Hk0 Hnd].
    apply elem_of_cons in Hin as [[= -> ->]|Hin].
    + rewrite written_cons, written_notin by done. by rewrite lookup_insert_eq.
    + rewrite written_cons. by apply IH.
Qed.

Lemma changes_of_ext post (m m' : Memory) updates :
  (∀ k, k ∈ updates.*1 → read m k = read m' k) →
  changes_of post m updates = changes_of post m' updates.
Proof.
  induction updates as [|[k v] updates IH]; intros Hagree; [done|].
  unfold changes_of in *. cbn [omap list_omap fst snd].
  rewrite IH by (intros k' Hk'; apply Hagree; by right).
  by rewrite (Hagree k) by (by left).
Qed.

(** The first loop: with distinct keys, none of them [__proto__], each entry
    is turned into its post-middleware value (computed against the value
    held before the call), written, and listed among the changes if it
    differs. *)
Lemma update_each_run post updates (acc : list Change) (s : State) :
  NoDup updates.*1 →
  "__proto__" ∉ updates.*1 →
  (∀ k v, (k, v) ∈ updates →
     reduce (middleware (this s)) k v (getState k s) = Normal (post k v)) →
  update_each updates acc s
  = (Normal (acc ++ changes_of post (memory s) updates), updated post updates s).
Proof.
  revert acc s. induction updates as [|[k v] updates IH]; intros acc s Hnd Hplain Hpost.
  - cbn. unfold ret, updated. cbn. rewrite !app_nil_r. by destruct s as [? [? ? ?] ? ?].
  - cbn in Hnd, Hplain. apply NoDup_cons in Hnd as [Hk Hnd].
    apply not_elem_of_cons in Hplain as [Hkey Hplain].
    assert (k ≠ "__proto__") as Hk' by done.
    cbn [update_each]. unfold applyMiddleware, lift, assign, observe. eff.
    rewrite (Hpost k v) by left. cbn [fst snd].
    rewrite IH; [|done|done|].
    + f_equal.
      * f_equal. cbn [changes_of omap list_omap fst snd memory set_memory].
        assert (changes_of post (put k (post k v) (memory s)) updates
                = changes_of post (memory s) updates) as ->.
        { apply changes_of_ext. intros k' Hin. apply read_put_ne; [done|]. by intros ->. }
        fold (changes_of post (memory s) updates). unfold getState.
        destruct (strict_neq _ _); [by rewrite <- app_assoc|done].
      * unfold updated. cbn. rewrite put_plain by done. cbn. by rewrite <- app_assoc.
    + intros k' v' Hin. cbn. unfold getState. cbn.
      rewrite read_put_ne.
      * by apply Hpost; right.
      * done.
      * intros Heq. apply Hk, list_elem_of_fmap. exists (k', v'). by split.
Qed.

(** ** C1 *)


(** ** C5 *)

(** [v === v] holds of every value but [NaN]. *)
Lemma strict_eq_refl (v : Value) : strict_eq v v = true ↔ v ≠ VNaN.
Proof. destruct v; cbn; split; try done; intros; by rewrite bool_decide_eq_true. Qed.

(** A name other than [__proto__] reads back as it was written. *)
Lemma getState_stored key p (s : State) :
  key ≠ "__proto__" → getState key (stored key p s) = p.
Proof. intros Hkey. unfold getState, stored. cbn. by apply read_put_eq. Qed.

(** The guard of [setState]: when the value the chain produces is the one
    already held, nobody is called. *)
Lemma setState_same_value key value notify (s : State) p :
  reduce (middleware (this s)) key value (getState key s) = Normal p →
  strict_neq (getState key s) p = false →
  ∃ s', setState key value notify s = (Normal tt, s')
        ∧ this s' = this s
        ∧ invocations (trace s') = invocations (trace s).
Proof.
  intros Hred Hsame.
  destruct (setState_run key value notify s p Hred) as (s2 & s' & Hrun & Hnot & _ & Hsave).
  rewrite Hsame, andb_false_r in Hnot.
  destruct (autoSave_run key p s2) as (s'' & Hsave' & Hthis & Htrace & _).
  rewrite Hsave in Hsave'. injection Hsave' as <-.
  destruct Hnot as (Hthis2 & (events & Htr & _ & Hinv & _) & _).
  exists s'. split; [done|]. split; [by rewrite Hthis, Hthis2|].
  rewrite Htrace, Htr. cbn [stored trace]. rewrite !invocations_app, Hinv. cbn.
  by rewrite !app_nil_r.
Qed.

(** C5, as the code has it. Two [setState(key, value)] in a row call each
    subscriber of [key] at most once, the second call calling nobody,
    provided that: the key is not [__proto__] (which the state object does
    not keep as a property: what is read back is its prototype); the
    subscribers only read the state object; and the middleware chain, which
    made [p] of [(key, value)] in the first call, makes of it in the second
    call, where the old value is [p], a value strictly equal to [p].  (So
    [p] is not [NaN], and the chain does not answer differently because the
    old value is now [p].) *)
Theorem setState_twice_notifies_at_most_once
  (key : string) (value : Value) (notify1 notify2 : bool) (s : State) (p p' : Value) :
  key ≠ "__proto__" →
  readers →
  reduce (middleware (this s)) key value (getState key s) = Normal p →
  reduce (middleware (this s)) key value p = Normal p' →
  strict_eq p p' = true →
  ∃ s1 s2 once,
    setState key value notify1 s = (Normal tt, s1)
    ∧ setState key value notify2 s1 = (Normal tt, s2)
    ∧ invocations (trace s1) = invocations (trace s) ++ once
    ∧ (once = [] ∨
       once = (λ cb, (cb, p, getState key s, key)) <$> subscribers_of key (this s))
    ∧ invocations (trace s2) = invocations (trace s1).
Proof.
  intros Hkey Hreaders Hfirst Hsecond Hsame.
  destruct (setState_run key value notify1 s p Hfirst)
    as (sa & s1 & Hrun1 & Hnot & _ & Hsave).
  pose proof (autoSave_prototype key p sa) as Hproto.
  destruct (autoSave_run key p sa) as (s'' & Hsave' & Hthis & Htrace & Hstate & _).
  rewrite Hsave in Hsave', Hproto. injection Hsave' as <-. cbn [snd] in Hproto.
  destruct Hnot as (Hthis2 & (events & Htr & _ & Hinv & _) & _ & Hkeep & _).
  assert (getState key s1 = p) as Hheld.
  { rewrite <- (getState_stored key p s Hkey). unfold getState.
    destruct (Hkeep Hreaders) as [Hst Hpr]. apply read_ext; congruence. }
  assert (this s1 = this s) as Hsame_this by (by rewrite Hthis, Hthis2).
  destruct (setState_same_value key value notify2 s1 p') as (s2 & Hrun2 & _ & Hinv2).
  { by rewrite Hsame_this, Hheld. }
  { rewrite Hheld. unfold strict_neq. by rewrite Hsame. }
  exists s1, s2, (invocations events). split_and!; try done.
  - rewrite Htrace, Htr. cbn [stored trace]. rewrite !invocations_app. cbn.
    by rewrite app_nil_r.
  - rewrite Hinv. destruct (notify1 && _); [right|by left]. done.
Qed.

(** ** Further properties of the store *)

(** *** What a [setState] does *)

(** X1. Who [setState] calls: when the middleware chain has produced [p],
    the call returns, leaves the registry and the chain as they are, and
    has called exactly the subscribers of the key, each once and in order,
    if [notify] is set and [p] differs from the old value under [!==]; it has
    called nobody otherwise (so never with [notify] off, and never when the
    value written back is the object already stored). *)
Theorem setState_calls_exactly
  (key : string) (value : Value) (notify : bool) (s : State) (p : Value) :
  reduce (middleware (this s)) key value (getState key s) = Normal p →
  ∃ s', setState key value notify s = (Normal tt, s')
        ∧ this s' = this s
        ∧ invocations (trace s')
          = invocations (trace s)
            ++ (if notify && strict_neq (getState key s) p
                then (λ cb, (cb, p, getState key s, key)) <$> subscribers_of key (this s)
                else []).
Proof.
  intros Hred.
  destruct (setState_run key value notify s p Hred) as (s2 & s' & Hrun & Hnot & _ & Hsave).
  destruct (autoSave_run key p s2) as (s'' & Hsave' & Hthis & Htrace & _).
  rewrite Hsave in Hsave'. injection Hsave' as <-.
  destruct Hnot as (Hthis2 & (events & Htr & _ & Hinv & _) & _).
  exists s'. split; [done|]. split; [by rewrite Hthis, Hthis2|].
  rewrite Htrace, Htr. cbn [stored trace]. rewrite !invocations_app, Hinv. cbn.
  rewrite app_nil_r. by destruct (notify && _).
Qed.

(** X2. What [setState] writes: with subscribers that only read the state
    object, the state object after the call is the one before after the one
    assignment [this.state[key] = p] of the post-middleware value.  For a key
    other than [__proto__] this is the object before with [p] under the
    key, every other field and the prototype untouched.  For the key
    [__proto__] of an object that inherits the accessor of
    [Object.prototype] and has no field of this name, no field is written:
    an object or [null] becomes the prototype, and any other value is
    dropped.  An object that has such a field of its own, or does not
    inherit the accessor, gets [p] under [__proto__] like under any other
    key. *)
Theorem setState_writes_one_field
  (key : string) (value : Value) (notify : bool) (s : State) (p : Value) :
  readers →
  reduce (middleware (this s)) key value (getState key s) = Normal p →
  let m' := memory (setState key value notify s).2 in
  (key ≠ "__proto__" →
   state m' = <[key := p]> (state (memory s))
   ∧ prototype m' = prototype (memory s))
  ∧ (key = "__proto__" →
     state (memory s) !! "__proto__" = None →
     proto_accessor_on (prototype (memory s)) = true →
     state m' = state (memory s)
     ∧ prototype m' = match p with
                      | VRef _ | VNull => p
                      | _ => prototype (memory s)
                      end)
  ∧ (key = "__proto__" →
     state (memory s) !! "__proto__" ≠ None
     ∨ proto_accessor_on (prototype (memory s)) = false →
     state m' = <[key := p]> (state (memory s))
     ∧ prototype m' = prototype (memory s)).
Proof.
  intros Hreaders Hred m'.
  assert (state m' = state (put key p (memory s))
          ∧ prototype m' = prototype (put key p (memory s))) as [Hst Hpr].
  { subst m'.
    destruct (setState_run key value notify s p Hred) as (s2 & s' & Hrun & Hnot & _ & Hsave).
    pose proof (autoSave_prototype key p s2) as Hproto.
    destruct (autoSave_run key p s2) as (s'' & Hsave' & _ & _ & Hstate & _).
    rewrite Hsave in Hsave', Hproto. injection Hsave' as <-. cbn [snd] in Hproto.
    destruct Hnot as (_ & _ & _ & Hkeep & _). destruct (Hkeep Hreaders) as [Hs Hp].
    cbn [stored memory] in Hs, Hp. rewrite Hrun. cbn [snd]. split; congruence. }
  rewrite Hst, Hpr. split_and!.
  - intros Hkey. by rewrite put_plain.
  - intros -> Hown Hacc. rewrite put_proto by done. by destruct p.
  - intros -> Hno. unfold put.
    destruct Hno as [Hown|Hacc].
    + rewrite (bool_decide_eq_false_2 (_ !! _ = None)) by done.
      by rewrite andb_false_r.
    + by rewrite Hacc, andb_false_r.
Qed.

(** *** The middleware chain *)

Lemma reduce_app (ms1 ms2 : list Middleware) key value oldValue :
  reduce (ms1 ++ ms2) key value oldValue
  = match reduce ms1 key value oldValue with
    | Normal v => reduce ms2 key v oldValue
    | Throw e => Throw e
    end.
Proof.
  revert value. induction ms1 as [|m ms1 IH]; intros value; [done|].
  cbn. destruct (m key value oldValue) as [v|e]; [apply IH|done].
Qed.

(** X3. Registration order: after [addMiddleware(m)] the chain is the
    former chain followed by [m]; [m] receives what the former chain made of
    the value, and the same old value as every other member; it is not
    called when the former chain throws. *)
Theorem addMiddleware_runs_last
  (m : Middleware) (key : string) (value oldValue : Value) (s : State) :
  reduce (middleware (this (addMiddleware m s).2)) key value oldValue
  = match reduce (middleware (this s)) key value oldValue with
    | Normal v => m key v oldValue
    | Throw e => Throw e
    end.
Proof.
  cbn. rewrite reduce_app.
  destruct (reduce (middleware (this s)) key value oldValue) as [v|e]; [|done].
  cbn. by destruct (m key v oldValue).
Qed.

(** *** A middleware that throws in the middle of [setMultipleStates] *)

Lemma update_each_app (xs ys : list (string * Value)) (acc : list Change) (s : State) :
  update_each (xs ++ ys) acc s
  = match update_each xs acc s with
    | (Normal acc', s') => update_each ys acc' s'
    | (Throw e, s') => (Throw e, s')
    end.
Proof.
  revert acc s. induction xs as [|[k v] xs IH]; intros acc s; [done|].
  cbn [app update_each]. unfold applyMiddleware, lift, assign, observe. eff.
  destruct (reduce _ _ _ _) as [p|e]; cbn; [|done]. apply IH.
Qed.

(** X4. No rollback: when the chain throws on one entry of
    [setMultipleStates], after having turned each of the entries before it
    (none of which has the key [__proto__]) into [post key value], the call
    throws that exception; the entries before are written and stay written,
    the entry and those after it are not, and nobody is notified of
    anything. *)
Theorem setMultipleStates_stops_at_a_throw
  (post : string → Value → Value) (before after : list (string * Value))
  (k : string) (v e : Value) (notify : bool) (s : State) :
  NoDup (before ++ [(k, v)]).*1 →
  "__proto__" ∉ before.*1 →
  (∀ k' v', (k', v') ∈ before →
     reduce (middleware (this s)) k' v' (getState k' s) = Normal (post k' v')) →
  reduce (middleware (this s)) k v (getState k s) = Throw e →
  setMultipleStates (before ++ (k, v) :: after) notify s
  = (Throw e, updated post before s)
  ∧ (∀ k' v', (k', v') ∈ before → getState k' (updated post before s) = post k' v')
  ∧ getState k (updated post before s) = getState k s
  ∧ invocations (trace (updated post before s)) = invocations (trace s).
Proof.
  intros Hnd Hplain Hpost Hthrow. rewrite fmap_app in Hnd.
  apply NoDup_app in Hnd as (Hnd & Hk & _).
  assert (k ∉ before.*1) as Hfresh.
  { intros Hin. apply (Hk k Hin). cbn. left. }
  assert (getState k (updated post before s) = getState k s) as Hsame.
  { unfold getState. apply read_ext; [|done]. cbn. by apply written_notin. }
  split_and!.
  - unfold setMultipleStates. unfold bind at 1. rewrite update_each_app.
    rewrite (update_each_run post before [] s Hnd Hplain Hpost).
    cbn [update_each]. unfold applyMiddleware, lift, bind, gets.
    change (this (updated post before s)) with (this s).
    rewrite Hsame, Hthrow. done.
  - intros k' v' Hin. apply read_own. cbn. by apply written_lookup.
  - done.
  - cbn. rewrite invocations_app.
    assert (invocations ((λ u, Assigned u.1 (post u.1 u.2)) <$> before) = []) as ->.
    { clear. induction before as [|u us IH]; [done|]. cbn. apply IH. }
    by rewrite app_nil_r.
Qed.

(** *** Subscribing and unsubscribing *)

Lemma subscribe_run key cb (s : State) :
  ∃ s', subscribe key cb s = (Normal tt, s')
        ∧ middleware (this s') = middleware (this s)
        ∧ memory s' = memory s ∧ trace s' = trace s
        ∧ subscribers (this s')
          = <[key := if bool_decide (cb ∈ subscribers_of key (this s))
                     then subscribers_of key (this s)
                     else subscribers_of key (this s) ++ [cb]]> (subscribers (this s)).
Proof. eexists. by split_and!. Qed.

Lemma unsubscribe_run key cb (s : State) :
  ∃ s', unsubscribe key cb s = (Normal tt, s')
        ∧ middleware (this s') = middleware (this s)
        ∧ memory s' = memory s ∧ trace s' = trace s
        ∧ subscribers (this s')
          = match subscribers (this s) !! key with
            | Some l =>
                if bool_decide (length (filter (λ c, c ≠ cb) l) = 0)%nat
                then delete key (subscribers (this s))
                else <[key := filter (λ c, c ≠ cb) l]> (subscribers (this s))
            | None => subscribers (this s)
            end.
Proof.
  unfold unsubscribe, mainLogger. eff. eexists. split; [done|]. cbn.
  destruct (subscribers (this s) !! key); by split_and!.
Qed.

(** Who is subscribed to what after [subscribe] and after [unsubscribe]. *)
Lemma subscribe_members key cb (s : State) k' cb' :
  cb' ∈ subscribers_of k' (this (subscribe key cb s).2)
  ↔ cb' ∈ subscribers_of k' (this s) ∨ (k' = key ∧ cb' = cb).
Proof.
  destruct (subscribe_run key cb s) as (s' & -> & _ & _ & _ & Hsubs). cbn [snd].
  unfold subscribers_of at 1. rewrite Hsubs.
  destruct (decide (k' = key)) as [->|Hne].
  - rewrite lookup_insert_eq. cbn. case_bool_decide.
    + split; [by left|]. intros [?|[_ ->]]; done.
    + rewrite elem_of_app, list_elem_of_singleton. intuition congruence.
  - rewrite lookup_insert_ne by done. fold (subscribers_of k' (this s)). intuition congruence.
Qed.

Lemma unsubscribe_members key cb (s : State) k' cb' :
  cb' ∈ subscribers_of k' (this (unsubscribe key cb s).2)
  ↔ cb' ∈ subscribers_of k' (this s) ∧ ¬ (k' = key ∧ cb' = cb).
Proof.
  destruct (unsubscribe_run key cb s) as (s' & -> & _ & _ & _ & Hsubs). cbn [snd].
  unfold subscribers_of. rewrite Hsubs.
  destruct (decide (k' = key)) as [->|Hne].
  - destruct (subscribers (this s) !! key) as [l|] eqn:Hl; cbn.
    + case_bool_decide as Hlen.
      * rewrite lookup_delete_eq. cbn. apply length_zero_iff_nil in Hlen.
        split; [by intros ?%elem_of_nil|]. intros [Hin Hnot].
        assert (cb' ∈ filter (λ c, c ≠ cb) l) as Hf.
        { apply list_elem_of_filter. split; [|done]. intros ->. by apply Hnot. }
        by rewrite Hlen in Hf.
      * rewrite lookup_insert_eq. cbn. rewrite list_elem_of_filter. intuition congruence.
    + rewrite Hl. cbn. split; [by intros ?%elem_of_nil|by intros [?%elem_of_nil _]].
  - assert (∀ m : gmap string (list nat),
              (m = subscribers (this s) ∨ m = delete key (subscribers (this s))
               ∨ ∃ l, m = <[key := l]> (subscribers (this s))) →
              m !! k' = subscribers (this s) !! k') as Hother.
    { intros m [->|[->|[l ->]]]; [done|by rewrite lookup_delete_ne|by rewrite lookup_insert_ne]. }
    rewrite Hother; [intuition congruence|].
    destruct (subscribers (this s) !! key); [|by left].
    case_bool_decide; [right; by left|right; right; eauto].
Qed.

(** *** Who can be called *)

Lemma update_each_frame entries (acc : list Change) (s : State) :
  this (update_each entries acc s).2 = this s
  ∧ invocations (trace (update_each entries acc s).2) = invocations (trace s).
Proof.
  revert acc s. induction entries as [|[k v] entries IH]; intros acc s; [done|].
  cbn [update_each]. unfold applyMiddleware, lift, assign, observe. eff.
  destruct (reduce _ _ _ _) as [p|e]; cbn; [|done].
  match goal with |- context [update_each entries ?a ?s0] =>
    destruct (IH a s0) as [-> ->] end.
  cbn. rewrite invocations_app. cbn. by rewrite app_nil_r.
Qed.

Lemma owed_all_to_subscribers (sm : StateManager) (changes : list Change) :
  to_subscribers sm (owed_all sm changes).
Proof.
  intros cb n o k Hin. unfold owed_all in Hin.
  induction changes as [|c changes IH]; cbn in Hin; [by apply elem_of_nil in Hin|].
  apply elem_of_app in Hin as [Hin|Hin]; [|by apply IH].
  by apply list_elem_of_fmap in Hin as (cb' & [= -> -> -> ->] & Hcb).
Qed.

Lemma setMultipleStates_frame updates notify (s : State) :
  this (setMultipleStates updates notify s).2 = this s
  ∧ ∃ added, invocations (trace (setMultipleStates updates notify s).2)
             = invocations (trace s) ++ added
             ∧ to_subscribers (this s) added.
Proof.
  unfold setMultipleStates, mainLogger. eff.
  destruct (update_each_frame updates [] s) as [Hthis Hinv].
  destruct (update_each updates [] s) as [[changes|e] s1]; cbn in *.
  - destruct notify.
    + match goal with |- context [for_each changes _ ?s0] =>
        destruct (notify_all changes s0) as (s2 & -> & Hn) end.
      destruct Hn as (Ht & (events & Htr & _ & Hi & _) & _). cbn in *.
      split; [congruence|]. exists (owed_all (this s1) changes). split.
      * by rewrite Htr, invocations_app, Hinv, Hi.
      * rewrite <- Hthis. apply owed_all_to_subscribers.
    + cbn. split; [done|]. exists []. rewrite app_nil_r. split; [done|].
      intros ? ? ? ? Hin. by apply elem_of_nil in Hin.
  - split; [done|]. exists []. rewrite app_nil_r. split; [done|].
    intros ? ? ? ? Hin. by apply elem_of_nil in Hin.
Qed.

Lemma setState_frame key value notify (s : State) :
  this (setState key value notify s).2 = this s
  ∧ ∃ added, invocations (trace (setState key value notify s).2)
             = invocations (trace s) ++ added
             ∧ to_subscribers (this s) added.
Proof.
  destruct (reduce (middleware (this s)) key value (getState key s)) as [p|e] eqn:Hred.
  - destruct (setState_run key value notify s p Hred) as (s2 & s' & -> & Hnot & _ & Hsave).
    destruct (autoSave_run key p s2) as (s'' & Hsave' & Hthis & Htrace & _).
    rewrite Hsave in Hsave'. injection Hsave' as <-.
    destruct Hnot as (Hthis2 & (events & Htr & _ & Hinv & _) & _).
    cbn [snd]. split; [by rewrite Hthis, Hthis2|]. eexists. split.
    { rewrite Htrace, Htr. cbn [stored trace]. rewrite !invocations_app, Hinv. cbn.
      by rewrite app_nil_r. }
    destruct (notify && _).
    + intros cb n o k Hin. by apply list_elem_of_fmap in Hin as (cb' & [= -> -> -> ->] & Hcb).
    + intros ? ? ? ? Hin. by apply elem_of_nil in Hin.
  - rewrite (setState_middleware_throws key value notify s e Hred). cbn.
    split; [done|]. exists []. rewrite app_nil_r. split; [done|].
    intros ? ? ? ? Hin. by apply elem_of_nil in Hin.
Qed.

Lemma saveStateToStorage_frame (s : State) :
  this (saveStateToStorage s).2 = this s ∧ trace (saveStateToStorage s).2 = trace s
  ∧ state (memory (saveStateToStorage s).2) = state (memory s).
Proof.
  unfold saveStateToStorage, lift, with_localStorage, Storage.setItem, mainLogger. eff.
  destruct (JSON_stringify_object _) as [json|e]; cbn; [|done].
  by case_bool_decide.
Qed.

Lemma restoreStateFromStorage_frame (s : State) :
  this (restoreStateFromStorage s).2 = this s
  ∧ ∃ added, invocations (trace (restoreStateFromStorage s).2)
             = invocations (trace s) ++ added
             ∧ to_subscribers (this s) added.
Proof.
  assert (∃ added, invocations (trace s) = invocations (trace s) ++ added
                   ∧ to_subscribers (this s) added) as Hnone.
  { exists []. rewrite app_nil_r. split; [done|].
    intros ? ? ? ? Hin. by apply elem_of_nil in Hin. }
  unfold restoreStateFromStorage, lift, mainLogger. eff.
  destruct (Storage.getItem _ _) as [saved|]; [|done].
  case_bool_decide; [done|]. cbn.
  destruct (JSON_parse saved) as [parsed|e]; cbn; [|done].
  destruct (setMultipleStates_frame parsed true s) as (Ht & added & Hi & Hto).
  destruct (setMultipleStates parsed true s) as [[[]|e] s1]; cbn in *; eauto.
Qed.

(** The store only calls functions that are subscribed, at that moment, to
    the key it calls them for. *)
Lemma exec_calls_subscribers (c : Call) (s : State) :
  ∃ added, invocations (trace (exec c s)) = invocations (trace s) ++ added
           ∧ to_subscribers (this s) added.
Proof.
  assert (∀ s', trace s' = trace s →
            ∃ added, invocations (trace s') = invocations (trace s) ++ added
                     ∧ to_subscribers (this s) added) as Hnone.
  { intros s' ->. exists []. rewrite app_nil_r. split; [done|].
    intros ? ? ? ? Hin. by apply elem_of_nil in Hin. }
  destruct c as [k v n|us n|k cb|k cb|ks cb|ks cb|m| |]; cbn [exec].
  - apply setState_frame.
  - apply setMultipleStates_frame.
  - by apply Hnone.
  - destruct (unsubscribe_run k cb s) as (s' & -> & _ & _ & Htr & _). by apply Hnone.
  - apply Hnone. unfold subscribeToMultiple. generalize s.
    induction ks as [|k ks IH]; intros s0; [done|].
    cbn [for_each]. unfold bind.
    destruct (subscribe_run k cb s0) as (s1 & -> & _ & _ & Htr & _).
    by rewrite IH.
  - apply Hnone. unfold unsubscribeFromMultiple. generalize s.
    induction ks as [|k ks IH]; intros s0; [done|].
    cbn [for_each]. unfold bind.
    destruct (unsubscribe_run k cb s0) as (s1 & -> & _ & _ & Htr & _).
    by rewrite IH.
  - by apply Hnone.
  - apply Hnone. apply saveStateToStorage_frame.
  - apply restoreStateFromStorage_frame.
Qed.

Lemma subscribeToMultiple_members keys cb (s : State) k' cb' :
  cb' ∈ subscribers_of k' (this (subscribeToMultiple keys cb s).2)
  ↔ cb' ∈ subscribers_of k' (this s) ∨ (k' ∈ keys ∧ cb' = cb).
Proof.
  unfold subscribeToMultiple. revert s. induction keys as [|k keys IH]; intros s.
  - cbn. rewrite elem_of_nil. intuition.
  - cbn [for_each]. unfold bind.
    pose proof (subscribe_members k cb s k' cb') as Hone.
    destruct (subscribe_run k cb s) as (s1 & Hrun & _). rewrite Hrun in Hone |- *.
    cbn [snd] in Hone. rewrite IH, Hone, elem_of_cons. intuition.
Qed.

Lemma unsubscribeFromMultiple_members keys cb (s : State) k' cb' :
  cb' ∈ subscribers_of k' (this (unsubscribeFromMultiple keys cb s).2)
  ↔ cb' ∈ subscribers_of k' (this s) ∧ ¬ (k' ∈ keys ∧ cb' = cb).
Proof.
  unfold unsubscribeFromMultiple. revert s. induction keys as [|k keys IH]; intros s.
  - cbn. rewrite elem_of_nil. intuition.
  - cbn [for_each]. unfold bind.
    pose proof (unsubscribe_members k cb s k' cb') as Hone.
    destruct (unsubscribe_run k cb s) as (s1 & Hrun & _). rewrite Hrun in Hone |- *.
    cbn [snd] in Hone. rewrite IH, Hone, elem_of_cons. intuition.
Qed.

(** X5. The composite subscription: [subscribeToMultiple(keys, cb)]
    subscribes [cb] to each of the keys and changes nothing else in the
    registry; the function it returns takes [cb] off each of the keys, and
    off nothing else. *)
Theorem subscribeToMultiple_members_exactly
  (keys : list string) (cb : nat) (s : State) (k' : string) (cb' : nat) :
  (cb' ∈ subscribers_of k' (this (subscribeToMultiple keys cb s).2)
   ↔ cb' ∈ subscribers_of k' (this s) ∨ (k' ∈ keys ∧ cb' = cb))
  ∧ (cb' ∈ subscribers_of k' (this (unsubscribeFromMultiple keys cb s).2)
     ↔ cb' ∈ subscribers_of k' (this s) ∧ ¬ (k' ∈ keys ∧ cb' = cb)).
Proof.
  split; [apply subscribeToMultiple_members|apply unsubscribeFromMultiple_members].
Qed.

(** After a call that does not subscribe [cb] to [key], [cb] is subscribed
    to [key] only if it was before. *)
Lemma exec_not_resubscribed (c : Call) key cb (s : State) :
  ¬ resubscribes key cb c →
  cb ∈ subscribers_of key (this (exec c s)) → cb ∈ subscribers_of key (this s).
Proof.
  intros Hc. destruct c as [k v n|us n|k c'|k c'|ks c'|ks c'|m| |];
    cbn [exec resubscribes] in *.
  - by destruct (setState_frame k v n s) as [-> _].
  - by destruct (setMultipleStates_frame us n s) as [-> _].
  - rewrite subscribe_members. intros [?|[-> ->]]; [done|]. by destruct Hc.
  - rewrite unsubscribe_members. by intros [? _].
  - rewrite subscribeToMultiple_members. intros [?|[? ->]]; [done|]. by destruct Hc.
  - rewrite unsubscribeFromMultiple_members. by intros [? _].
  - done.
  - by destruct (saveStateToStorage_frame s) as [-> _].
  - by destruct (restoreStateFromStorage_frame s) as [-> _].
Qed.

(** X6. Unsubscribing works: once the function returned by
    [subscribe(key, cb)] has been called, and whatever the store is asked
    to do afterwards, as long as [cb] is not subscribed to [key] again, [cb]
    is never called for [key]: the subscriber calls on record are those
    made before, followed by calls none of which is a call of [cb] for
    [key]. *)
Theorem unsubscribe_stops_the_calls
  (key : string) (cb : nat) (cs : list Call) (s : State) :
  Forall (λ c, ¬ resubscribes key cb c) cs →
  ∃ added,
    invocations (trace (run cs (unsubscribe key cb s).2))
    = invocations (trace s) ++ added
    ∧ ∀ newValue oldValue, (cb, newValue, oldValue, key) ∉ added.
Proof.
  intros Hcs.
  assert (cb ∉ subscribers_of key (this (unsubscribe key cb s).2)) as Hout.
  { rewrite unsubscribe_members. intuition. }
  assert (trace (unsubscribe key cb s).2 = trace s) as <-.
  { by destruct (unsubscribe_run key cb s) as (s' & -> & _ & _ & Htr & _). }
  generalize dependent (unsubscribe key cb s).2. clear s.
  induction cs as [|c cs IH]; intros s Hout.
  { exists []. split; [by rewrite app_nil_r|]. intros ? ?. apply not_elem_of_nil. }
  apply Forall_cons in Hcs as [Hc Hcs].
  change (run (c :: cs) s) with (run cs (exec c s)).
  destruct (IH Hcs (exec c s)) as (later & Hlater & Hnone).
  { intros Hsub. apply Hout. by eapply exec_not_resubscribed. }
  destruct (exec_calls_subscribers c s) as (added & Hadd & Hto).
  exists (added ++ later). split.
  - by rewrite Hlater, Hadd, app_assoc.
  - intros newValue oldValue [Hin|Hin]%elem_of_app.
    + destruct Hout. by eapply Hto.
    + by eapply Hnone.
Qed.

(** *** The registry stays tidy *)

Lemma subscribe_tidy key cb (s : State) :
  tidy (this s) → tidy (this (subscribe key cb s).2).
Proof.
  intros Ht. destruct (subscribe_run key cb s) as (s' & -> & _ & _ & _ & Hsubs).
  cbn [snd]. intros k l. rewrite Hsubs. clear Hsubs.
  destruct (decide (key = k)) as [->|Hne].
  - rewrite lookup_insert_eq. intros [= <-].
    unfold subscribers_of. destruct (subscribers (this s) !! k) as [l0|] eqn:Hl0; cbn.
    + destruct (Ht k l0 Hl0) as [Hne Hnd]. case_bool_decide as Hin; [done|].
      split; [by destruct l0|]. apply NoDup_app. split_and!; [done| |apply NoDup_singleton].
      intros x Hx ->%list_elem_of_singleton. done.
    + rewrite bool_decide_eq_false_2 by apply not_elem_of_nil.
      split; [done|apply NoDup_singleton].
  - rewrite lookup_insert_ne by done. apply Ht.
Qed.

Lemma unsubscribe_tidy key cb (s : State) :
  tidy (this s) → tidy (this (unsubscribe key cb s).2).
Proof.
  intros Ht. destruct (unsubscribe_run key cb s) as (s' & -> & _ & _ & _ & Hsubs).
  cbn [snd]. intros k l. rewrite Hsubs. clear Hsubs.
  destruct (subscribers (this s) !! key) as [l0|] eqn:Hl0; [|apply Ht].
  case_bool_decide as Hlen.
  - destruct (decide (key = k)) as [->|Hne]; [by rewrite lookup_delete_eq|].
    rewrite lookup_delete_ne by done. apply Ht.
  - destruct (decide (key = k)) as [->|Hne].
    + rewrite lookup_insert_eq. intros [= <-]. split.
      * intros Hnil. by rewrite Hnil in Hlen.
      * apply NoDup_filter. by apply (Ht k l0).
    + rewrite lookup_insert_ne by done. apply Ht.
Qed.

Lemma exec_tidy (c : Call) (s : State) : tidy (this s) → tidy (this (exec c s)).
Proof.
  intros Ht. destruct c as [k v n|us n|k cb|k cb|ks cb|ks cb|m| |]; cbn [exec].
  - by destruct (setState_frame k v n s) as [-> _].
  - by destruct (setMultipleStates_frame us n s) as [-> _].
  - by apply subscribe_tidy.
  - by apply unsubscribe_tidy.
  - unfold subscribeToMultiple. revert s Ht. induction ks as [|k ks IH]; intros s Ht; [done|].
    cbn [for_each]. unfold bind. pose proof (subscribe_tidy k cb s Ht) as H1.
    destruct (subscribe_run k cb s) as (s1 & Hrun & _). rewrite Hrun in H1 |- *.
    by apply IH.
  - unfold unsubscribeFromMultiple. revert s Ht.
    induction ks as [|k ks IH]; intros s Ht; [done|].
    cbn [for_each]. unfold bind. pose proof (unsubscribe_tidy k cb s Ht) as H1.
    destruct (unsubscribe_run k cb s) as (s1 & Hrun & _). rewrite Hrun in H1 |- *.
    by apply IH.
  - done.
  - by destruct (saveStateToStorage_frame s) as [-> _].
  - by destruct (restoreStateFromStorage_frame s) as [-> _].
Qed.

(** X7. From a store without subscribers, whatever calls are made, the
    registry never holds a key with an empty set, nor a set with the same
    function twice: a function subscribed twice to a key is called once per
    change. *)
Theorem registry_stays_tidy (cs : list Call) (s : State) :
  subscribers (this s) = ∅ →
  tidy (this (run cs s)).
Proof.
  intros Hempty.
  assert (tidy (this s)) as Ht.
  { intros k l. by rewrite Hempty, lookup_empty. }
  clear Hempty. revert s Ht. induction cs as [|c cs IH]; intros s Ht; [done|].
  change (run (c :: cs) s) with (run cs (exec c s)). by apply IH, exec_tidy.
Qed.

(** X8. Round trip: in a tidy registry, subscribing a function that is not
    yet subscribed to the key and then calling the function that
    [subscribe] returned gives back the registry as it was, the entry of the
    key removed again if it did not exist. *)
Theorem subscribe_then_unsubscribe
  (key : string) (cb : nat) (s : State) :
  tidy (this s) →
  cb ∉ subscribers_of key (this s) →
  this (unsubscribe key cb (subscribe key cb s).2).2 = this s.
Proof.
  intros Ht Hnew.
  destruct (subscribe_run key cb s) as (s1 & -> & Hm1 & _ & _ & Hs1). cbn [snd].
  destruct (unsubscribe_run key cb s1) as (s2 & -> & Hm2 & _ & _ & Hs2). cbn [snd].
  assert (subscribers (this s2) = subscribers (this s)) as Hsubs.
  { rewrite Hs2, Hs1, lookup_insert_eq.
    rewrite (bool_decide_eq_false_2 (cb ∈ subscribers_of key (this s))) by done.
    assert (filter (λ c, c ≠ cb) (subscribers_of key (this s) ++ [cb])
            = subscribers_of key (this s)) as ->.
    { rewrite filter_app, (filter_cons_False _ cb []), filter_nil, app_nil_r by tauto.
      generalize (subscribers_of key (this s)) Hnew. clear.
      induction l as [|x l IH]; intros Hnew; [done|].
      apply not_elem_of_cons in Hnew as [Hx Hl].
      rewrite filter_cons_True by done. by rewrite IH. }
    unfold subscribers_of in *.
    destruct (subscribers (this s) !! key) as [l|] eqn:Hl; cbn.
    - destruct (Ht key l Hl) as [Hne _].
      rewrite (bool_decide_eq_false_2 (length l = 0%nat)) by (by destruct l).
      rewrite insert_insert_eq. by apply insert_id.
    - rewrite (bool_decide_eq_true_2 (length (@nil nat) = 0%nat)) by done.
      rewrite delete_insert_eq. by apply delete_id. }
  destruct (this s2), (this s). cbn in *. congruence.
Qed.

(** *** Saving to the storage *)

Lemma deliver_localStorage key newValue oldValue cb (s : State) :
  no_storage_writers →
  localStorage (memory (deliver key newValue oldValue cb s).2) = localStorage (memory s).
Proof.
  intros Hno. unfold deliver, call. eff. cbn.
  pose proof (Hno cb newValue oldValue key (memory s)) as Hcb.
  by destruct (callback cb newValue oldValue key (memory s)) as [[[]|e] m].
Qed.

Lemma notifySubscribers_localStorage key newValue oldValue (s : State) :
  no_storage_writers →
  localStorage (memory (notifySubscribers key newValue oldValue s).2)
  = localStorage (memory s).
Proof.
  intros Hno. unfold notifySubscribers, bind, gets.
  destruct (subscribers (this s) !! key) as [cbs|]; [|done].
  case_bool_decide as Hlen; [|done]. clear Hlen.
  change (localStorage (memory (for_each cbs (deliver key newValue oldValue) s).2)
          = localStorage (memory s)).
  revert s. induction cbs as [|cb cbs IH]; intros s; [done|].
  cbn [for_each]. unfold bind at 1.
  pose proof (deliver_localStorage key newValue oldValue cb s Hno) as Hcb.
  destruct (deliver_run key newValue oldValue cb s) as (s1 & Hrun & _).
  rewrite Hrun in Hcb |- *. cbn [snd] in Hcb. rewrite <- Hcb. apply IH.
Qed.

(** The store before [autoSave] runs, in a [setState] whose chain made [p]. *)
Lemma setState_then_autoSave key value notify (s : State) p :
  no_storage_writers →
  reduce (middleware (this s)) key value (getState key s) = Normal p →
  ∃ s2, setState key value notify s = autoSave key p s2
        ∧ localStorage (memory s2) = localStorage (memory s)
        ∧ (readers ∨ notify = false →
           state (memory s2) = state (put key p (memory s))).
Proof.
  intros Hno Hred. unfold setState, applyMiddleware, lift, assign, observe, mainLogger. eff.
  rewrite Hred. cbn. fold (stored key p s).
  assert (localStorage (memory (stored key p s)) = localStorage (memory s)) as Hput
    by apply put_localStorage.
  destruct (notify && strict_neq (getState key s) p) eqn:Hn.
  - pose proof (notifySubscribers_localStorage key p (getState key s) (stored key p s) Hno)
      as Hls.
    destruct (notifySubscribers_run key p (getState key s) (stored key p s))
      as (s2 & Hrun & Hnot & _).
    rewrite Hrun in Hls |- *. cbn [snd] in Hls. exists s2.
    split; [done|]. split; [congruence|].
    intros [Hr| ->]; [|done]. destruct Hnot as (_ & _ & _ & Hkeep & _).
    by destruct (Hkeep Hr) as [-> _].
  - exists (stored key p s). by split_and!.
Qed.

(** The keys of the list are ordinary property names. *)
Lemma autoSaveKeys_plain key : key ∈ autoSaveKeys → key ≠ "__proto__".
Proof.
  unfold autoSaveKeys. intros Hkey ->. set_unfold. by destruct Hkey as [|[|[|[]]]].
Qed.

(** X9. A save that fails does not fail the write: for a key of the list,
    when [JSON.stringify] throws on the new value or the storage has no room
    for it, [setState] still returns, the storage is as it was, and (with
    subscribers that only read, or without notification) the state object
    holds the new value.  The subscribers leave the storage alone and no
    error report is filed. *)
Theorem setState_survives_a_failed_save
  (key : string) (value : Value) (notify : bool) (s : State) (p : Value) :
  no_storage_writers →
  files_no_report key notify s →
  readers ∨ notify = false →
  key ∈ autoSaveKeys →
  reduce (middleware (this s)) key value (getState key s) = Normal p →
  (is_throw (JSON_stringify p) = true
   ∨ ∃ json, JSON_stringify p = Normal json
             ∧ ¬ (Storage.used (<["oudar-" +:+ key := json]>
                                  (Storage.items (localStorage (memory s))))
                  <= Storage.quota (localStorage (memory s)))%nat) →
  ∃ s', setState key value notify s = (Normal tt, s')
        ∧ localStorage (memory s') = localStorage (memory s)
        ∧ state (memory s') = <[key := p]> (state (memory s)).
Proof.
  intros Hno _ Hr Hkey Hred Hfail.
  destruct (setState_then_autoSave key value notify s p Hno Hred) as (s2 & -> & Hls & Hst).
  specialize (Hst Hr). rewrite put_plain in Hst by (by apply autoSaveKeys_plain).
  cbn [state] in Hst.
  unfold autoSave. rewrite bool_decide_eq_true_2 by done.
  unfold lift, with_localStorage, Storage.setItem, mainLogger. eff.
  destruct Hfail as [Hthrow|(json & Hjson & Hroom)].
  - destruct (JSON_stringify p) as [json|e]; [done|]. cbn. eexists. by split_and!.
  - rewrite Hjson. cbn. rewrite Hls. rewrite bool_decide_eq_false_2 by done. cbn.
    eexists. by split_and!.
Qed.

(** X10. What reaches the storage: with subscribers that leave the storage
    alone and no error report filed, a [setState] on a key outside the list
    leaves the storage as it was; on a key of the list, with a value that [JSON] prints and room for
    it, it leaves the printed value under [oudar-key], whether the value
    changed or not and whatever [notify] is, and touches no other item. *)
Theorem setState_saves_the_listed_keys
  (key : string) (value : Value) (notify : bool) (s : State) (p : Value) :
  no_storage_writers →
  files_no_report key notify s →
  reduce (middleware (this s)) key value (getState key s) = Normal p →
  (key ∉ autoSaveKeys →
   localStorage (memory (setState key value notify s).2) = localStorage (memory s))
  ∧ (key ∈ autoSaveKeys →
     ∀ json, JSON_stringify p = Normal json →
       (Storage.used (<["oudar-" +:+ key := json]>
                        (Storage.items (localStorage (memory s))))
        <= Storage.quota (localStorage (memory s)))%nat →
       Storage.items (localStorage (memory (setState key value notify s).2))
       = <["oudar-" +:+ key := json]> (Storage.items (localStorage (memory s)))).
Proof.
  intros Hno _ Hred.
  destruct (setState_then_autoSave key value notify s p Hno Hred) as (s2 & -> & Hls & _).
  unfold autoSave. split.
  - intros Hkey. by rewrite bool_decide_eq_false_2.
  - intros Hkey json Hjson Hroom. rewrite bool_decide_eq_true_2 by done.
    unfold lift, with_localStorage, Storage.setItem. eff. rewrite Hjson. cbn.
    rewrite Hls. rewrite bool_decide_eq_true_2 by done. done.
Qed.

(** X11. Dark mode survives a reload: after [setState("darkMode", value)]
    has saved the post-middleware value [p], [getStoredDarkMode] (which the
    constructor calls) gives [p] back, provided [JSON.parse] undoes
    [JSON.stringify] on it, the subscribers leave the storage alone and no
    error report is filed; it gives [false] when nothing is stored and when
    what is stored does not parse. *)
Theorem darkMode_is_read_back
  (JSON_parse_value : string → Completion Value)
  (value : Value) (notify : bool) (s : State) (p : Value) (json : string) :
  no_storage_writers →
  files_no_report "darkMode" notify s →
  reduce (middleware (this s)) "darkMode" value (getState "darkMode" s) = Normal p →
  JSON_stringify p = Normal json →
  json ≠ "" →
  JSON_parse_value json = Normal p →
  (Storage.used (<["oudar-darkMode" := json]> (Storage.items (localStorage (memory s))))
   <= Storage.quota (localStorage (memory s)))%nat →
  getStoredDarkMode JSON_parse_value
    (localStorage (memory (setState "darkMode" value notify s).2)) = p
  ∧ (∀ st, Storage.getItem "oudar-darkMode" st = None →
           getStoredDarkMode JSON_parse_value st = VBool false)
  ∧ (∀ st stored, Storage.getItem "oudar-darkMode" st = Some stored →
           is_throw (JSON_parse_value stored) = true →
           getStoredDarkMode JSON_parse_value st = VBool false).
Proof.
  intros Hno _ Hred Hjson Hne Hparse Hroom. split_and!.
  - destruct (setState_then_autoSave "darkMode" value notify s p Hno Hred)
      as (s2 & -> & Hls & _).
    unfold autoSave. rewrite bool_decide_eq_true_2 by (by apply (bool_decide_unpack _)).
    unfold lift, with_localStorage, Storage.setItem. eff. rewrite Hjson. cbn.
    rewrite Hls. change ("oudar-" +:+ "darkMode") with "oudar-darkMode".
    rewrite bool_decide_eq_true_2 by done.
    unfold getStoredDarkMode, Storage.getItem. cbn.
    rewrite lookup_insert_eq, bool_decide_eq_false_2 by done. by rewrite Hparse.
  - intros st Hnone. unfold getStoredDarkMode. by rewrite Hnone.
  - intros st stored Hsome Hthrow. unfold getStoredDarkMode. rewrite Hsome.
    case_bool_decide; [done|]. by destruct (JSON_parse_value stored).
Qed.

(** X25. The cookie preferences that [setState] saves are not the ones the
    constructor reads: [autoSave] writes the item [oudar-cookiePreferences],
    [getStoredCookiePreferences] reads the item [cookie-preferences].  So no
    [setState], on any key, changes what [getStoredCookiePreferences]
    returns (the subscribers leave the storage alone and no error report is
    filed); with nothing under [cookie-preferences] it returns the defaults,
    whatever was saved. *)
Theorem cookie_preferences_are_not_read_back
  (JSON_parse_value : string → Completion Value)
  (key : string) (value : Value) (notify : bool) (s : State) :
  no_storage_writers →
  files_no_report key notify s →
  getStoredCookiePreferences JSON_parse_value
    (localStorage (memory (setState key value notify s).2))
  = getStoredCookiePreferences JSON_parse_value (localStorage (memory s))
  ∧ (Storage.getItem PREFERENCES_KEY (localStorage (memory s)) = None →
     getStoredCookiePreferences JSON_parse_value
       (localStorage (memory (setState key value notify s).2)) = Defaults).
Proof.
  intros Hno _.
  assert (Storage.getItem PREFERENCES_KEY (localStorage (memory (setState key value notify s).2))
          = Storage.getItem PREFERENCES_KEY (localStorage (memory s))) as Hsame.
  { destruct (reduce (middleware (this s)) key value (getState key s)) as [p|e] eqn:Hred;
      [|by rewrite (setState_middleware_throws key value notify s e Hred)].
    destruct (setState_then_autoSave key value notify s p Hno Hred) as (s2 & -> & Hls & _).
    rewrite <- Hls. unfold autoSave. case_bool_decide; [|done].
    unfold lift, with_localStorage, Storage.setItem, mainLogger. eff.
    destruct (JSON_stringify p) as [json|e]; cbn; [|done].
    case_bool_decide; cbn; [|done].
    unfold Storage.getItem. cbn. by apply lookup_insert_ne. }
  unfold getStoredCookiePreferences. rewrite Hsame. split; [done|].
  by intros ->.
Qed.

(** The state object after [setMultipleStates], with subscribers that only
    read. *)
Lemma setMultipleStates_state post updates notify (s : State) :
  readers →
  NoDup updates.*1 →
  "__proto__" ∉ updates.*1 →
  (∀ k v, (k, v) ∈ updates →
     reduce (middleware (this s)) k v (getState k s) = Normal (post k v)) →
  ∃ s', setMultipleStates updates notify s = (Normal tt, s')
        ∧ state (memory s') = written post (state (memory s)) updates
        ∧ prototype (memory s') = prototype (memory s).
Proof.
  intros Hr Hnd Hplain Hred. unfold setMultipleStates, mainLogger. eff.
  rewrite (update_each_run post updates [] s Hnd Hplain Hred). cbn.
  destruct notify; cbn; [|by eexists].
  match goal with |- context [for_each ?cs _ ?s0] =>
    destruct (notify_all cs s0) as (s3 & -> & Hn) end.
  destruct Hn as (_ & _ & _ & Hkeep & _). destruct (Hkeep Hr) as [Hst Hpr].
  by eexists.
Qed.

(** X12. The snapshot round trip: when [saveStateToStorage] could print
    the three fields and store them, a [restoreStateFromStorage] on a store
    that finds this item (a later page, say), has no middleware and whose
    subscribers only read, returns with the three fields as they were when
    saved and every other field as it was, provided [JSON.parse] undoes
    [JSON.stringify] on the snapshot. *)
Theorem restore_brings_back_what_was_saved (s s2 : State) (json : string) :
  readers →
  JSON_stringify_object (snapshot s) = Normal json →
  json ≠ "" →
  JSON_parse json = Normal (snapshot s) →
  (Storage.used (<["oudar-app-state" := json]> (Storage.items (localStorage (memory s))))
   <= Storage.quota (localStorage (memory s)))%nat →
  middleware (this s2) = [] →
  Storage.getItem "oudar-app-state" (localStorage (memory s2))
  = Storage.getItem "oudar-app-state" (localStorage (memory (saveStateToStorage s).2)) →
  ∃ s3, restoreStateFromStorage s2 = (Normal tt, s3)
        ∧ (∀ k, k ∈ autoSaveKeys → getState k s3 = getState k s)
        ∧ (∀ k, k ∉ autoSaveKeys → getState k s3 = getState k s2).
Proof.
  intros Hr Hjson Hne Hparse Hroom Hmw Hitem.
  assert (Storage.getItem "oudar-app-state" (localStorage (memory s2)) = Some json)
    as Hget.
  { rewrite Hitem. unfold saveStateToStorage, lift, with_localStorage, Storage.setItem,
      mainLogger. eff. fold (snapshot s). rewrite Hjson. cbn.
    rewrite bool_decide_eq_true_2 by done. cbn.
    unfold Storage.getItem. cbn. apply lookup_insert_eq. }
  clear Hitem.
  assert (NoDup (snapshot s).*1) as Hnd.
  { cbn. repeat (apply NoDup_cons; split; [set_unfold; intuition congruence|]).
    apply NoDup_nil_2. }
  assert ("__proto__" ∉ (snapshot s).*1) as Hplain.
  { cbn. set_unfold. intuition congruence. }
  destruct (setMultipleStates_state (λ _ v, v) (snapshot s) true s2 Hr Hnd Hplain)
    as (s3 & Hrun & Hst & Hpr).
  { intros k v _. by rewrite Hmw. }
  unfold restoreStateFromStorage, lift, mainLogger, try_catch, bind, get, modify.
  rewrite Hget, bool_decide_eq_false_2 by done. rewrite Hparse, Hrun.
  eexists. split; [done|]. unfold getState. split.
  - intros k Hk.
    assert (∃ v, (k, v) ∈ snapshot s ∧ v = getState k s) as (v & Hin & Hv).
    { unfold autoSaveKeys in Hk. set_unfold.
      destruct Hk as [->|[->|[->|[]]]]; eexists; (split; [|done]); cbn; set_unfold; eauto. }
    rewrite (read_own _ _ v); [by rewrite Hv|].
    cbn [snd memory]. rewrite Hst.
    by rewrite (written_lookup (λ _ v, v) _ _ k _ Hnd Hin).
  - intros k Hk. apply read_ext; cbn [snd memory]; [|done].
    rewrite Hst. rewrite written_notin; [done|].
    intros Hin. apply Hk. unfold autoSaveKeys. cbn in Hin. exact Hin.
Qed.

End WithProgram.

(** *** Three ways to be notified twice *)

(** With the middleware [accumulate], which is a function of its arguments,
    the subscriber of [count] is called by the first [setState("count", 1)]
    and again by the second. *)
Lemma setState_twice_notifies_twice :
  let s := TestApp.store ∅ {["count" := [0%nat]]} [TestApp.accumulate] in
  let s1 := (setState "count" (VNum 1) true s).2 in
  let s2 := (setState "count" (VNum 1) true s1).2 in
  (setState "count" (VNum 1) true s).1 = Normal tt
  ∧ (setState "count" (VNum 1) true s1).1 = Normal tt
  ∧ invocations (trace s1) = [(0%nat, VNum 1, VUndefined, "count")]
  ∧ invocations (trace s2)
    = [(0%nat, VNum 1, VUndefined, "count"); (0%nat, VNum 2, VNum 1, "count")].
Proof. vm_compute. done. Qed.

(** Without any middleware, a subscriber that sets the value back during
    the first notification (here [3], which puts [count] back to zero) is
    called again by the second [setState]. *)
Lemma setState_rewritten_notifies_twice :
  let s := TestApp.store ∅ {["count" := [3%nat]]} [] in
  let s1 := (setState "count" (VNum 1) true s).2 in
  let s2 := (setState "count" (VNum 1) true s1).2 in
  invocations (trace s1) = [(3%nat, VNum 1, VUndefined, "count")]
  ∧ invocations (trace s2)
    = [(3%nat, VNum 1, VUndefined, "count"); (3%nat, VNum 1, VNum 0, "count")].
Proof. vm_compute. done. Qed.

(** Without any middleware, [NaN] is notified every time. *)
Lemma setState_NaN_notifies_twice :
  let s := TestApp.store ∅ {["x" := [0%nat]]} [] in
  let s1 := (setState "x" VNaN true s).2 in
  let s2 := (setState "x" VNaN true s1).2 in
  invocations (trace s1) = [(0%nat, VNaN, VUndefined, "x")]
  ∧ invocations (trace s2)
    = [(0%nat, VNaN, VUndefined, "x"); (0%nat, VNaN, VNaN, "x")].
Proof. vm_compute. done. Qed.

(** On the key [__proto__], without any middleware and with a subscriber
    that returns at once, the subscriber is called by the first
    [setState("__proto__", 1)] and again by the second: the number is not
    kept, the old value is the prototype both times. *)
Lemma setState_proto_notifies_twice :
  let s := TestApp.store ∅ {["__proto__" := [0%nat]]} [] in
  let s1 := (setState "__proto__" (VNum 1) true s).2 in
  let s2 := (setState "__proto__" (VNum 1) true s1).2 in
  invocations (trace s1) = [(0%nat, VNum 1, Object_prototype, "__proto__")]
  ∧ invocations (trace s2)
    = [(0%nat, VNum 1, Object_prototype, "__proto__");
       (0%nat, VNum 1, Object_prototype, "__proto__")].
Proof. vm_compute. done. Qed.

Lemma bystanders_readers : @readers TestApp.bystanders.
Proof. intros cb n o k m. cbn. by destruct cb as [|[|cb]]. Defined.

Lemma setState_twice_witness :
  let s := TestApp.store ∅ {["darkMode" := [0%nat; 1%nat]]} [] in
  "darkMode" ≠ "__proto__"
  ∧ @readers TestApp.bystanders
  ∧ reduce (middleware (this s)) "darkMode" (VBool true) (getState "darkMode" s)
    = Normal (VBool true)
  ∧ reduce (middleware (this s)) "darkMode" (VBool true) (VBool true)
    = Normal (VBool true)
  ∧ strict_eq (VBool true) (VBool true) = true
  ∧ ∃ s1 s2,
      @setState TestApp.bystanders "darkMode" (VBool true) true s = (Normal tt, s1)
      ∧ @setState TestApp.bystanders "darkMode" (VBool true) true s1 = (Normal tt, s2)
      ∧ invocations (trace s2) = invocations (trace s1).
Proof.
  intros s.
  assert (reduce (middleware (this s)) "darkMode" (VBool true) (getState "darkMode" s)
          = Normal (VBool true)) as Hfirst by reflexivity.
  assert (reduce (middleware (this s)) "darkMode" (VBool true) (VBool true)
          = Normal (VBool true)) as Hsecond by reflexivity.
  assert (strict_eq (VBool true) (VBool true) = true) as Hsame by reflexivity.
  assert ("darkMode" ≠ "__proto__") as Hkey by discriminate.
  split; [exact Hkey|].
  split; [exact bystanders_readers|]. split; [exact Hfirst|]. split; [exact Hsecond|].
  split; [exact Hsame|].
  destruct (@setState_twice_notifies_at_most_once TestApp.bystanders
              "darkMode" (VBool true) true true s (VBool true) (VBool true)
              Hkey bystanders_readers Hfirst Hsecond Hsame)
    as (s1 & s2 & once & H1 & H2 & _ & _ & H3).
  exists s1, s2. exact (conj H1 (conj H2 H3)).
Defined.

(** *** C1 on the example of the specification *)


(** On that example the calls owed are one to the subscriber of [a] and one
    to the subscriber of [b], and the subscriber of [a] finds [b] at [2]. *)
Lemma setMultipleStates_example :
  let s := TestApp.store ∅ {["a" := [2%nat]; "b" := [0%nat]]} [] in
  let s' := (setMultipleStates [("a", VNum 1); ("b", VNum 2)] true s).2 in
  invocations (trace s')
  = [(2%nat, VNum 1, VUndefined, "a"); (0%nat, VNum 2, VUndefined, "b")]
  ∧ getState "seen" s' = VNum 2.
Proof. vm_compute. done. Qed.


(** A subscriber called after one that writes the state object sees what
    that one wrote: of the two subscribers of [a], the first puts [count]
    back to zero and the second then reads [count] as [0], not as the [5]
    of the update. *)
Lemma setMultipleStates_overwritten_is_seen :
  let s := TestApp.store ∅ {["a" := [3%nat; 5%nat]]} [] in
  let s' := (setMultipleStates [("a", VNum 1); ("count", VNum 5)] true s).2 in
  invocations (trace s')
  = [(3%nat, VNum 1, VUndefined, "a"); (5%nat, VNum 1, VUndefined, "a")]
  ∧ getState "seen" s' = VNum 0.
Proof. vm_compute. done. Qed.

(** *** C8 on a key with three subscribers, the second of which throws *)


(** On that example the call adds one line to the console, the error line
    for the second subscriber, and the two others have been called. *)
Lemma subscriber_errors_example :
  let s := TestApp.store {["darkMode" := VBool false]}
             {["darkMode" := [0%nat; 1%nat; 2%nat]]} [] in
  let s' := (setState "darkMode" (VBool true) true s).2 in
  Logger.printed (console s') = [subscriber_error "darkMode"]
  ∧ invocations (trace s')
    = [(0%nat, VBool true, VBool false, "darkMode");
       (1%nat, VBool true, VBool false, "darkMode");
       (2%nat, VBool true, VBool false, "darkMode")].
Proof. vm_compute. done. Qed.

(** ** C4 *)

(** C4 fails on [setMultipleStates]. Starting with [darkMode] at [false] and
    an empty storage, [setMultipleStates({darkMode: true})] changes the
    value and writes nothing to the storage, where [setState("darkMode",
    true)] writes the item [oudar-darkMode]. *)
Theorem setMultipleStates_skips_autoSave :
  let s := TestApp.store {["darkMode" := VBool false]} ∅ [] in
  let s1 := (setMultipleStates [("darkMode", VBool true)] true s).2 in
  let s2 := (setState "darkMode" (VBool true) true s).2 in
  getState "darkMode" s = VBool false
  ∧ getState "darkMode" s1 = VBool true
  ∧ Storage.getItem "oudar-darkMode" (localStorage (memory s1)) = None
  ∧ getState "darkMode" s2 = VBool true
  ∧ Storage.getItem "oudar-darkMode" (localStorage (memory s2)) = Some "true".
Proof. vm_compute. done. Qed.

(** ** Examples for the further properties *)

Lemma app_no_storage_writers : @no_storage_writers TestApp.app.
Proof. intros cb n o k m. cbn. by destruct cb as [|[|[|[|[|[|cb]]]]]]. Defined.

Lemma bystanders_no_storage_writers : @no_storage_writers TestApp.bystanders.
Proof. intros cb n o k m. cbn. by destruct cb as [|[|cb]]. Defined.

Lemma archive_readers : @readers TestApp.archive.
Proof. by intros cb n o k m. Defined.

Lemma setState_calls_witness :
  let s := TestApp.store {["darkMode" := VBool false]}
             {["darkMode" := [0%nat; 1%nat; 2%nat]]} [] in
  reduce (middleware (this s)) "darkMode" (VBool true) (getState "darkMode" s)
  = Normal (VBool true)
  ∧ ∃ s', setState "darkMode" (VBool true) true s = (Normal tt, s')
          ∧ this s' = this s
          ∧ invocations (trace s')
            = invocations (trace s)
              ++ (if true && strict_neq (getState "darkMode" s) (VBool true)
                  then (λ cb, (cb, VBool true, getState "darkMode" s, "darkMode"))
                         <$> subscribers_of "darkMode" (this s)
                  else []).
Proof.
  intros s.
  assert (reduce (middleware (this s)) "darkMode" (VBool true) (getState "darkMode" s)
          = Normal (VBool true)) as Hred by reflexivity.
  exact (conj Hred (setState_calls_exactly "darkMode" (VBool true) true s (VBool true) Hred)).
Defined.

Lemma setState_writes_witness :
  let s := TestApp.store {["count" := VNum 1]} {["count" := [0%nat; 1%nat]]}
             [TestApp.accumulate] in
  @readers TestApp.bystanders
  ∧ reduce (middleware (this s)) "count" (VNum 2) (getState "count" s) = Normal (VNum 3)
  ∧ "count" ≠ "__proto__"
  ∧ state (memory (@setState TestApp.bystanders "count" (VNum 2) true s).2)
    = <["count" := VNum 3]> (state (memory s))
  ∧ prototype (memory (@setState TestApp.bystanders "count" (VNum 2) true s).2)
    = prototype (memory s).
Proof.
  intros s.
  assert (reduce (middleware (this s)) "count" (VNum 2) (getState "count" s)
          = Normal (VNum 3)) as Hred by reflexivity.
  assert ("count" ≠ "__proto__") as Hkey by discriminate.
  split; [exact bystanders_readers|]. split; [exact Hred|]. split; [exact Hkey|].
  exact (proj1 (@setState_writes_one_field TestApp.bystanders "count" (VNum 2) true s
                  (VNum 3) bystanders_readers Hred) Hkey).
Defined.

(** On the key [__proto__] the number is dropped: the state object has no
    field more, and reads [__proto__] as its prototype. *)
Lemma setState_proto_is_not_kept :
  let s := TestApp.store {["count" := VNum 1]} ∅ [] in
  let s' := (@setState TestApp.bystanders "__proto__" (VNum 7) true s).2 in
  state (memory s') = state (memory s)
  ∧ prototype (memory s') = prototype (memory s)
  ∧ getState "__proto__" s' = Object_prototype.
Proof. vm_compute. done. Qed.

Lemma setMultipleStates_stops_witness :
  let s := TestApp.store {["scrollY" := VNum 5]} {["viewportWidth" := [0%nat]]}
             [TestApp.no_negative] in
  let before := [("viewportWidth", VNum 800)] in
  let after := [("viewportHeight", VNum 600)] in
  NoDup (before ++ [("scrollY", VNum (-1))]).*1
  ∧ ("__proto__" ∉ before.*1)
  ∧ (∀ k' v', (k', v') ∈ before →
       reduce (middleware (this s)) k' v' (getState k' s) = Normal v')
  ∧ reduce (middleware (this s)) "scrollY" (VNum (-1)) (getState "scrollY" s)
    = Throw (VStr "negative")
  ∧ setMultipleStates (before ++ ("scrollY", VNum (-1)) :: after) true s
    = (Throw (VStr "negative"), updated (λ _ v, v) before s)
  ∧ getState "scrollY" (updated (λ _ v, v) before s) = getState "scrollY" s
  ∧ invocations (trace (updated (λ _ v, v) before s)) = invocations (trace s).
Proof.
  intros s before after.
  assert (NoDup (before ++ [("scrollY", VNum (-1))]).*1) as Hnd
    by (apply (bool_decide_unpack _); vm_compute; exact I).
  assert (∀ k' v', (k', v') ∈ before →
            reduce (middleware (this s)) k' v' (getState k' s) = Normal v') as Hpost.
  { intros k' v' Hin. apply list_elem_of_singleton in Hin. injection Hin as -> ->.
    reflexivity. }
  assert (reduce (middleware (this s)) "scrollY" (VNum (-1)) (getState "scrollY" s)
          = Throw (VStr "negative")) as Hthrow by reflexivity.
  assert ("__proto__" ∉ before.*1) as Hplain
    by (apply (bool_decide_unpack _); vm_compute; exact I).
  split; [exact Hnd|]. split; [exact Hplain|]. split; [exact Hpost|].
  split; [exact Hthrow|].
  destruct (setMultipleStates_stops_at_a_throw (λ _ v, v) before after "scrollY"
              (VNum (-1)) (VStr "negative") true s Hnd Hplain Hpost Hthrow)
    as (Hrun & _ & Hkept & Hinv).
  exact (conj Hrun (conj Hkept Hinv)).
Defined.

Lemma unsubscribe_stops_witness :
  let s0 := TestApp.store {["darkMode" := VBool false]}
              {["darkMode" := [0%nat; 2%nat]]} [] in
  let s := (setState "darkMode" (VBool true) true s0).2 in
  let cs := [CSetState "darkMode" (VBool false) true; CSubscribe "scrollY" 0%nat;
             CSetState "darkMode" (VBool true) true] in
  Forall (λ c, ¬ resubscribes "darkMode" 0%nat c) cs
  ∧ ∃ added,
      invocations (trace (run cs (unsubscribe "darkMode" 0%nat s).2))
      = invocations (trace s) ++ added
      ∧ ∀ newValue oldValue, (0%nat, newValue, oldValue, "darkMode") ∉ added.
Proof.
  intros s0 s cs.
  assert (Forall (λ c, ¬ resubscribes "darkMode" 0%nat c) cs) as Hcs.
  { apply Forall_cons. split; [by intros []|].
    apply Forall_cons. split; [by intros [[=] _]|].
    apply Forall_cons. split; [by intros []|]. apply Forall_nil_2. }
  exact (conj Hcs (unsubscribe_stops_the_calls "darkMode" 0%nat cs s Hcs)).
Defined.

(** On that example the first [setState] calls both subscribers, and the
    two after the unsubscription call the one that is left. *)
Lemma unsubscribe_stops_example :
  let s0 := TestApp.store {["darkMode" := VBool false]}
              {["darkMode" := [0%nat; 2%nat]]} [] in
  let s := (setState "darkMode" (VBool true) true s0).2 in
  let cs := [CSetState "darkMode" (VBool false) true; CSubscribe "scrollY" 0%nat;
             CSetState "darkMode" (VBool true) true] in
  invocations (trace s)
  = [(0%nat, VBool true, VBool false, "darkMode");
     (2%nat, VBool true, VBool false, "darkMode")]
  ∧ invocations (trace (run cs (unsubscribe "darkMode" 0%nat s).2))
    = invocations (trace s)
      ++ [(2%nat, VBool false, VBool true, "darkMode");
          (2%nat, VBool true, VBool false, "darkMode")].
Proof. vm_compute. done. Qed.

Lemma registry_stays_tidy_witness :
  let s := TestApp.store ∅ ∅ [] in
  let cs := [CSubscribe "darkMode" 0%nat; CSubscribe "darkMode" 0%nat;
             CSubscribeToMultiple ["darkMode"; "scrollY"] 1%nat;
             CUnsubscribe "scrollY" 1%nat; CSetState "darkMode" (VBool true) true] in
  subscribers (this s) = ∅ ∧ tidy (this (run cs s)).
Proof.
  intros s cs.
  assert (subscribers (this s) = ∅) as Hempty by reflexivity.
  exact (conj Hempty (registry_stays_tidy cs s Hempty)).
Defined.

Lemma subscribe_then_unsubscribe_witness :
  let s := TestApp.store ∅ {["darkMode" := [0%nat]]} [] in
  tidy (this s)
  ∧ (1%nat ∉ subscribers_of "darkMode" (this s))
  ∧ (1%nat ∉ subscribers_of "scrollY" (this s))
  ∧ this (unsubscribe "darkMode" 1%nat (subscribe "darkMode" 1%nat s).2).2 = this s
  ∧ this (unsubscribe "scrollY" 1%nat (subscribe "scrollY" 1%nat s).2).2 = this s.
Proof.
  intros s.
  assert (tidy (this s)) as Htidy.
  { intros k l Hl. cbn in Hl. apply lookup_singleton_Some in Hl as [_ <-].
    split; [done|]. apply (bool_decide_unpack _). vm_compute. exact I. }
  assert (1%nat ∉ subscribers_of "darkMode" (this s)) as Hfirst
    by (apply (bool_decide_unpack _); vm_compute; exact I).
  assert (1%nat ∉ subscribers_of "scrollY" (this s)) as Hsecond
    by (apply (bool_decide_unpack _); vm_compute; exact I).
  split; [exact Htidy|]. split; [exact Hfirst|]. split; [exact Hsecond|].
  exact (conj (subscribe_then_unsubscribe "darkMode" 1%nat s Htidy Hfirst)
              (subscribe_then_unsubscribe "scrollY" 1%nat s Htidy Hsecond)).
Defined.

Lemma failed_save_witness :
  let s := TestApp.store ∅ {["cookiePreferences" := [2%nat]]} [] in
  @no_storage_writers TestApp.app
  ∧ files_no_report "cookiePreferences" false s
  ∧ (@readers TestApp.app ∨ false = false)
  ∧ "cookiePreferences" ∈ autoSaveKeys
  ∧ reduce (middleware (this s)) "cookiePreferences" (VRef 7)
      (getState "cookiePreferences" s) = Normal (VRef 7)
  ∧ is_throw (JSON_stringify (VRef 7)) = true
  ∧ ∃ s', setState "cookiePreferences" (VRef 7) false s = (Normal tt, s')
          ∧ localStorage (memory s') = localStorage (memory s)
          ∧ state (memory s') = <["cookiePreferences" := VRef 7]> (state (memory s)).
Proof.
  intros s.
  assert ("cookiePreferences" ∈ autoSaveKeys) as Hkey
    by (apply (bool_decide_unpack _); vm_compute; exact I).
  assert (reduce (middleware (this s)) "cookiePreferences" (VRef 7)
            (getState "cookiePreferences" s) = Normal (VRef 7)) as Hred by reflexivity.
  assert (is_throw (JSON_stringify (VRef 7)) = true) as Hthrow by reflexivity.
  split; [exact app_no_storage_writers|]. split; [by left|]. split; [by right|].
  split; [exact Hkey|]. split; [exact Hred|]. split; [exact Hthrow|].
  exact (setState_survives_a_failed_save "cookiePreferences" (VRef 7) false s (VRef 7)
           app_no_storage_writers (or_introl eq_refl) (or_intror eq_refl) Hkey Hred
           (or_introl Hthrow)).
Defined.

Lemma listed_keys_witness :
  let s := TestApp.store {["currentLanguage" := VStr "fr"]}
             {["currentLanguage" := [0%nat; 2%nat]]} [] in
  @no_storage_writers TestApp.app
  ∧ files_no_report "currentLanguage" true s
  ∧ files_no_report "scrollY" true s
  ∧ reduce (middleware (this s)) "currentLanguage" (VStr "fr")
      (getState "currentLanguage" s) = Normal (VStr "fr")
  ∧ reduce (middleware (this s)) "scrollY" (VNum 10) (getState "scrollY" s)
    = Normal (VNum 10)
  ∧ "currentLanguage" ∈ autoSaveKeys
  ∧ ("scrollY" ∉ autoSaveKeys)
  ∧ Storage.items (localStorage (memory (setState "currentLanguage" (VStr "fr") true s).2))
    = <["oudar-currentLanguage" := "fr"]> (Storage.items (localStorage (memory s)))
  ∧ localStorage (memory (setState "scrollY" (VNum 10) true s).2)
    = localStorage (memory s).
Proof.
  intros s.
  assert (reduce (middleware (this s)) "currentLanguage" (VStr "fr")
            (getState "currentLanguage" s) = Normal (VStr "fr")) as Hfr by reflexivity.
  assert (reduce (middleware (this s)) "scrollY" (VNum 10) (getState "scrollY" s)
          = Normal (VNum 10)) as Hscroll by reflexivity.
  assert ("currentLanguage" ∈ autoSaveKeys) as Hin
    by (apply (bool_decide_unpack _); vm_compute; exact I).
  assert ("scrollY" ∉ autoSaveKeys) as Hout
    by (apply (bool_decide_unpack _); vm_compute; exact I).
  assert (files_no_report "currentLanguage" true s) as Hquiet.
  { right. right. intros cb newValue oldValue m Hcb.
    assert (cb = 0%nat ∨ cb = 2%nat) as [-> | ->]; [|reflexivity..].
    apply elem_of_cons in Hcb as [->|Hcb]; [by left|].
    apply list_elem_of_singleton in Hcb as ->. by right. }
  assert (files_no_report "scrollY" true s) as Hnobody.
  { right. right. intros cb newValue oldValue m Hcb. by apply elem_of_nil in Hcb. }
  split; [exact app_no_storage_writers|]. split; [exact Hquiet|]. split; [exact Hnobody|].
  split; [exact Hfr|]. split; [exact Hscroll|].
  split; [exact Hin|]. split; [exact Hout|]. split.
  - apply (proj2 (setState_saves_the_listed_keys "currentLanguage" (VStr "fr") true s
                    (VStr "fr") app_no_storage_writers Hquiet Hfr) Hin "fr").
    + reflexivity.
    + apply (bool_decide_unpack _). vm_compute. exact I.
  - exact (proj1 (setState_saves_the_listed_keys "scrollY" (VNum 10) true s (VNum 10)
                    app_no_storage_writers Hnobody Hscroll) Hout).
Defined.

Lemma darkMode_witness :
  let s := TestApp.store {["darkMode" := VBool false]} {["darkMode" := [0%nat]]} [] in
  @no_storage_writers TestApp.app
  ∧ files_no_report "darkMode" true s
  ∧ reduce (middleware (this s)) "darkMode" (VBool true) (getState "darkMode" s)
    = Normal (VBool true)
  ∧ JSON_stringify (VBool true) = Normal "true"
  ∧ "true" ≠ ""
  ∧ TestApp.parse_bool "true" = Normal (VBool true)
  ∧ (Storage.used (<["oudar-darkMode" := "true"]>
                     (Storage.items (localStorage (memory s))))
     <= Storage.quota (localStorage (memory s)))%nat
  ∧ getStoredDarkMode TestApp.parse_bool
      (localStorage (memory (setState "darkMode" (VBool true) true s).2)) = VBool true.
Proof.
  intros s.
  assert (reduce (middleware (this s)) "darkMode" (VBool true) (getState "darkMode" s)
          = Normal (VBool true)) as Hred by reflexivity.
  assert (JSON_stringify (VBool true) = Normal "true") as Hjson by reflexivity.
  assert ("true" ≠ "") as Hne by discriminate.
  assert (TestApp.parse_bool "true" = Normal (VBool true)) as Hparse by reflexivity.
  assert (Storage.used (<["oudar-darkMode" := "true"]>
                          (Storage.items (localStorage (memory s))))
          <= Storage.quota (localStorage (memory s)))%nat as Hroom
    by (apply (bool_decide_unpack _); vm_compute; exact I).
  assert (files_no_report "darkMode" true s) as Hquiet.
  { right. right. intros cb newValue oldValue m Hcb.
    apply list_elem_of_singleton in Hcb as ->. reflexivity. }
  split; [exact app_no_storage_writers|]. split; [exact Hquiet|]. split; [exact Hred|].
  split; [exact Hjson|].
  split; [exact Hne|]. split; [exact Hparse|]. split; [exact Hroom|].
  exact (proj1 (darkMode_is_read_back TestApp.parse_bool (VBool true) true s (VBool true)
                  "true" app_no_storage_writers Hquiet Hred Hjson Hne Hparse Hroom)).
Defined.

Lemma cookie_preferences_witness :
  let s := TestApp.store ∅ {["cookiePreferences" := [0%nat]]} [] in
  let s' := (setState "cookiePreferences" (VStr "all") true s).2 in
  @no_storage_writers TestApp.app
  ∧ files_no_report "cookiePreferences" true s
  ∧ Storage.getItem PREFERENCES_KEY (localStorage (memory s)) = None
  ∧ Storage.getItem "oudar-cookiePreferences" (localStorage (memory s')) = Some "all"
  ∧ getStoredCookiePreferences TestApp.parse_bool (localStorage (memory s')) = Defaults.
Proof.
  intros s s'.
  assert (files_no_report "cookiePreferences" true s) as Hquiet.
  { right. right. intros cb newValue oldValue m Hcb.
    apply list_elem_of_singleton in Hcb as ->. reflexivity. }
  assert (Storage.getItem PREFERENCES_KEY (localStorage (memory s)) = None) as Hnone
    by reflexivity.
  assert (Storage.getItem "oudar-cookiePreferences" (localStorage (memory s')) = Some "all")
    as Hsaved by (vm_compute; reflexivity).
  split; [exact app_no_storage_writers|]. split; [exact Hquiet|]. split; [exact Hnone|].
  split; [exact Hsaved|].
  exact (proj2 (cookie_preferences_are_not_read_back TestApp.parse_bool
                  "cookiePreferences" (VStr "all") true s app_no_storage_writers Hquiet)
           Hnone).
Defined.

Lemma restore_witness :
  let s := TestApp.store {["currentLanguage" := VStr "fr"; "darkMode" := VBool true;
                           "cookiePreferences" := VNull; "scrollY" := VNum 40]} ∅ [] in
  let s2 := TestApp.store {["currentLanguage" := VStr "en"; "scrollY" := VNum 0]}
              {["darkMode" := [0%nat]]} [] in
  let s2' := {| this := this s2;
                memory := {| state := state (memory s2);
                             prototype := prototype (memory s2);
                             localStorage :=
                               localStorage
                                 (memory (@saveStateToStorage TestApp.archive s).2) |};
                console := console s2;
                trace := trace s2 |} in
  @readers TestApp.archive
  ∧ @JSON_stringify_object TestApp.archive (snapshot s) = Normal "fr,true,null"
  ∧ "fr,true,null" ≠ ""
  ∧ @JSON_parse TestApp.archive "fr,true,null" = Normal (snapshot s)
  ∧ (Storage.used (<["oudar-app-state" := "fr,true,null"]>
                     (Storage.items (localStorage (memory s))))
     <= Storage.quota (localStorage (memory s)))%nat
  ∧ middleware (this s2') = []
  ∧ ∃ s3, @restoreStateFromStorage TestApp.archive s2' = (Normal tt, s3)
          ∧ (∀ k, k ∈ autoSaveKeys → getState k s3 = getState k s)
          ∧ (∀ k, k ∉ autoSaveKeys → getState k s3 = getState k s2').
Proof.
  intros s s2 s2'.
  assert (@JSON_stringify_object TestApp.archive (snapshot s) = Normal "fr,true,null")
    as Hjson by (vm_compute; reflexivity).
  assert ("fr,true,null" ≠ "") as Hne by discriminate.
  assert (@JSON_parse TestApp.archive "fr,true,null" = Normal (snapshot s)) as Hparse
    by (vm_compute; reflexivity).
  assert (Storage.used (<["oudar-app-state" := "fr,true,null"]>
                          (Storage.items (localStorage (memory s))))
          <= Storage.quota (localStorage (memory s)))%nat as Hroom
    by (apply (bool_decide_unpack _); vm_compute; exact I).
  assert (middleware (this s2') = []) as Hmw by reflexivity.
  split; [exact archive_readers|]. split; [exact Hjson|]. split; [exact Hne|].
  split; [exact Hparse|]. split; [exact Hroom|]. split; [exact Hmw|].
  exact (@restore_brings_back_what_was_saved TestApp.archive s s2' "fr,true,null"
           archive_readers Hjson Hne Hparse Hroom Hmw eq_refl).
Defined.

End StoreFacts.

(** ** The module loader *)

Module LoaderFacts.

Import Loader.

#[local] Arguments loadModule : simpl never.
#[local] Arguments loadModule_settled : simpl never.

(** *** The ways through [loadModule] *)

Lemma loadModule_loaded name cond (s : State) module :
  loadedModules (this s) !! name = Some module →
  loadModule name cond s
  = (Normal (Val module), logged (Logger.debug ("Module already loaded: " +:+ name)) s).
Proof. intros Hl. unfold loadModule. eff. by rewrite Hl. Qed.

Lemma loadModule_pending name cond (s : State) p :
  loadedModules (this s) !! name = None →
  pendingLoads (this s) !! name = Some p →
  loadModule name cond s
  = (Normal (Fut p), logged (Logger.debug ("Module loading in progress: " +:+ name)) s).
Proof. intros Hl Hp. unfold loadModule. eff. by rewrite Hl, Hp. Qed.

Lemma loadModule_exhausted name (s : State) :
  loadedModules (this s) !! name = None →
  pendingLoads (this s) !! name = None →
  exhausted name s →
  loadModule name always s
  = (Normal (Val VNull),
     logged (Logger.warn ("Module " +:+ name +:+ " failed too many times, skipping")) s).
Proof.
  intros Hl Hp [Hf Hr]. unfold loadModule. eff. rewrite Hl, Hp. cbn.
  rewrite !bool_decide_eq_true_2 by done. done.
Qed.

(** The state in which a load of [name] has just been started. *)
Lemma loadModule_starts name (s : State) :
  loadedModules (this s) !! name = None →
  pendingLoads (this s) !! name = None →
  ¬ exhausted name s →
  name ∈ moduleMap →
  loadModule name always s
  = (Normal (Await (promises s)),
     {| this := {| loadedModules := loadedModules (this s);
                   pendingLoads := <[name := promises s]> (pendingLoads (this s));
                   failedLoads := failedLoads (this s);
                   retryCount := retryCount (this s) |};
        promises := S (promises s);
        frames := frames s ++ [{| moduleName := name; modulePromise := promises s;
                                  fate := None |}];
        imported := imported s ++ [name];
        console := console s |}).
Proof.
  intros Hl Hp Hex Hreg. unfold loadModule. eff. rewrite Hl, Hp. cbn.
  destruct (bool_decide (name ∈ failedLoads (this s))
            && bool_decide (MAX_RETRIES <= retries_of (this s) name)%nat) eqn:Hb.
  { apply andb_prop in Hb as [Hf Hr]. destruct Hex.
    split; by eapply bool_decide_eq_true_1. }
  unfold dynamicImport, suspend. eff. rewrite bool_decide_eq_true_2 by done. done.
Qed.

(** *** A call about one module leaves the others alone *)

Lemma status_logged name f (s : State) : status name (logged f s) = status name s.
Proof. done. Qed.

Lemma loadModule_other n name cond (s : State) :
  n ≠ name → status name (loadModule n cond s).2 = status name s.
Proof.
  intros Hne. unfold loadModule. eff.
  destruct (loadedModules (this s) !! n); [done|].
  destruct (pendingLoads (this s) !! n); [done|].
  cbn. destruct (cond tt) as [[]|e]; cbn; [|done|done].
  destruct (_ && _); [done|].
  unfold dynamicImport, suspend. eff.
  case_bool_decide; cbn; unfold status, fetches; cbn.
  - rewrite lookup_insert_ne by done. rewrite !filter_app.
    rewrite (filter_cons_False _ _ []) by (by cbn).
    rewrite (filter_cons_False _ n []) by done. cbn. by rewrite !app_nil_r.
  - rewrite lookup_insert_ne by done. rewrite !filter_app.
    rewrite (filter_cons_False _ _ []) by (by cbn). cbn. by rewrite !app_nil_r.
Qed.

Lemma loadModule_settled_other n name outcome (s : State) :
  n ≠ name → status name (loadModule_settled n outcome s).2 = status name s.
Proof.
  intros Hne. unfold loadModule_settled. destruct outcome as [module|e]; eff;
    unfold status, fetches; cbn.
  - rewrite lookup_insert_ne, !lookup_delete_ne by done.
    f_equal. apply bool_decide_ext. rewrite elem_of_difference, elem_of_singleton.
    intuition congruence.
  - rewrite lookup_insert_ne, !lookup_delete_ne by done.
    f_equal. apply bool_decide_ext. rewrite elem_of_union, elem_of_singleton.
    intuition congruence.
Qed.

Lemma retryModule_other n name (s : State) :
  n ≠ name → status name (retryModule n s).2 = status name s.
Proof.
  intros Hne. unfold retryModule. eff.
  destruct (bool_decide (n ∈ failedLoads (this s))); cbn.
  - case_bool_decide; cbn; [done|].
    rewrite loadModule_other by done. unfold status, fetches; cbn.
    f_equal. apply bool_decide_ext. rewrite elem_of_difference, elem_of_singleton.
    intuition congruence.
  - by apply loadModule_other.
Qed.

(** *** While a load is in flight *)

Lemma in_flight_status name p (s s' : State) :
  status name s' = status name s → in_flight name p s → in_flight name p s'.
Proof.
  intros Hst (Hl & Hp & Hf). unfold in_flight. rewrite Hst.
  injection Hst as -> -> _ _ _ _. done.
Qed.

Lemma fetches_status name (s s' : State) :
  status name s' = status name s → fetches name s' = fetches name s.
Proof. by intros [= _ _ _ _ _ ?]. Qed.

Lemma loadModule_in_flight name p cond (s : State) :
  in_flight name p s →
  loadModule name cond s
  = (Normal (Fut p), logged (Logger.debug ("Module loading in progress: " +:+ name)) s).
Proof. intros (Hl & Hp & _). by apply loadModule_pending. Qed.

(** One call of [loadModule], for this module or another. *)
Lemma loadModule_keeps_in_flight n cond name p (s : State) :
  in_flight name p s →
  in_flight name p (loadModule n cond s).2
  ∧ fetches name (loadModule n cond s).2 = fetches name s.
Proof.
  intros Hin. destruct (decide (n = name)) as [->|Hne].
  - by rewrite (loadModule_in_flight name p).
  - pose proof (loadModule_other n name cond s Hne) as Hst.
    split; [by eapply in_flight_status|by apply fetches_status].
Qed.

Lemma loadModules_cons n names (s : State) :
  loadModules (n :: names) s
  = match loadModule n always s with
    | (Normal r, s1) =>
        match loadModules names s1 with
        | (Normal rs, s2) => (Normal (r :: rs), s2)
        | (Throw e, s2) => (Throw e, s2)
        end
    | (Throw e, s1) => (Throw e, s1)
    end.
Proof.
  cbn [loadModules]. unfold bind, ret.
  destruct (loadModule n always s) as [[r|e] s1]; [|done].
  by destruct (loadModules names s1) as [[rs|e] s2].
Qed.

(** What the two paths that look their modules up in a table do to the
    loader: the loads of some list of modules, after the line of the page
    path if it got that far.  (For a name that the table only inherits,
    that list is empty.) *)
Lemma loadPageSpecificModules_state page (s : State) :
  ∃ names s0,
    (s0 = s ∨ ∃ message, s0 = logged (Logger.info message) s)
    ∧ (loadPageSpecificModules page s).2 = (loadModules names s0).2.
Proof.
  unfold loadPageSpecificModules. destruct (entry pageModules page) as [modules|n|].
  - case_bool_decide.
    + exists modules, (logged (Logger.info ("Loading page-specific modules for " +:+ page)) s).
      split; [right; by eexists|done].
    + exists [], s. split; [by left|done].
  - case_bool_decide.
    + exists [], (logged (Logger.info ("Loading page-specific modules for " +:+ page)) s).
      split; [right; by eexists|done].
    + exists [], s. split; [by left|done].
  - exists [], s. split; [by left|done].
Qed.

Lemma loadOnInteraction_state interaction (s : State) :
  ∃ names, (loadOnInteraction interaction s).2 = (loadModules names s).2.
Proof.
  unfold loadOnInteraction. destruct (entry interactionModules interaction) as [modules|n|].
  - by exists modules.
  - by exists [].
  - by exists [].
Qed.

Lemma loadModules_keeps_in_flight names name p (s : State) :
  in_flight name p s →
  in_flight name p (loadModules names s).2
  ∧ fetches name (loadModules names s).2 = fetches name s.
Proof.
  revert s. induction names as [|n names IH]; intros s Hin; [by split|].
  rewrite loadModules_cons.
  destruct (loadModule_keeps_in_flight n always name p s Hin) as [Hin1 Hf1].
  destruct (loadModule n always s) as [[r|e] s1]; cbn in *; [|by split].
  destruct (IH s1 Hin1) as [Hin2 Hf2].
  destruct (loadModules names s1) as [[rs|e] s2]; cbn in *; split; congruence.
Qed.

Lemma retryModule_keeps_in_flight n name p (s : State) :
  in_flight name p s →
  in_flight name p (retryModule n s).2
  ∧ fetches name (retryModule n s).2 = fetches name s.
Proof.
  intros Hin. destruct (decide (n = name)) as [->|Hne].
  - unfold retryModule. eff.
    destruct (bool_decide (name ∈ failedLoads (this s))); cbn.
    + case_bool_decide; cbn; [done|].
      match goal with |- context [loadModule name always ?s0] => set (s' := s0) end.
      assert (in_flight name p s') as Hin' by (by destruct Hin as (? & ? & ?)).
      apply (loadModule_keeps_in_flight name always name p s' Hin').
    + by apply loadModule_keeps_in_flight.
  - pose proof (retryModule_other n name s Hne) as Hst.
    split; [by eapply in_flight_status|by apply fetches_status].
Qed.

Lemma settle_keeps_in_flight q outcome name p (s : State) :
  q ≠ p →
  in_flight name p s →
  in_flight name p (settle q outcome s).2
  ∧ fetches name (settle q outcome s).2 = fetches name s.
Proof.
  intros Hq Hin. unfold settle. eff.
  destruct (List.find _ (frames s)) as [f|] eqn:Hfind; [|done].
  apply find_some in Hfind as [Hf Hfq]. apply bool_decide_eq_true_1 in Hfq.
  assert (moduleName f ≠ name) as Hne.
  { intros Hname. destruct Hin as (_ & _ & Hall).
    apply Hq. rewrite <- Hfq. cbn in Hall.
    apply (proj1 (Forall_forall _ _) Hall), list_elem_of_fmap.
    exists f. split; [done|]. apply list_elem_of_filter. split; [done|].
    by apply list_elem_of_In. }
  set (s0 := {| this := this s; promises := promises s;
                frames := filter (λ g, modulePromise g ≠ q) (frames s);
                imported := imported s; console := console s |}).
  assert (in_flight name p s0 ∧ fetches name s0 = fetches name s) as [Hin0 Hf0].
  { split; [|done]. destruct Hin as (Hl & Hp & Hall). split; [done|]. split; [done|].
    cbn in *. rewrite list_filter_filter.
    apply Forall_forall. intros x Hx.
    apply (proj1 (Forall_forall _ _) Hall).
    apply list_elem_of_fmap in Hx as (g & -> & Hg).
    apply list_elem_of_filter in Hg as [[Hg1 Hg2] Hg3].
    apply list_elem_of_fmap. exists g. split; [done|].
    by apply list_elem_of_filter. }
  pose proof (loadModule_settled_other (moduleName f) name
                (match fate f with Some settled => settled | None => outcome end) s0 Hne) as Hst.
  destruct (loadModule_settled _ _ s0) as [[v|e] s1]; cbn [snd] in *.
  - split; [exact (in_flight_status name p s0 s1 Hst Hin0)|].
    rewrite <- Hf0. by apply fetches_status.
  - split; [exact (in_flight_status name p s0 s1 Hst Hin0)|].
    rewrite <- Hf0. by apply fetches_status.
Qed.

Lemma exec_keeps_in_flight (c : Call) name p (s : State) :
  before_resolution p c →
  in_flight name p s →
  in_flight name p (exec c s) ∧ fetches name (exec c s) = fetches name s.
Proof.
  intros Hc Hin. destruct c as [n cond|n| |page|isMobile|interaction| |q outcome];
    cbn [exec before_resolution] in *; unfold forget.
  - by apply loadModule_keeps_in_flight.
  - by apply retryModule_keeps_in_flight.
  - unfold preloadCriticalModules, bind at 1, performanceLogger, modify.
    by apply (loadModules_keeps_in_flight _ name p (logged _ s)).
  - destruct (loadPageSpecificModules_state page s) as (names & s0 & [->|[message ->]] & ->).
    + by apply loadModules_keeps_in_flight.
    + by apply (loadModules_keeps_in_flight _ name p (logged _ s)).
  - unfold loadViewportSpecificModules. destruct isMobile; [|by split].
    by apply loadModules_keeps_in_flight.
  - destruct (loadOnInteraction_state interaction s) as (names & ->).
    by apply loadModules_keeps_in_flight.
  - done.
  - by apply settle_keeps_in_flight.
Qed.

Lemma run_keeps_in_flight (cs : list Call) name p (s : State) :
  Forall (before_resolution p) cs →
  in_flight name p s →
  in_flight name p (run cs s) ∧ fetches name (run cs s) = fetches name s.
Proof.
  revert s. induction cs as [|c cs IH]; intros s Hcs Hin; [by split|].
  apply Forall_cons in Hcs as [Hc Hcs].
  destruct (exec_keeps_in_flight c name p s Hc Hin) as [Hin1 Hf1].
  destruct (IH (exec c s) Hcs Hin1) as [Hin2 Hf2].
  change (run (c :: cs) s) with (run cs (exec c s)). split; [done|congruence].
Qed.

(** The body of [loadModule] on a load in flight.  Take a module of the
    registry for which nothing is going on and which has not used up its
    retries.  The body of [loadModule] starts its load: the registry
    function is invoked once and the name becomes pending on a new promise
    [p].  Then, whatever happens before [p] is settled, the body run for
    the name, with any condition, returns [p], and the registry function of
    the name has still been invoked exactly once. *)
Lemma loadModule_finds_the_load
  (name : string) (cs : list Call) (cond : Condition) (s : State) :
  name ∈ moduleMap →
  idle name s →
  ¬ exhausted name s →
  Forall (before_resolution (promises s)) cs →
  let p := promises s in
  let s1 := (loadModule name always s).2 in
  (loadModule name always s).1 = Normal (Await p)
  ∧ pendingLoads (this s1) !! name = Some p
  ∧ fetches name s1 = S (fetches name s)
  ∧ (loadModule name cond (run cs s1)).1 = Normal (Fut p)
  ∧ pendingLoads (this (loadModule name cond (run cs s1)).2) !! name = Some p
  ∧ fetches name (loadModule name cond (run cs s1)).2 = S (fetches name s).
Proof.
  intros Hreg (Hl & Hp & Hfr) Hex Hcs p s1. subst s1.
  rewrite (loadModule_starts name s Hl Hp Hex Hreg). cbn [fst snd].
  match goal with |- context [run cs ?s0] => set (s1 := s0) end.
  assert (fetches name s1 = S (fetches name s)) as Hfetch.
  { unfold fetches, s1. cbn. rewrite filter_app, length_app.
    rewrite (filter_cons_True _ name []) by done. cbn. lia. }
  assert (in_flight name p s1) as Hin.
  { split; [done|]. split; [by cbn; rewrite lookup_insert_eq|].
    cbn in *. rewrite filter_app, fmap_app, Hfr.
    rewrite (filter_cons_True _ _ []) by done. cbn. by apply Forall_singleton. }
  destruct (run_keeps_in_flight cs name p s1 Hcs Hin) as [Hin' Hf'].
  split; [done|]. split; [by cbn; rewrite lookup_insert_eq|]. split; [done|].
  rewrite (loadModule_in_flight name p cond _ Hin'). cbn. split; [done|].
  split; [by destruct Hin' as (_ & ? & _)|].
  unfold fetches in *. cbn. congruence.
Qed.

(** *** A module that has given up *)

Lemma given_up_status name (s s' : State) :
  status name s' = status name s → given_up name s → given_up name s'.
Proof.
  intros [= Hl Hp Hf Hr _ _] ([Hfail Hmax] & Hlo & Hpe).
  split; [split|split]; try congruence.
  - apply (bool_decide_unpack _). rewrite Hf. by apply bool_decide_pack.
  - unfold retries_of in *. by rewrite Hr.
Qed.

Lemma loadModule_given_up n cond name (s : State) :
  given_up name s → status name (loadModule n cond s).2 = status name s.
Proof.
  intros ([Hfail Hmax] & Hlo & Hpe). destruct (decide (n = name)) as [->|Hne];
    [|by apply loadModule_other].
  unfold loadModule. eff. rewrite Hlo, Hpe. cbn.
  destruct (cond tt) as [[]|e]; cbn; [|done..].
  rewrite !bool_decide_eq_true_2 by done. done.
Qed.

Lemma loadModules_given_up names name (s : State) :
  given_up name s → status name (loadModules names s).2 = status name s.
Proof.
  revert s. induction names as [|n names IH]; intros s Hg; [done|].
  rewrite loadModules_cons.
  pose proof (loadModule_given_up n always name s Hg) as H1.
  destruct (loadModule n always s) as [[r|e] s1]; cbn [snd] in *; [|done].
  pose proof (IH s1 (given_up_status name s s1 H1 Hg)) as H2.
  destruct (loadModules names s1) as [[rs|e] s2]; cbn [snd] in *; congruence.
Qed.

Lemma exec_given_up (c : Call) name (s : State) :
  automatic c → given_up name s → status name (exec c s) = status name s.
Proof.
  intros Hc Hg. destruct c as [n cond|n| |page|isMobile|interaction| |q outcome];
    cbn [exec automatic] in *; unfold forget; try done.
  - by apply loadModule_given_up.
  - unfold preloadCriticalModules, bind at 1, performanceLogger, modify.
    by apply (loadModules_given_up _ name (logged _ s)).
  - destruct (loadPageSpecificModules_state page s) as (names & s0 & [->|[message ->]] & ->).
    + by apply loadModules_given_up.
    + by apply (loadModules_given_up _ name (logged _ s)).
  - unfold loadViewportSpecificModules. destruct isMobile; [|done].
    by apply loadModules_given_up.
  - destruct (loadOnInteraction_state interaction s) as (names & ->).
    by apply loadModules_given_up.
Qed.

Lemma run_given_up (cs : list Call) name (s : State) :
  Forall automatic cs → given_up name s →
  status name (run cs s) = status name s.
Proof.
  revert s. induction cs as [|c cs IH]; intros s Hcs Hg; [done|].
  apply Forall_cons in Hcs as [Hc Hcs].
  pose proof (exec_given_up c name s Hc Hg) as H1.
  change (run (c :: cs) s) with (run cs (exec c s)).
  rewrite IH; [done..|]. by eapply given_up_status.
Qed.

(** A batch of plain loads returns one result per name, and [null] at the
    places of a module that has given up. *)
Lemma loadModules_results names name (s : State) :
  given_up name s →
  ∃ rs, (loadModules names s).1 = Normal rs
        ∧ length rs = length names
        ∧ ∀ i, names !! i = Some name → rs !! i = Some (Val VNull).
Proof.
  revert s. induction names as [|n names IH]; intros s Hg.
  - exists []. by split_and!.
  - rewrite loadModules_cons.
    pose proof (loadModule_given_up n always name s Hg) as H1.
    assert (∃ r s1, loadModule n always s = (Normal r, s1)
                    ∧ (n = name → r = Val VNull)) as (r & s1 & Hrun & Hr).
    { destruct (decide (n = name)) as [->|Hne].
      - destruct Hg as (Hex & Hlo & Hpe).
        rewrite (loadModule_exhausted name s Hlo Hpe Hex). eauto.
      - unfold loadModule. eff.
        destruct (loadedModules (this s) !! n); [by eexists _, _|].
        destruct (pendingLoads (this s) !! n); [by eexists _, _|].
        cbn. destruct (_ && _); [by eexists _, _|].
        unfold dynamicImport, suspend. eff. case_bool_decide; cbn; by eexists _, _. }
    rewrite Hrun in H1 |- *. cbn [snd] in H1.
    destruct (IH s1 (given_up_status name s s1 H1 Hg)) as (rs & Hrs & Hlen & Hnull).
    destruct (loadModules names s1) as [[rs'|e] s2]; cbn in Hrs; [|done].
    injection Hrs as ->. exists (r :: rs). split_and!; [done|by cbn; rewrite Hlen|].
    intros [|i] Hi; cbn in *.
    + injection Hi as ->. by rewrite Hr.
    + by apply Hnull.
Qed.

(** ** C3 *)

(** C3. When a module is in the failed set with its count at the maximum
    (and, being failed, is neither loaded nor pending), then after any
    series of automatic load attempts, for this or for other modules, a
    plain [loadModule] of it returns [null]; so does each of its places in a
    batch such as the one [preloadCriticalModules] makes; and the registry
    function of the module has not been invoked once more. *)
Theorem given_up_module_is_skipped
  (name : string) (cs : list Call) (names : list string) (s : State) :
  name ∈ failedLoads (this s) →
  (MAX_RETRIES <= retries_of (this s) name)%nat →
  loadedModules (this s) !! name = None →
  pendingLoads (this s) !! name = None →
  Forall automatic cs →
  let s' := run cs s in
  (loadModule name always s').1 = Normal (Val VNull)
  ∧ fetches name (loadModule name always s').2 = fetches name s
  ∧ (∃ rs, (loadModules names s').1 = Normal rs
           ∧ ∀ i, names !! i = Some name → rs !! i = Some (Val VNull))
  ∧ fetches name (loadModules names s').2 = fetches name s.
Proof.
  intros Hfail Hmax Hlo Hpe Hcs s'.
  assert (given_up name s) as Hg by done.
  pose proof (run_given_up cs name s Hcs Hg) as Hst. fold s' in Hst.
  pose proof (given_up_status name s s' Hst Hg) as Hg'.
  pose proof (fetches_status name s s' Hst) as Hf.
  destruct Hg' as (Hex' & Hlo' & Hpe').
  rewrite (loadModule_exhausted name s' Hlo' Hpe' Hex'). cbn [fst snd].
  split; [done|]. split; [done|]. split.
  - destruct (loadModules_results names name s') as (rs & Hrs & _ & Hnull); [done|].
    by exists rs.
  - rewrite <- Hf. apply fetches_status. by apply loadModules_given_up.
Qed.

(** *** The retry count *)

Lemma loadModule_retryCount n cond (s : State) :
  retryCount (this (loadModule n cond s).2) = retryCount (this s).
Proof.
  unfold loadModule. eff.
  destruct (loadedModules (this s) !! n); [done|].
  destruct (pendingLoads (this s) !! n); [done|].
  cbn. destruct (cond tt) as [[]|e]; cbn; [|done..].
  destruct (_ && _); [done|].
  unfold dynamicImport, suspend. eff. by case_bool_decide.
Qed.

Lemma loadModules_retryCount names (s : State) :
  retryCount (this (loadModules names s).2) = retryCount (this s).
Proof.
  revert s. induction names as [|n names IH]; intros s; [done|].
  rewrite loadModules_cons. pose proof (loadModule_retryCount n always s) as H1.
  destruct (loadModule n always s) as [[r|e] s1]; cbn [snd] in *; [|done].
  pose proof (IH s1) as H2.
  destruct (loadModules names s1) as [[rs|e] s2]; cbn [snd] in *; congruence.
Qed.

(** The three ways through [retryModule]. *)
Lemma retryModule_not_failed name (s : State) :
  name ∉ failedLoads (this s) → retryModule name s = loadModule name always s.
Proof. intros Hnf. unfold retryModule. eff. by rewrite bool_decide_eq_false_2. Qed.

Lemma retryModule_below_maximum name (s : State) :
  name ∈ failedLoads (this s) →
  (retries_of (this s) name < MAX_RETRIES)%nat →
  retryModule name s = loadModule name always (flag_cleared name s).
Proof.
  intros Hf Hlt. unfold retryModule. eff. rewrite bool_decide_eq_true_2 by done.
  cbn. rewrite bool_decide_eq_false_2 by lia. done.
Qed.

Lemma retryModule_at_maximum name (s : State) :
  name ∈ failedLoads (this s) →
  (MAX_RETRIES <= retries_of (this s) name)%nat →
  retryModule name s
  = (Normal (Val VNull),
     logged (Logger.warn ("Module " +:+ name +:+ " exceeded max retries")) s).
Proof.
  intros Hf Hmax. unfold retryModule. eff. rewrite !bool_decide_eq_true_2 by done.
  done.
Qed.

Lemma retryModule_retryCount name (s : State) :
  retryCount (this (retryModule name s).2) = retryCount (this s).
Proof.
  destruct (decide (name ∈ failedLoads (this s))) as [Hf|Hnf].
  - destruct (decide (MAX_RETRIES <= retries_of (this s) name)%nat) as [Hmax|Hlt].
    + by rewrite retryModule_at_maximum.
    + rewrite retryModule_below_maximum by (done || lia).
      by rewrite loadModule_retryCount.
  - rewrite retryModule_not_failed by done. apply loadModule_retryCount.
Qed.

Lemma exec_call_retryCount (c : Call) (s : State) :
  requested c → retryCount (this (exec c s)) = retryCount (this s).
Proof.
  intros Hc. destruct c as [n cond|n| |page|isMobile|interaction| |q outcome];
    cbn [exec requested] in *; unfold forget; try done.
  - apply loadModule_retryCount.
  - apply retryModule_retryCount.
  - unfold preloadCriticalModules, bind at 1, performanceLogger, modify.
    apply (loadModules_retryCount _ (logged _ s)).
  - destruct (loadPageSpecificModules_state page s) as (names & s0 & [->|[message ->]] & ->).
    + apply loadModules_retryCount.
    + apply (loadModules_retryCount _ (logged _ s)).
  - unfold loadViewportSpecificModules. destruct isMobile; [|done].
    apply loadModules_retryCount.
  - destruct (loadOnInteraction_state interaction s) as (names & ->).
    apply loadModules_retryCount.
Qed.

(** What the end of a load does to the counts. *)
Lemma loadModule_settled_retryCount name outcome (s : State) :
  retryCount (this (loadModule_settled name outcome s).2)
  = match outcome with
    | Normal _ => delete name (retryCount (this s))
    | Throw _ => <[name := (retries_of (this s) name + 1)%nat]> (retryCount (this s))
    end.
Proof. by destruct outcome. Qed.

Lemma settle_retryCount p outcome (s : State) :
  retryCount (this (settle p outcome s).2)
  = match resumed p s with
    | Some f =>
        match ending f outcome with
        | Normal _ => delete (moduleName f) (retryCount (this s))
        | Throw _ => <[moduleName f := (retries_of (this s) (moduleName f) + 1)%nat]>
                       (retryCount (this s))
        end
    | None => retryCount (this s)
    end.
Proof.
  unfold settle, resumed. eff.
  destruct (List.find _ (frames s)) as [f|]; [|done].
  unfold ending. by destruct (fate f) as [[module|e]|], outcome.
Qed.

(** ** C7 *)

(** C7. About the count of failed attempts of every module:
    - a step that is not the settling of a promise (a load, a manual retry,
      an automatic path, a cleanup) leaves all counts as they are;
    - when a promise settles and resumes the load of a module, the count of
      that module goes up by one if the load failed and is deleted if it
      succeeded, and no other count moves;
    - [retryModule] on a module that is not failed is [loadModule]; on a
      failed module below the maximum it is [loadModule] on the loader with
      the failed flag of that module removed and the counts untouched; at
      the maximum it returns [null] and changes nothing but the console. *)
Theorem retryCount_moves_only_when_a_load_ends
  (name : string) (c : Call) (p : Promise) (outcome : Completion Value) (s : State) :
  (requested c → retryCount (this (exec c s)) = retryCount (this s))
  ∧ (resumed p s = None →
     retryCount (this (exec (Settle p outcome) s)) = retryCount (this s))
  ∧ (∀ f, resumed p s = Some f →
       let s' := exec (Settle p outcome) s in
       (∀ other, other ≠ moduleName f →
          retryCount (this s') !! other = retryCount (this s) !! other)
       ∧ (is_throw (ending f outcome) = true →
          retryCount (this s') !! moduleName f
          = Some (retries_of (this s) (moduleName f) + 1)%nat)
       ∧ (is_throw (ending f outcome) = false →
          retryCount (this s') !! moduleName f = None))
  ∧ retryCount (this (retryModule name s).2) = retryCount (this s)
  ∧ (name ∉ failedLoads (this s) → retryModule name s = loadModule name always s)
  ∧ (name ∈ failedLoads (this s) → (retries_of (this s) name < MAX_RETRIES)%nat →
     retryModule name s = loadModule name always (flag_cleared name s)
     ∧ retryCount (this (flag_cleared name s)) = retryCount (this s)
     ∧ failedLoads (this (flag_cleared name s)) = failedLoads (this s) ∖ {[name]}
     ∧ loadedModules (this (flag_cleared name s)) = loadedModules (this s)
     ∧ pendingLoads (this (flag_cleared name s)) = pendingLoads (this s))
  ∧ (name ∈ failedLoads (this s) → (MAX_RETRIES <= retries_of (this s) name)%nat →
     (retryModule name s).1 = Normal (Val VNull)
     ∧ this (retryModule name s).2 = this s
     ∧ fetches name (retryModule name s).2 = fetches name s).
Proof.
  split_and!.
  - apply exec_call_retryCount.
  - intros Hnone. cbn [exec]. unfold forget. by rewrite settle_retryCount, Hnone.
  - intros f Hf s'. subst s'. cbn [exec]. unfold forget.
    rewrite settle_retryCount, Hf.
    destruct (ending f outcome) as [module|e]; cbn [is_throw]; split_and!; try done.
    + intros other Hne. by rewrite lookup_delete_ne.
    + intros _. by rewrite lookup_delete_eq.
    + intros other Hne. by rewrite lookup_insert_ne.
    + intros _. by rewrite lookup_insert_eq.
  - apply retryModule_retryCount.
  - apply retryModule_not_failed.
  - intros Hf Hlt. split; [by apply retryModule_below_maximum|done].
  - intros Hf Hmax. by rewrite retryModule_at_maximum.
Qed.

(** *** Consistency of the collections *)

Lemma consistent_initial c : consistent (initial c).
Proof.
  split_and!; cbn.
  - intros f Hf. by apply elem_of_nil in Hf.
  - intros n [m Hm]. by rewrite lookup_empty in Hm.
  - done.
  - done.
Qed.

Lemma consistent_same (s s' : State) :
  this s' = this s → frames s' = frames s → consistent s → consistent s'.
Proof.
  intros Ht Hf (H1 & H2 & H3 & H4). unfold consistent, exhausted. rewrite Ht, Hf. done.
Qed.

(** [loadModule] gives back the loader as it was, but for the console, or
    the loader in which a load of an idle, not exhausted module has begun. *)
Lemma loadModule_cases n cond (s : State) :
  (this (loadModule n cond s).2 = this s ∧ frames (loadModule n cond s).2 = frames s)
  ∨ (loadedModules (this s) !! n = None ∧ pendingLoads (this s) !! n = None
     ∧ ¬ exhausted n s ∧ (loadModule n cond s).2 = begun n s).
Proof.
  unfold loadModule. eff.
  destruct (loadedModules (this s) !! n) eqn:Hl; [by left|].
  destruct (pendingLoads (this s) !! n) eqn:Hp; [by left|].
  cbn. destruct (cond tt) as [[]|e]; cbn; [|by left..].
  destruct (bool_decide (n ∈ failedLoads (this s))
            && bool_decide (MAX_RETRIES <= retries_of (this s) n)%nat) eqn:Hb; [by left|].
  right. split_and!; try done.
  - intros [Hf Hr]. rewrite !bool_decide_eq_true_2 in Hb by done. done.
  - unfold dynamicImport, suspend, begun. eff.
    by destruct (bool_decide (n ∈ moduleMap)).
Qed.

Lemma begun_consistent n (s : State) :
  loadedModules (this s) !! n = None → pendingLoads (this s) !! n = None →
  ¬ exhausted n s → consistent s → consistent (begun n s).
Proof.
  intros Hl Hp Hex (H1 & H2 & H3 & H4). split_and!; cbn.
  - intros f Hf. apply elem_of_app in Hf as [Hf|Hf].
    + destruct (decide (moduleName f = n)) as [Hn|Hn].
      * rewrite <- Hn, (H1 f Hf) in Hp. done.
      * rewrite lookup_insert_ne by done. by apply H1.
    + apply list_elem_of_singleton in Hf as ->. cbn. by rewrite lookup_insert_eq.
  - intros m Hm. destruct (decide (n = m)) as [->|Hn].
    + rewrite Hl in Hm. by destruct Hm.
    + rewrite lookup_insert_ne by done. by apply H2.
  - done.
  - intros m Hm. destruct (decide (n = m)) as [->|Hn]; [done|].
    rewrite lookup_insert_ne by done. by apply H4.
Qed.

Lemma loadModule_consistent n cond (s : State) :
  consistent s → consistent (loadModule n cond s).2.
Proof.
  intros Hc. destruct (loadModule_cases n cond s) as [[Ht Hf]|(Hl & Hp & Hex & ->)].
  - by apply (consistent_same s).
  - by apply begun_consistent.
Qed.

Lemma loadModules_consistent names (s : State) :
  consistent s → consistent (loadModules names s).2.
Proof.
  revert s. induction names as [|n names IH]; intros s Hc; [done|].
  rewrite loadModules_cons. pose proof (loadModule_consistent n always s Hc) as H1.
  destruct (loadModule n always s) as [[r|e] s1]; cbn [snd] in *; [|done].
  pose proof (IH s1 H1) as H2.
  by destruct (loadModules names s1) as [[rs|e] s2].
Qed.

Lemma flag_cleared_consistent n (s : State) : consistent s → consistent (flag_cleared n s).
Proof.
  intros (H1 & H2 & H3 & H4). split_and!; cbn; try done.
  - intros m Hm. apply H3. by apply elem_of_difference in Hm as [Hm _].
  - intros m [Hm Hr]. apply H4. split; [|done]. by apply elem_of_difference in Hm as [Hm _].
Qed.

Lemma retryModule_consistent n (s : State) :
  consistent s → consistent (retryModule n s).2.
Proof.
  intros Hc. destruct (decide (n ∈ failedLoads (this s))) as [Hf|Hnf].
  - destruct (decide (MAX_RETRIES <= retries_of (this s) n)%nat) as [Hmax|Hlt].
    + rewrite retryModule_at_maximum by done. by apply (consistent_same s).
    + rewrite retryModule_below_maximum by (done || lia).
      by apply loadModule_consistent, flag_cleared_consistent.
  - rewrite retryModule_not_failed by done. by apply loadModule_consistent.
Qed.

Lemma settle_consistent p outcome (s : State) :
  consistent s → consistent (settle p outcome s).2.
Proof.
  intros (H1 & H2 & H3 & H4). unfold settle. eff.
  destruct (List.find _ (frames s)) as [f|] eqn:Hfind; [|done].
  apply find_some in Hfind as [Hf Hfp]. apply bool_decide_eq_true_1 in Hfp.
  apply list_elem_of_In in Hf. pose proof (H1 f Hf) as Hpend. rewrite Hfp in Hpend.
  assert (∀ g, g ∈ filter (λ g, modulePromise g ≠ p) (frames s) →
               moduleName g ≠ moduleName f ∧ g ∈ frames s) as Hrest.
  { intros g Hg. apply list_elem_of_filter in Hg as [Hgp Hg]. split; [|done].
    intros Hname. pose proof (H1 g Hg) as Hpg. rewrite Hname, Hpend in Hpg. congruence. }
  assert (loadedModules (this s) !! moduleName f = None) as Hnl.
  { destruct (loadedModules (this s) !! moduleName f) eqn:Hl; [|done].
    rewrite H2 in Hpend by eauto. done. }
  unfold loadModule_settled.
  destruct (match fate f with Some settled => settled | None => outcome end) as [module|e];
    eff; cbn; split_and!; cbn.
  - intros g Hg. destruct (Hrest g Hg) as [Hne Hin].
    rewrite lookup_delete_ne by done. by apply H1.
  - intros n Hn. destruct (decide (moduleName f = n)) as [<-|Hne].
    + by rewrite lookup_delete_eq.
    + rewrite lookup_insert_ne in Hn by done. rewrite lookup_delete_ne by done. by apply H2.
  - intros n Hn. apply elem_of_difference in Hn as [Hn Hne].
    rewrite elem_of_singleton in Hne. rewrite lookup_insert_ne by done. by apply H3.
  - intros n [Hn Hr]. cbn in *. apply elem_of_difference in Hn as [Hn Hne].
    rewrite elem_of_singleton in Hne. rewrite lookup_delete_ne by done.
    apply H4. split; [done|]. unfold retries_of in *. cbn in Hr.
    by rewrite lookup_delete_ne in Hr.
  - intros g Hg. destruct (Hrest g Hg) as [Hne Hin].
    rewrite lookup_delete_ne by done. by apply H1.
  - intros n Hn. destruct (decide (moduleName f = n)) as [<-|Hne].
    + by rewrite lookup_delete_eq.
    + rewrite lookup_delete_ne by done. by apply H2.
  - intros n Hn. apply elem_of_union in Hn as [Hn|Hn]; [by apply H3|].
    apply elem_of_singleton in Hn as ->. done.
  - intros n [Hn Hr]. cbn in *. destruct (decide (moduleName f = n)) as [<-|Hne].
    + by rewrite lookup_delete_eq.
    + rewrite lookup_delete_ne by done. apply H4. split.
      * apply elem_of_union in Hn as [Hn|Hn]; [done|].
        apply elem_of_singleton in Hn. congruence.
      * unfold retries_of in *. cbn in Hr. by rewrite lookup_insert_ne in Hr.
Qed.

Lemma exec_consistent (c : Call) (s : State) :
  keeps_pending c → consistent s → consistent (exec c s).
Proof.
  intros Hc Hs. destruct c as [n cond|n| |page|isMobile|interaction| |q outcome];
    cbn [exec keeps_pending] in *; unfold forget; try done.
  - by apply loadModule_consistent.
  - by apply retryModule_consistent.
  - unfold preloadCriticalModules, bind at 1, performanceLogger, modify.
    by apply (loadModules_consistent _ (logged _ s)).
  - destruct (loadPageSpecificModules_state page s) as (names & s0 & [->|[message ->]] & ->).
    + by apply loadModules_consistent.
    + by apply (loadModules_consistent _ (logged _ s)).
  - unfold loadViewportSpecificModules. destruct isMobile; [|done].
    by apply loadModules_consistent.
  - destruct (loadOnInteraction_state interaction s) as (names & ->).
    by apply loadModules_consistent.
  - by apply settle_consistent.
Qed.

(** From a loader just built, and as long as [cleanup] is not called: a
    module is never both loaded and pending, and a failed module that has
    used up its retries is neither. *)
Lemma run_consistent (cs : list Call) c :
  Forall keeps_pending cs →
  let s := run cs (initial c) in
  consistent s
  ∧ (∀ n, is_Some (loadedModules (this s) !! n) → pendingLoads (this s) !! n = None)
  ∧ (∀ n, exhausted n s → given_up n s).
Proof.
  intros Hcs s.
  assert (consistent s) as Hs.
  { subst s. generalize (consistent_initial c). generalize (initial c).
    induction cs as [|c0 cs IH]; intros s0 H0; [done|].
    apply Forall_cons in Hcs as [Hc Hcs].
    change (run (c0 :: cs) s0) with (run cs (exec c0 s0)).
    by apply IH, exec_consistent. }
  split; [done|]. destruct Hs as (H1 & H2 & H3 & H4). split; [done|].
  intros n Hn. split; [done|]. split; [apply H3, Hn|by apply H4].
Qed.

(** *** Invariants of every step *)

(** A property kept by the four building blocks is kept by every call
    that is made of them. *)
Lemma exec_preserves (P : State → Prop) (c : Call) (s : State) :
  (∀ message s, P s → P (logged (Logger.info message) s)) →
  (∀ n cond s, P s → P (loadModule n cond s).2) →
  (∀ n s, P s → P (retryModule n s).2) →
  (∀ p outcome s, P s → P (settle p outcome s).2) →
  keeps_pending c → P s → P (exec c s).
Proof.
  intros Hlog Hload Hretry Hsettle Hc Hs.
  assert (∀ names s, P s → P (loadModules names s).2) as Hloads.
  { intros names. induction names as [|n names IH]; intros s0 H0; [done|].
    rewrite loadModules_cons. specialize (Hload n always s0 H0).
    destruct (loadModule n always s0) as [[r|e] s1]; cbn [snd] in *; [|done].
    specialize (IH s1 Hload).
    by destruct (loadModules names s1) as [[rs|e] s2]. }
  destruct c as [n cond|n| |page|isMobile|interaction| |q outcome];
    cbn [exec keeps_pending] in *; unfold forget; try done.
  - by apply Hload.
  - by apply Hretry.
  - unfold preloadCriticalModules, bind at 1, performanceLogger, modify.
    by apply (Hloads _ (logged _ s)), Hlog.
  - destruct (loadPageSpecificModules_state page s) as (names & s0 & [->|[message ->]] & ->).
    + by apply Hloads.
    + by apply Hloads, Hlog.
  - unfold loadViewportSpecificModules. destruct isMobile; [|done].
    by apply Hloads.
  - destruct (loadOnInteraction_state interaction s) as (names & ->).
    by apply Hloads.
  - by apply Hsettle.
Qed.

Lemma run_preserves (P : State → Prop) (cs : list Call) (s : State) :
  (∀ c s, c ∈ cs → P s → P (exec c s)) → P s → P (run cs s).
Proof.
  revert s. induction cs as [|c cs IH]; intros s Hstep Hs; [done|].
  change (run (c :: cs) s) with (run cs (exec c s)).
  apply IH.
  - intros c' s' Hc'. apply Hstep. by right.
  - apply Hstep; [by left|done].
Qed.

(** [loadModule] on a module that is neither loaded, nor pending, nor
    exhausted starts a load, in the registry or not. *)
Lemma loadModule_begins name (s : State) :
  loadedModules (this s) !! name = None →
  pendingLoads (this s) !! name = None →
  ¬ exhausted name s →
  loadModule name always s = (Normal (Await (promises s)), begun name s).
Proof.
  intros Hl Hp Hex. unfold loadModule. eff. rewrite Hl, Hp. cbn.
  destruct (bool_decide (name ∈ failedLoads (this s))
            && bool_decide (MAX_RETRIES <= retries_of (this s) name)%nat) eqn:Hb.
  { apply andb_prop in Hb as [Hf Hr]. destruct Hex.
    split; by eapply bool_decide_eq_true_1. }
  unfold dynamicImport, suspend, begun. eff.
  by destruct (bool_decide (name ∈ moduleMap)).
Qed.

(** The retry of a failed module below the maximum leaves the flag cleared. *)
Lemma retryModule_this n (s : State) :
  (this (retryModule n s).2 = this s ∧ frames (retryModule n s).2 = frames s
   ∧ promises (retryModule n s).2 = promises s
   ∧ imported (retryModule n s).2 = imported s)
  ∨ (∃ s0, (s0 = s ∨ (n ∈ failedLoads (this s)
                       ∧ (retries_of (this s) n < MAX_RETRIES)%nat
                       ∧ s0 = flag_cleared n s))
           ∧ (retryModule n s).2 = (loadModule n always s0).2).
Proof.
  destruct (decide (n ∈ failedLoads (this s))) as [Hf|Hnf].
  - destruct (decide (MAX_RETRIES <= retries_of (this s) n)%nat) as [Hmax|Hlt].
    + left. by rewrite retryModule_at_maximum.
    + right. exists (flag_cleared n s). split; [right; split_and!; [done|lia|done]|].
      by rewrite retryModule_below_maximum by (done || lia).
  - right. exists s. split; [by left|]. by rewrite retryModule_not_failed.
Qed.

(** *** What is imported *)

Lemma loadModule_imported n cond (s : State) :
  imported (loadModule n cond s).2 = imported s
  ∨ (n ∈ moduleMap ∧ imported (loadModule n cond s).2 = imported s ++ [n]).
Proof.
  destruct (loadModule_cases n cond s) as [Hsame|(_ & _ & _ & ->)].
  - unfold loadModule in *. revert Hsame. eff.
    destruct (loadedModules (this s) !! n); [by left|].
    destruct (pendingLoads (this s) !! n); [by left|].
    cbn. destruct (cond tt) as [[]|e]; cbn; [|by left..].
    destruct (_ && _); [by left|].
    unfold dynamicImport, suspend. eff. intros [_ Hframes]. exfalso.
    destruct (bool_decide (n ∈ moduleMap)); cbn in Hframes;
      apply (f_equal length) in Hframes; rewrite length_app in Hframes; cbn in Hframes; lia.
  - unfold begun. cbn. case_bool_decide; [by right|by left].
Qed.

Lemma settle_imported p outcome (s : State) :
  imported (settle p outcome s).2 = imported s.
Proof.
  unfold settle. eff. destruct (List.find _ (frames s)) as [f|]; [|done].
  unfold loadModule_settled.
  by destruct (match fate f with Some settled => settled | None => outcome end).
Qed.

(** *** One load, from the call to the answer *)

Lemma promises_fresh_logged f (s : State) : promises_fresh s → promises_fresh (logged f s).
Proof. done. Qed.

Lemma loadModule_promises_fresh n cond (s : State) :
  promises_fresh s → promises_fresh (loadModule n cond s).2.
Proof.
  intros Hfresh. unfold loadModule. eff.
  destruct (loadedModules (this s) !! n); [done|].
  destruct (pendingLoads (this s) !! n); [done|].
  cbn. destruct (cond tt) as [[]|e]; cbn; [|done..].
  destruct (_ && _); [done|].
  unfold dynamicImport, suspend. eff.
  destruct (bool_decide (n ∈ moduleMap)); cbn; intros f Hf; cbn in *;
    (apply elem_of_app in Hf as [Hf|Hf];
      [pose proof (Hfresh f Hf); lia|apply list_elem_of_singleton in Hf as ->; cbn; lia]).
Qed.

Lemma settle_promises_fresh p outcome (s : State) :
  promises_fresh s → promises_fresh (settle p outcome s).2.
Proof.
  intros Hfresh. unfold settle. eff. destruct (List.find _ (frames s)) as [f|]; [|done].
  unfold loadModule_settled.
  destruct (match fate f with Some settled => settled | None => outcome end); eff; cbn;
    intros g Hg; cbn in *; apply list_elem_of_filter in Hg as [_ Hg]; by apply Hfresh.
Qed.

Lemma exec_promises_fresh (c : Call) (s : State) :
  promises_fresh s → promises_fresh (exec c s).
Proof.
  intros Hs.
  assert (keeps_pending c ∨ c = CCleanup) as [Hkeeps| ->]
    by (destruct c; cbn; auto); [|done].
  apply exec_preserves; try done.
  - apply loadModule_promises_fresh.
  - intros n s0 H0. destruct (retryModule_this n s0) as [(_ & Hf & Hp & _)|(s1 & Hs1 & ->)].
    + intros f. rewrite Hf, Hp. apply H0.
    + apply loadModule_promises_fresh. by destruct Hs1 as [->|(_ & _ & ->)].
  - apply settle_promises_fresh.
Qed.

(** From a loader just built, a suspended call never waits on a promise
    yet to be created. *)
Lemma run_promises_fresh (cs : list Call) (c : Logger.Console) :
  promises_fresh (run cs (initial c)).
Proof.
  apply (run_preserves promises_fresh).
  - intros call s _. apply exec_promises_fresh.
  - intros f Hf. by apply elem_of_nil in Hf.
Qed.

(** *** The promises are numbered upwards *)





(** ** C2 *)


Lemma find_fresh (p : Promise) (f : Frame) (fs : list Frame) :
  modulePromise f = p →
  (∀ g, g ∈ fs → (modulePromise g < p)%nat) →
  List.find (λ g, bool_decide (modulePromise g = p)) (fs ++ [f]) = Some f
  ∧ filter (λ g, modulePromise g ≠ p) (fs ++ [f]) = fs.
Proof.
  intros Hf Hfs. induction fs as [|g fs IH]; cbn [app find].
  - rewrite bool_decide_eq_true_2 by done. split; [done|].
    by rewrite filter_cons_False by (intros Hn; by apply Hn).
  - pose proof (Hfs g ltac:(left)) as Hg.
    rewrite bool_decide_eq_false_2 by lia.
    destruct IH as [-> Hfilter]; [intros h Hh; apply Hfs; by right|]. split; [done|].
    rewrite filter_cons_True by lia. by rewrite Hfilter.
Qed.

(** X20. One load from the call to the answer.  For a name that is
    neither loaded, nor pending, nor out of retries, [loadModule] starts a
    load on a new promise; a registry function is invoked if and only if
    the name is a key of the registry.  When the promise is settled, the
    name is no longer pending.  How it is settled is [answer]: by the page
    for a key of the registry; for any other name by what [dynamicImport]
    has found, whatever the page says ([constructor], [toString] and
    [isPrototypeOf], inherited by [moduleMap], are called and return; the
    other inherited names and the names not found throw).  If the promise
    is fulfilled, the value is stored as the module, the failed flag and
    the count of the name are gone, and the next [loadModule] returns the
    value with no import.  If it is rejected, nothing is stored, the name
    is flagged failed, and its count is one more than before. *)
Theorem load_then_answer (name : string) (outcome : Completion Value) (s : State) :
  promises_fresh s →
  loadedModules (this s) !! name = None →
  pendingLoads (this s) !! name = None →
  ¬ exhausted name s →
  let s1 := (loadModule name always s).2 in
  let s2 := (settle (promises s) outcome s1).2 in
  (loadModule name always s).1 = Normal (Await (promises s))
  ∧ fetches name s2
    = (if bool_decide (name ∈ moduleMap) then S (fetches name s) else fetches name s)
  ∧ pendingLoads (this s2) !! name = None
  ∧ frames s2 = frames s
  ∧ match answer name (promises s) outcome with
    | Normal module =>
        loadedModules (this s2) !! name = Some module
        ∧ (name ∉ failedLoads (this s2))
        ∧ retryCount (this s2) !! name = None
        ∧ (loadModule name always s2).1 = Normal (Val module)
        ∧ fetches name (loadModule name always s2).2 = fetches name s2
    | Throw _ =>
        loadedModules (this s2) !! name = None
        ∧ name ∈ failedLoads (this s2)
        ∧ retries_of (this s2) name = S (retries_of (this s) name)
    end.
Proof.
  intros Hfresh Hl Hp Hex s1 s2. subst s1 s2.
  rewrite (loadModule_begins name s Hl Hp Hex). cbn [fst snd]. split; [done|].
  set (f := {| moduleName := name; modulePromise := promises s;
               fate := if bool_decide (name ∈ moduleMap) then None
                       else Some (unregistered name (promises s)) |}).
  destruct (find_fresh (promises s) f (frames s) eq_refl Hfresh) as [Hfind Hfilter].
  assert ((settle (promises s) outcome (begun name s)).2
          = (loadModule_settled name (answer name (promises s) outcome)
               {| this := this (begun name s); promises := S (promises s);
                  frames := frames s; imported := imported (begun name s);
                  console := console s |}).2) as ->.
  { unfold settle, bind, get, modify. cbn [frames begun]. fold f. rewrite Hfind.
    cbn [frames begun]. fold f. rewrite Hfilter. cbn [moduleName fate f].
    unfold answer. cbn [promises console begun].
    destruct (bool_decide (name ∈ moduleMap)).
    - by destruct (loadModule_settled name outcome _) as [[v|e] s'].
    - by destruct (loadModule_settled name (unregistered _ _) _) as [[v|e] s']. }
  clear f Hfind Hfilter.
  assert (fetches name (begun name s)
          = if bool_decide (name ∈ moduleMap) then S (fetches name s) else fetches name s)
    as Hfetch.
  { unfold fetches, begun. cbn. case_bool_decide; [|done].
    rewrite filter_app, filter_cons_True by done. rewrite length_app. cbn. lia. }
  unfold loadModule_settled.
  destruct (answer name (promises s) outcome) as [module|e]; (split; [exact Hfetch|]);
    unfold performanceLogger, set_this; eff; cbn.
  - rewrite lookup_delete_eq, lookup_insert_eq. split_and!; try done.
    + rewrite elem_of_difference, elem_of_singleton. by intros [_ Hne].
    + by rewrite lookup_delete_eq.
    + by rewrite loadModule_loaded with (module := module) by (cbn; apply lookup_insert_eq).
    + by rewrite loadModule_loaded with (module := module) by (cbn; apply lookup_insert_eq).
  - rewrite lookup_delete_eq. split_and!; try done.
    + apply elem_of_union. right. by apply elem_of_singleton.
    + unfold retries_of. cbn. rewrite lookup_insert_eq. cbn. lia.
Qed.

(** X21. [cleanup] forgets the loads that are running.  While a load of a
    registered module is in flight, [loadModule] hands out its promise; once
    [cleanup] has emptied [pendingLoads] (the page calls it every five
    minutes), the next [loadModule] of the same module imports it a second
    time, on a new promise, although the first import is still running. *)
Theorem cleanup_forgets_running_loads (name : string) (p : Promise) (s : State) :
  in_flight name p s →
  ¬ exhausted name s →
  name ∈ moduleMap →
  let s1 := (cleanup s).2 in
  (loadModule name always s).1 = Normal (Fut p)
  ∧ fetches name (loadModule name always s).2 = fetches name s
  ∧ frames s1 = frames s
  ∧ (loadModule name always s1).1 = Normal (Await (promises s))
  ∧ fetches name (loadModule name always s1).2 = S (fetches name s).
Proof.
  intros Hin Hex Hreg s1. subst s1.
  rewrite (loadModule_in_flight name p always s Hin). cbn [fst snd].
  split; [done|]. split; [done|]. split; [done|].
  destruct Hin as (Hl & _ & _).
  rewrite loadModule_starts; [|done..].
  cbn. split; [done|]. unfold fetches. cbn.
  rewrite filter_app, filter_cons_True by done. rewrite length_app. cbn. lia.
Qed.

(** *** Once the retries are used up *)

Lemma filter_none {A} (P : A → Prop) `{∀ x, Decision (P x)} (l : list A) :
  (∀ x, x ∈ l → ¬ P x) → filter P l = [].
Proof.
  intros HP. induction l as [|x l IH]; [done|].
  rewrite filter_cons_False by (apply HP; by left).
  apply IH. intros y Hy. apply HP. by right.
Qed.

Lemma settle_given_up p outcome name (s : State) :
  consistent s → given_up name s →
  status name (settle p outcome s).2 = status name s.
Proof.
  intros (H1 & _) (_ & _ & Hpe). unfold settle. eff.
  destruct (List.find _ (frames s)) as [f|] eqn:Hfind; [|done].
  apply find_some in Hfind as [Hf _]. apply list_elem_of_In in Hf.
  assert (∀ g, g ∈ frames s → moduleName g ≠ name) as Hnone.
  { intros g Hg Hname. pose proof (H1 g Hg) as Hpg. rewrite Hname, Hpe in Hpg. done. }
  set (s0 := {| this := this s; promises := promises s;
                frames := filter (λ g, modulePromise g ≠ p) (frames s);
                imported := imported s; console := console s |}).
  assert (status name s0 = status name s) as Hs0.
  { unfold status, fetches. cbn. f_equal. f_equal. rewrite list_filter_filter.
    rewrite !filter_none; [done|apply Hnone|].
    intros g Hg [Hname _]. by apply (Hnone g). }
  pose proof (loadModule_settled_other (moduleName f) name
                (match fate f with Some settled => settled | None => outcome end) s0
                (Hnone f Hf)) as Hst.
  destruct (loadModule_settled _ _ s0) as [[v|e] s1]; cbn [snd] in *; congruence.
Qed.

Lemma exec_given_up_for_good (c : Call) name (s0 s : State) :
  given_up name s0 →
  keeps_pending c →
  consistent s ∧ status name s = status name s0 →
  consistent (exec c s) ∧ status name (exec c s) = status name s0.
Proof.
  intros Hg Hc Hs.
  apply (exec_preserves (λ s, consistent s ∧ status name s = status name s0));
    [| | | |done|done].
  - intros f s1 [Hc1 Hs1]. split; [by apply (consistent_same s1)|done].
  - intros n cond s1 [Hc1 Hs1]. split; [by apply loadModule_consistent|].
    rewrite <- Hs1. apply loadModule_given_up. by apply (given_up_status name s0).
  - intros n s1 [Hc1 Hs1]. split; [by apply retryModule_consistent|].
    rewrite <- Hs1. destruct (decide (n = name)) as [->|Hne]; [|by apply retryModule_other].
    destruct (given_up_status name s0 s1 Hs1 Hg) as ([Hf Hmax] & _).
    by rewrite retryModule_at_maximum.
  - intros p outcome s1 [Hc1 Hs1]. split; [by apply settle_consistent|].
    rewrite <- Hs1. apply settle_given_up; [done|]. by apply (given_up_status name s0).
Qed.

(** X22. Giving up is for good.  Once a module is in the failed set with
    its count at the maximum, nothing the loader offers brings it back, as
    long as [cleanup] is not called: after any calls and any answers of the
    page, the module is still given up and has not been imported again,
    and [retryModule] returns [null] without importing it. *)
Theorem giving_up_is_for_good (name : string) (cs : list Call) (s : State) :
  consistent s →
  given_up name s →
  Forall keeps_pending cs →
  let s' := run cs s in
  given_up name s'
  ∧ fetches name s' = fetches name s
  ∧ (retryModule name s').1 = Normal (Val VNull)
  ∧ fetches name (retryModule name s').2 = fetches name s.
Proof.
  intros Hc Hg Hcs s'.
  assert (consistent s' ∧ status name s' = status name s) as [_ Hst].
  { subst s'. apply (run_preserves (λ s1, consistent s1 ∧ status name s1 = status name s));
      [|done].
    intros c s1 Hin. apply exec_given_up_for_good; [done|].
    by apply (proj1 (Forall_forall _ _) Hcs). }
  pose proof (given_up_status name s s' Hst Hg) as Hg'.
  pose proof (fetches_status name s s' Hst) as Hf.
  destruct Hg' as ([Hfail Hmax] & Hlo & Hpe).
  rewrite retryModule_at_maximum by done. by split_and!.
Qed.

(** *** The count and the allowance *)

Lemma bounded_same (s s' : State) : this s' = this s → bounded s → bounded s'.
Proof. intros Ht Hb n. rewrite Ht. apply Hb. Qed.

Lemma loadModule_bounded n cond (s : State) : bounded s → bounded (loadModule n cond s).2.
Proof.
  intros Hb. destruct (loadModule_cases n cond s) as [[Ht _]|(_ & _ & _ & ->)].
  - by apply (bounded_same s).
  - exact Hb.
Qed.

Lemma flag_cleared_bounded n (s : State) :
  (retries_of (this s) n < MAX_RETRIES)%nat → bounded s → bounded (flag_cleared n s).
Proof.
  intros Hlt Hb m. destruct (Hb m) as [Hle Hnf]. split; [done|].
  cbn. rewrite elem_of_difference, elem_of_singleton. intros Hm.
  destruct (decide (m = n)) as [->|Hne]; [done|].
  apply Hnf. intros Hin. apply Hm. by split.
Qed.

Lemma settle_bounded p outcome (s : State) :
  consistent s → bounded s → bounded (settle p outcome s).2.
Proof.
  intros (H1 & _ & _ & H4) Hb. unfold settle. eff.
  destruct (List.find _ (frames s)) as [f|] eqn:Hfind; [|done].
  apply find_some in Hfind as [Hf _]. apply list_elem_of_In in Hf.
  assert (retries_of (this s) (moduleName f) < MAX_RETRIES)%nat as Hlt.
  { destruct (Hb (moduleName f)) as [Hle Hnf].
    destruct (decide (moduleName f ∈ failedLoads (this s))) as [Hfail|Hok]; [|by apply Hnf].
    destruct (decide (MAX_RETRIES <= retries_of (this s) (moduleName f))%nat) as [Hmax|];
      [|lia].
    pose proof (H4 (moduleName f) (conj Hfail Hmax)) as Hpe.
    by rewrite (H1 f Hf) in Hpe. }
  unfold loadModule_settled, performanceLogger, set_this.
  destruct (match fate f with Some settled => settled | None => outcome end) as [module|e];
    eff; cbn; intros n; destruct (Hb n) as [Hle Hnf]; unfold retries_of in *; cbn.
  - destruct (decide (n = moduleName f)) as [->|Hne].
    + rewrite lookup_delete_eq. cbn. unfold MAX_RETRIES. split; [lia|intros _; lia].
    + rewrite lookup_delete_ne by done. split; [done|].
      rewrite elem_of_difference, elem_of_singleton. intros Hn. apply Hnf.
      intros Hin. apply Hn. by split.
  - destruct (decide (n = moduleName f)) as [->|Hne].
    + rewrite lookup_insert_eq. cbn. split; [lia|].
      intros Hn. destruct Hn. apply elem_of_union. right. by apply elem_of_singleton.
    + rewrite lookup_insert_ne by done. split; [done|].
      intros Hn. apply Hnf. intros Hin. apply Hn. apply elem_of_union. by left.
Qed.

(** X23. The count never passes the allowance.  From a loader just built,
    and as long as [cleanup] is not called, whatever is asked and whatever
    the page answers, no module has a retry count above [MAX_RETRIES], and
    a module at [MAX_RETRIES] is in the failed set. *)
Theorem retries_stay_within_the_allowance
  (cs : list Call) (c : Logger.Console) (n : string) :
  Forall keeps_pending cs →
  let s := run cs (initial c) in
  (retries_of (this s) n <= MAX_RETRIES)%nat
  ∧ (retries_of (this s) n = MAX_RETRIES → n ∈ failedLoads (this s)).
Proof.
  intros Hcs s.
  assert (consistent s ∧ bounded s) as [_ Hb].
  { subst s. apply (run_preserves (λ s, consistent s ∧ bounded s)).
    - intros call s0 Hin Hs0. apply (exec_preserves (λ s, consistent s ∧ bounded s));
        [..|by apply (proj1 (Forall_forall _ _) Hcs)|done].
      + intros f s1 [Hc1 Hb1]. split; [by apply (consistent_same s1)|done].
      + intros m cond s1 [Hc1 Hb1].
        split; [by apply loadModule_consistent|by apply loadModule_bounded].
      + intros m s1 [Hc1 Hb1]. split; [by apply retryModule_consistent|].
        destruct (retryModule_this m s1) as [(Ht & _)|(s2 & Hs2 & ->)].
        * by apply (bounded_same s1).
        * apply loadModule_bounded. destruct Hs2 as [->|(_ & Hlt & ->)]; [done|].
          by apply flag_cleared_bounded.
      + intros p outcome s1 [Hc1 Hb1].
        split; [by apply settle_consistent|by apply settle_bounded].
    - split; [apply consistent_initial|]. intros m. unfold retries_of, MAX_RETRIES. cbn.
      rewrite lookup_empty. cbn. split; [lia|intros _; lia]. }
  destruct (Hb n) as [Hle Hnf]. split; [done|].
  intros Heq. destruct (decide (n ∈ failedLoads (this s))) as [|Hout]; [done|].
  specialize (Hnf Hout). lia.
Qed.

(** X18. The four collections hang together.  From a loader just built,
    and as long as [cleanup] is not called, whatever is asked and whatever
    the page answers: a loaded module is not pending; a failed module is
    not loaded; a module out of retries is not pending; and every call
    suspended at its [await] waits on the promise that [pendingLoads] holds
    for its module. *)
Theorem collections_hang_together (cs : list Call) (c : Logger.Console) :
  Forall keeps_pending cs →
  let s := run cs (initial c) in
  (∀ n, is_Some (loadedModules (this s) !! n) → pendingLoads (this s) !! n = None)
  ∧ (∀ n, n ∈ failedLoads (this s) → loadedModules (this s) !! n = None)
  ∧ (∀ n, n ∈ failedLoads (this s) → (MAX_RETRIES <= retries_of (this s) n)%nat →
          pendingLoads (this s) !! n = None)
  ∧ (∀ f, f ∈ frames s →
          pendingLoads (this s) !! moduleName f = Some (modulePromise f)).
Proof.
  intros Hcs s. destruct (run_consistent cs c Hcs) as ((H1 & H2 & H3 & H4) & _).
  split_and!; [done..| |done]. intros n Hf Hmax. by apply H4.
Qed.

(** With [cleanup] between the calls, four loads of one module run at once;
    when all four fail, its count is four. *)
Example cleanup_lets_the_count_pass_the_allowance :
  let s := run [CLoadModule "blog" always; CCleanup; CLoadModule "blog" always; CCleanup;
                CLoadModule "blog" always; CCleanup; CLoadModule "blog" always;
                Settle 0 TestLoader.network_error; Settle 1 TestLoader.network_error;
                Settle 2 TestLoader.network_error; Settle 3 TestLoader.network_error]
               TestLoader.fresh in
  fetches "blog" s = 4%nat ∧ retries_of (this s) "blog" = 4%nat.
Proof. vm_compute. done. Qed.

(** *** What is printed in production *)

Lemma production_below level message (c : Logger.Console) :
  level ≠ Logger.ERROR → production c →
  production (if Logger.shouldLog level c then Logger.print level message c else c).
Proof.
  intros Hlevel [Hc Hp]. unfold Logger.shouldLog. rewrite Hc.
  rewrite bool_decide_eq_false_2; [done|]. destruct level; cbn; (done || lia).
Qed.

Lemma production_debug message c : production c → production (Logger.debug message c).
Proof. by apply production_below. Qed.

Lemma production_info message c : production c → production (Logger.info message c).
Proof. by apply production_below. Qed.

Lemma production_warn message c : production c → production (Logger.warn message c).
Proof. by apply production_below. Qed.

Lemma production_error n c :
  production c → production (Logger.error ("Failed to load module " +:+ n) c).
Proof.
  intros [Hc Hp]. split; [done|]. cbn. apply Forall_app. split; [done|].
  apply Forall_singleton. split; [done|]. by exists n.
Qed.

Lemma loadModule_production n cond (s : State) :
  production (console s) → production (console (loadModule n cond s).2).
Proof.
  intros Hs. unfold loadModule, performanceLogger. eff.
  destruct (loadedModules (this s) !! n); [by apply production_debug|].
  destruct (pendingLoads (this s) !! n); [by apply production_debug|].
  cbn. destruct (cond tt) as [[]|e]; cbn; [|by apply production_debug|done].
  destruct (_ && _); [by apply production_warn|].
  unfold dynamicImport, suspend. eff. by destruct (bool_decide (n ∈ moduleMap)).
Qed.

Lemma settle_production p outcome (s : State) :
  production (console s) → production (console (settle p outcome s).2).
Proof.
  intros Hs. unfold settle. eff. destruct (List.find _ (frames s)) as [f|]; [|done].
  unfold loadModule_settled, performanceLogger.
  destruct (match fate f with Some settled => settled | None => outcome end); eff; cbn.
  - by apply production_debug.
  - by apply production_error.
Qed.

Lemma retryModule_production n (s : State) :
  production (console s) → production (console (retryModule n s).2).
Proof.
  intros Hs. destruct (decide (n ∈ failedLoads (this s))) as [Hf|Hnf].
  - destruct (decide (MAX_RETRIES <= retries_of (this s) n)%nat) as [Hmax|Hlt].
    + rewrite retryModule_at_maximum by done. by apply production_warn.
    + rewrite retryModule_below_maximum by (done || lia).
      by apply loadModule_production.
  - rewrite retryModule_not_failed by done. by apply loadModule_production.
Qed.

(** X24. In production only failed loads are printed.  With the threshold
    of production ([ERROR]), whatever is asked of the loader and whatever
    the page answers, every line that [debug], [info], [warn] and [error]
    have printed for it is the error line of a load that failed: the debug
    and info lines are not printed, and neither are the warnings that a
    module is skipped or has exceeded its retries. *)
Theorem in_production_only_failures_are_printed (cs : list Call) (c : Logger.Console) :
  Logger.logLevel c = Logger.ERROR →
  Logger.printed c = [] →
  let s := run cs (initial c) in
  Logger.logLevel (console s) = Logger.ERROR
  ∧ Forall load_failure (Logger.printed (console s)).
Proof.
  intros Hlevel Hnone s. subst s.
  apply (run_preserves (λ s, production (console s))).
  - intros call s _ Hs.
    assert (keeps_pending call ∨ call = CCleanup) as [Hkeeps| ->]
      by (destruct call; cbn; auto).
    + apply (exec_preserves (λ s, production (console s))); [| | | |done|done].
      * intros message s0. apply production_info.
      * apply loadModule_production.
      * apply retryModule_production.
      * apply settle_production.
    + by apply production_debug.
  - split; [done|]. cbn. rewrite Hnone. apply Forall_nil_2.
Qed.

(** *** On a loader just built, and after three failures *)



Lemma given_up_witness :
  let s := TestLoader.blog_failed_three_times in
  let cs := [CLoadModule "blog" always; CLoadPageSpecificModules "blog.html";
             CPreloadCriticalModules] in
  "blog" ∈ failedLoads (this s)
  ∧ (MAX_RETRIES <= retries_of (this s) "blog")%nat
  ∧ loadedModules (this s) !! "blog" = None
  ∧ pendingLoads (this s) !! "blog" = None
  ∧ Forall automatic cs
  ∧ (loadModule "blog" always (run cs s)).1 = Normal (Val VNull)
  ∧ fetches "blog" (loadModule "blog" always (run cs s)).2 = fetches "blog" s.
Proof.
  intros s cs.
  assert ("blog" ∈ failedLoads (this s)) as H1
    by (apply (bool_decide_unpack _); vm_compute; exact I).
  assert (MAX_RETRIES <= retries_of (this s) "blog")%nat as H2
    by (apply (bool_decide_unpack _); vm_compute; exact I).
  assert (loadedModules (this s) !! "blog" = None) as H3 by (vm_compute; reflexivity).
  assert (pendingLoads (this s) !! "blog" = None) as H4 by (vm_compute; reflexivity).
  assert (Forall automatic cs) as H5
    by (repeat apply Forall_cons_2; try exact I; apply Forall_nil_2).
  split; [exact H1|]. split; [exact H2|]. split; [exact H3|]. split; [exact H4|].
  split; [exact H5|].
  destruct (given_up_module_is_skipped "blog" cs [] s H1 H2 H3 H4 H5)
    as (Ha & Hb & _).
  exact (conj Ha Hb).
Defined.

(** The scenario of the specification: a registry function that always
    fails, three calls of [loadModule]; the fourth returns [null], the
    function has been invoked three times and not a fourth, and a manual
    retry does nothing either. *)
Lemma three_failures_then_skipped :
  let s := TestLoader.blog_failed_three_times in
  retryCount (this s) !! "blog" = Some 3%nat
  ∧ fetches "blog" s = 3%nat
  ∧ (loadModule "blog" always s).1 = Normal (Val VNull)
  ∧ fetches "blog" (loadModule "blog" always s).2 = 3%nat
  ∧ (retryModule "blog" s).1 = Normal (Val VNull)
  ∧ fetches "blog" (retryModule "blog" s).2 = 3%nat.
Proof. vm_compute. done. Qed.

(** One failure, then a manual retry: the flag goes, the count stays; the
    count goes when the retried load succeeds. *)
Lemma retry_keeps_the_count :
  let s := run [CLoadModule "blog" always; Settle 0 TestLoader.network_error]
               TestLoader.fresh in
  let s1 := (retryModule "blog" s).2 in
  let s2 := exec (Settle 1 (Normal (VRef 7))) s1 in
  retryCount (this s) !! "blog" = Some 1%nat
  ∧ bool_decide ("blog" ∈ failedLoads (this s)) = true
  ∧ (retryModule "blog" s).1 = Normal (Await 1%nat)
  ∧ retryCount (this s1) !! "blog" = Some 1%nat
  ∧ bool_decide ("blog" ∈ failedLoads (this s1)) = false
  ∧ retryCount (this s2) !! "blog" = None
  ∧ loadedModules (this s2) !! "blog" = Some (VRef 7).
Proof. vm_compute. done. Qed.

(** A load that succeeds is served from the cache afterwards, without a
    second invocation of the registry function. *)
Lemma loaded_module_is_cached :
  let s := run [CLoadModule "carousel" always; Settle 0 (Normal (VRef 7))]
               TestLoader.fresh in
  (loadModule "carousel" always s).1 = Normal (Val (VRef 7))
  ∧ fetches "carousel" (loadModule "carousel" always s).2 = 1%nat.
Proof. vm_compute. done. Qed.


(** *** Examples for the further properties *)

Lemma collections_witness :
  let cs := [CPreloadCriticalModules; CLoadModule "blog" always;
             Settle 4 TestLoader.network_error; CRetryModule "blog";
             Settle 0 (Normal (VRef 7)); CLoadPageSpecificModules "index.html"] in
  let s := run cs (initial TestLoader.quiet) in
  Forall keeps_pending cs
  ∧ (∀ n, is_Some (loadedModules (this s) !! n) → pendingLoads (this s) !! n = None)
  ∧ (∀ f, f ∈ frames s →
          pendingLoads (this s) !! moduleName f = Some (modulePromise f)).
Proof.
  intros cs s.
  assert (Forall keeps_pending cs) as Hcs
    by (repeat apply Forall_cons_2; try exact I; apply Forall_nil_2).
  destruct (collections_hang_together cs TestLoader.quiet Hcs) as (H1 & _ & _ & H4).
  exact (conj Hcs (conj H1 H4)).
Defined.

Lemma load_then_answer_witness :
  let s := TestLoader.fresh in
  promises_fresh s
  ∧ loadedModules (this s) !! "carousel" = None
  ∧ pendingLoads (this s) !! "carousel" = None
  ∧ ¬ exhausted "carousel" s
  ∧ (loadModule "carousel" always s).1 = Normal (Await (promises s))
  ∧ fetches "carousel"
      (settle (promises s) (Normal (VRef 7)) (loadModule "carousel" always s).2).2
    = 1%nat
  ∧ fetches "nowhere"
      (settle (promises s) (Normal (VRef 7)) (loadModule "nowhere" always s).2).2
    = 0%nat
  ∧ "nowhere"
      ∈ failedLoads
          (this (settle (promises s) (Normal (VRef 7)) (loadModule "nowhere" always s).2).2)
  ∧ loadedModules
      (this (settle (promises s) TestLoader.network_error
               (loadModule "constructor" always s).2).2) !! "constructor"
    = Some (VRef 0)
  ∧ fetches "constructor"
      (settle (promises s) TestLoader.network_error (loadModule "constructor" always s).2).2
    = 0%nat.
Proof.
  intros s.
  assert (promises_fresh s) as Hfresh by exact (run_promises_fresh [] TestLoader.quiet).
  assert (∀ n, loadedModules (this s) !! n = None) as Hl by (intros n; apply lookup_empty).
  assert (∀ n, pendingLoads (this s) !! n = None) as Hp by (intros n; apply lookup_empty).
  assert (∀ n, ¬ exhausted n s) as Hex.
  { intros n [Hf _]. exact (not_elem_of_empty (C := gset string) _ Hf). }
  split; [exact Hfresh|]. split; [exact (Hl "carousel")|]. split; [exact (Hp "carousel")|].
  split; [exact (Hex "carousel")|].
  destruct (load_then_answer "carousel" (Normal (VRef 7)) s Hfresh
              (Hl "carousel") (Hp "carousel") (Hex "carousel")) as (Ha & Hb & _).
  destruct (load_then_answer "nowhere" (Normal (VRef 7)) s Hfresh
              (Hl "nowhere") (Hp "nowhere") (Hex "nowhere"))
    as (_ & Hc & _ & _ & _ & Hd & _).
  destruct (load_then_answer "constructor" TestLoader.network_error s Hfresh
              (Hl "constructor") (Hp "constructor") (Hex "constructor"))
    as (_ & Hf & _ & _ & He & _).
  exact (conj Ha (conj Hb (conj Hc (conj Hd (conj He Hf))))).
Defined.

(** The names that [moduleMap] inherits, and two that it does not have, each
    asked of a loader just built while the network is down: three are
    stored as loaded, the others are flagged failed, and no registry
    function is invoked. *)
Lemma inherited_names_example :
  let load name :=
    (settle 0 TestLoader.network_error (loadModule name always TestLoader.fresh).2).2 in
  loadedModules (this (load "constructor")) !! "constructor" = Some (VRef 0)
  ∧ loadedModules (this (load "toString")) !! "toString" = Some (VStr "[object Undefined]")
  ∧ loadedModules (this (load "isPrototypeOf")) !! "isPrototypeOf" = Some (VBool false)
  ∧ retryCount (this (load "hasOwnProperty")) !! "hasOwnProperty" = Some 1%nat
  ∧ retryCount (this (load "valueOf")) !! "valueOf" = Some 1%nat
  ∧ retryCount (this (load "__proto__")) !! "__proto__" = Some 1%nat
  ∧ retryCount (this (load "nowhere")) !! "nowhere" = Some 1%nat
  ∧ retryCount (this (load "carousel")) !! "carousel" = Some 1%nat
  ∧ imported (load "constructor") = []
  ∧ imported (load "hasOwnProperty") = []
  ∧ imported (load "carousel") = ["carousel"].
Proof. vm_compute. split_and!; done. Qed.

(** A page, or an interaction, named like something the tables inherit:
    nothing is loaded, and the call throws where it takes the function for
    an array. *)
Lemma inherited_table_names_example :
  let s := TestLoader.fresh in
  (loadPageSpecificModules "constructor" s).1 = Throw TypeError
  ∧ (loadPageSpecificModules "toString" s).1 = Normal []
  ∧ (loadPageSpecificModules "__proto__" s).1 = Normal []
  ∧ (loadPageSpecificModules "nowhere.html" s).1 = Normal []
  ∧ (loadPageSpecificModules "blog.html" s).1 = Normal [Await 0%nat]
  ∧ (loadOnInteraction "constructor" s).1 = Throw TypeError
  ∧ (loadOnInteraction "__proto__" s).1 = Throw TypeError
  ∧ (loadOnInteraction "hover" s).1 = Normal []
  ∧ (loadOnInteraction "scroll" s).1 = Normal [Await 0%nat]
  ∧ imported (loadPageSpecificModules "constructor" s).2 = []
  ∧ imported (loadOnInteraction "constructor" s).2 = [].
Proof. vm_compute. split_and!; done. Qed.

Lemma cleanup_witness :
  let s := (loadModule "carousel" always TestLoader.fresh).2 in
  in_flight "carousel" 0%nat s
  ∧ ¬ exhausted "carousel" s
  ∧ "carousel" ∈ moduleMap
  ∧ (loadModule "carousel" always s).1 = Normal (Fut 0%nat)
  ∧ (loadModule "carousel" always (cleanup s).2).1 = Normal (Await 1%nat)
  ∧ fetches "carousel" (loadModule "carousel" always (cleanup s).2).2 = 2%nat.
Proof.
  intros s.
  assert (in_flight "carousel" 0%nat s) as Hin.
  { split; [reflexivity|]. split; [vm_compute; reflexivity|].
    apply (bool_decide_unpack _). vm_compute. exact I. }
  assert (¬ exhausted "carousel" s) as Hex.
  { intros [Hf _]. exact (not_elem_of_empty (C := gset string) _ Hf). }
  assert ("carousel" ∈ moduleMap) as Hreg
    by (apply (bool_decide_unpack _); vm_compute; exact I).
  split; [exact Hin|]. split; [exact Hex|]. split; [exact Hreg|].
  destruct (cleanup_forgets_running_loads "carousel" 0%nat s Hin Hex Hreg)
    as (Ha & _ & _ & Hb & Hc).
  exact (conj Ha (conj Hb Hc)).
Defined.

Lemma giving_up_witness :
  let s := TestLoader.blog_failed_three_times in
  let cs := [CRetryModule "blog"; CLoadModule "blog" always;
             CLoadModule "carousel" always; Settle 3 (Normal (VRef 7));
             CLoadPageSpecificModules "blog.html"; CRetryModule "blog"] in
  consistent s
  ∧ given_up "blog" s
  ∧ Forall keeps_pending cs
  ∧ given_up "blog" (run cs s)
  ∧ fetches "blog" (run cs s) = fetches "blog" s
  ∧ (retryModule "blog" (run cs s)).1 = Normal (Val VNull).
Proof.
  intros s cs.
  assert (consistent s) as Hc.
  { refine (proj1 (run_consistent
      [CLoadModule "blog" always; Settle 0 TestLoader.network_error;
       CLoadModule "blog" always; Settle 1 TestLoader.network_error;
       CLoadModule "blog" always; Settle 2 TestLoader.network_error] TestLoader.quiet _)).
    repeat apply Forall_cons_2; try exact I. apply Forall_nil_2. }
  assert (given_up "blog" s) as Hg.
  { split; [split|split].
    - apply (bool_decide_unpack _). vm_compute. exact I.
    - apply (bool_decide_unpack _). vm_compute. exact I.
    - vm_compute. reflexivity.
    - vm_compute. reflexivity. }
  assert (Forall keeps_pending cs) as Hcs
    by (repeat apply Forall_cons_2; try exact I; apply Forall_nil_2).
  split; [exact Hc|]. split; [exact Hg|]. split; [exact Hcs|].
  destruct (giving_up_is_for_good "blog" cs s Hc Hg Hcs) as (Ha & Hb & Hd & _).
  exact (conj Ha (conj Hb Hd)).
Defined.

Lemma allowance_witness :
  let cs := [CLoadModule "blog" always; Settle 0 TestLoader.network_error;
             CRetryModule "blog"; Settle 1 TestLoader.network_error;
             CRetryModule "blog"; Settle 2 TestLoader.network_error;
             CRetryModule "blog"; CLoadModule "blog" always;
             Settle 3 TestLoader.network_error] in
  let s := run cs (initial TestLoader.quiet) in
  Forall keeps_pending cs
  ∧ (retries_of (this s) "blog" <= MAX_RETRIES)%nat
  ∧ (retries_of (this s) "blog" = MAX_RETRIES → "blog" ∈ failedLoads (this s)).
Proof.
  intros cs s.
  assert (Forall keeps_pending cs) as Hcs
    by (repeat apply Forall_cons_2; try exact I; apply Forall_nil_2).
  exact (conj Hcs (retries_stay_within_the_allowance cs TestLoader.quiet "blog" Hcs)).
Defined.

Lemma production_witness :
  let cs := [CLoadModule "blog" always; Settle 0 TestLoader.network_error;
             CLoadModule "nowhere" always; Settle 1 (Normal (VRef 7));
             CPreloadCriticalModules; CCleanup; CRetryModule "blog"] in
  let s := run cs (initial TestLoader.quiet) in
  Logger.logLevel TestLoader.quiet = Logger.ERROR
  ∧ Logger.printed TestLoader.quiet = []
  ∧ Forall load_failure (Logger.printed (console s)).
Proof.
  intros cs s.
  assert (Logger.logLevel TestLoader.quiet = Logger.ERROR) as Hlevel by reflexivity.
  assert (Logger.printed TestLoader.quiet = []) as Hnone by reflexivity.
  exact (conj Hlevel (conj Hnone
           (proj2 (in_production_only_failures_are_printed cs TestLoader.quiet
                     Hlevel Hnone)))).
Defined.

End LoaderFacts.
